(** * thola: device-class resolution and property aggregation

    A shallow embedding of [core/communicator/device_class_group_properties.go]
    and [core/communicator/timos-sas.go], with the properties of the
    query-tree reader, the device-class merge, the communicator resolution
    chain, the component getters and aggregators and the interface
    post-processing passes. *)

From stdpp Require Import gmap strings list fin_maps sorting.
From Stdlib Require Import ZArith Ascii String.

Local Open Scope string_scope.

(** * Errors and results *)

Module tholaerr.

(** Modelled from the spec: package [tholaerr] is not among the sources.
    Section 7 of the specification gives the taxonomy: NotImplemented,
    NotFound, the component-level not-found, and every other error is a
    hard failure. An error carries its kind and its message. *)
Inductive kind : Type :=
  | NotImplemented
  | NotFound
  | ComponentNotFound
  | HardFailure.

Record error : Type := Error { errKind : kind; errMsg : string }.

#[global] Instance kind_eq_dec : EqDecision kind.
Proof. solve_decision. Defined.

#[global] Instance error_eq_dec : EqDecision error.
Proof. solve_decision. Defined.

Definition NewNotImplementedError (msg : string) : error := Error NotImplemented msg.

Definition NewNotFoundError (msg : string) : error := Error NotFound msg.

Definition NewComponentNotFoundError (msg : string) : error := Error ComponentNotFound msg.

Definition IsNotImplementedError (err : error) : bool :=
  bool_decide (errKind err = NotImplemented).

Definition IsNotFoundError (err : error) : bool :=
  bool_decide (errKind err = NotFound).

End tholaerr.

Module errors.
Import tholaerr.

(** [errors.New] of github.com/pkg/errors: a plain error, of no thola kind. *)
Definition New (msg : string) : error := Error HardFailure msg.

(** [errors.Wrap] and [errors.Wrapf] put a message in front of an error and
    keep its cause, hence its kind. *)
Definition Wrap (err : error) (msg : string) : error :=
  Error (errKind err) (msg ++ ": " ++ errMsg err).

End errors.

(** A Go pair [(value, error)] of which exactly one is meaningful. *)
Inductive Result (A : Type) : Type :=
  | Ok (value : A)
  | Err (err : tholaerr.error).
Arguments Ok {A} value.
Arguments Err {A} err.

Definition Result_map {A B} (f : A → B) (r : Result A) : Result B :=
  match r with
  | Ok value => Ok (f value)
  | Err err => Err err
  end.

(** * Machine integers *)

Definition MaxUint32 : Z := 4294967295.

(** Arithmetic on [uint64] wraps around. *)
Definition uint64 (z : Z) : Z := z mod 2 ^ 64.

(** * Package device: the interface record *)

Module device.

(** Modelled from the spec: package [device] is not among the sources. These
    are the fields of [device.SAPInterface] and [device.Interface] that the
    two files read or write; each is a pointer, [None] is [nil]. The integer
    fields are [uint64], like the [subIndex] that [IfIndex] is compared with. *)
Record SAPInterface : Type := {
  Inbound : option Z;
  Outbound : option Z;
}.

Record Interface : Type := {
  IfIndex : option Z;
  IfDescr : option string;
  IfSpeed : option Z;
  IfHighSpeed : option Z;
  SAP : option SAPInterface;
}.

Definition setIfSpeed (interf : Interface) (speed : option Z) : Interface :=
  {| IfIndex := IfIndex interf; IfDescr := IfDescr interf; IfSpeed := speed;
     IfHighSpeed := IfHighSpeed interf; SAP := SAP interf |}.

Definition setSAP (interf : Interface) (sap : option SAPInterface) : Interface :=
  {| IfIndex := IfIndex interf; IfDescr := IfDescr interf; IfSpeed := IfSpeed interf;
     IfHighSpeed := IfHighSpeed interf; SAP := sap |}.

End device.

(** * The communicator resolution chain *)

Module communicator.
Import tholaerr device.

(** What [normalizeInterfaces] does to one interface, read off its loop body:
    the lemmas below compare the loop with it. *)
Definition normalizeInterface (interf : Interface) : Interface :=
  match IfSpeed interf, IfHighSpeed interf with
  | Some speed, Some highSpeed =>
    if (speed =? MaxUint32)%Z
    then setIfSpeed interf (Some (uint64 (highSpeed * 1000000)))
    else interf
  | _, _ => interf
  end.

(** The body of the loop of [normalizeInterfaces] at index [i]. *)
Definition normalizeInterfaceAt (interfaces : list Interface) (i : nat) : list Interface :=
  match interfaces !! i with
  | None => interfaces
  | Some interf =>
    match IfSpeed interf, IfHighSpeed interf with
    | Some speed, Some highSpeed =>
      if (speed =? MaxUint32)%Z
      then <[i := setIfSpeed interf (Some (uint64 (highSpeed * 1000000)))]> interfaces
      else interfaces
    | _, _ => interfaces
    end
  end.

(** [for i, interf := range interfaces { ... interfaces[i].IfSpeed = &ifSpeed }] *)
Definition normalizeInterfaces (interfaces : list Interface) : list Interface :=
  foldl normalizeInterfaceAt interfaces (seq 0 (List.length interfaces)).

Inductive component : Type :=
  | interfacesComponent
  | upsComponent
  | cpuComponent
  | memoryComponent
  | sbcComponent
  | serverComponent
  | diskComponent
  | hardwareHealthComponent.

Section chain.

(** [St] is everything a resolution step can read and change (the device
    behind the connection, the log); [Args] is the variadic argument list that
    [executeWithRecursion] hands to each step unchanged. *)
Context {St Args : Type}.

Definition adapterFunc (V : Type) : Type := Args → St → Result V * St.

(** The last lines of [executeWithRecursion], reached with the three errors. *)
Definition noInformation {V} (err1 err2 err3 : error) : Result V :=
  if IsNotImplementedError err1 && IsNotImplementedError err2
     && IsNotImplementedError err3
  then Err (NewNotImplementedError "no detection information available")
  else Err (NewNotFoundError "failed to get information through any device class").

(** [fCom] and [fSub] are [None] where the Go code passes a [nil] function:
    the communicator has no override implementation, respectively no parent. *)
Definition executeWithRecursion {V} (fClass : adapterFunc V)
    (fCom fSub : option (adapterFunc V)) : adapterFunc V :=
  λ args s,
  let third (err1 err2 : error) (s2 : St) : Result V * St :=
    match fSub with
    | Some f =>
      let '(r3, s3) := f args s2 in
      match r3 with
      | Ok value => (Ok value, s3)
      | Err err3 =>
        if negb (IsNotFoundError err3) then (Err err3, s3)
        else (noInformation err1 err2 err3, s3)
      end
    | None =>
      (noInformation err1 err2
         (NewNotImplementedError "no parent communicator with implementation available"),
       s2)
    end in
  let '(r1, s1) := fClass args s in
  match r1 with
  | Ok value => (Ok value, s1)
  | Err err1 =>
    if negb (IsNotImplementedError err1) then (Err err1, s1)
    else
      match fCom with
      | Some f =>
        let '(r2, s2) := f args s1 in
        match r2 with
        | Ok value => (Ok value, s2)
        | Err err2 =>
          if negb (IsNotImplementedError err2) then (Err err2, s2)
          else third err1 err2 s2
        end
      | None => third err1 (NewNotImplementedError "no communicator available") s1
      end
  end.

(** The functions of [availableCommunicatorFunctions] that the properties
    below go through, behind their [communicatorAdapter]. *)
Record availableCommunicatorFunctions : Type := {
  getVendor : adapterFunc string;
  getModel : adapterFunc string;
  getModelSeries : adapterFunc string;
  getSerialNumber : adapterFunc string;
  getOSVersion : adapterFunc string;
  getInterfaces : adapterFunc (list Interface);
}.

(** Modelled from the spec: type [deviceClassCommunicator] is not among the
    sources. A device class has a name, a flat set of available-component
    flags, and evaluates each property from its query definitions. *)
Record deviceClassCommunicator : Type := {
  getName : string;
  hasAvailableComponent : component → bool;
  classFunctions : availableCommunicatorFunctions;
}.

(** [head] stands for [c.head.GetDeviceClass()], the only use the two files
    make of the head communicator in the properties below. *)
Inductive networkDeviceCommunicator : Type :=
  NetworkDeviceCommunicator {
    head : string;
    sub : option networkDeviceCommunicator;
    codeCommunicator : option availableCommunicatorFunctions;
    deviceClass : deviceClassCommunicator;
  }.

Definition GetDeviceClass (c : networkDeviceCommunicator) : string :=
  getName (deviceClass c).

Definition isHead (c : networkDeviceCommunicator) : bool :=
  bool_decide (head c = GetDeviceClass c).

(** The end of the five string getters. *)
Definition nonEmpty (r : Result string * St) : Result string * St :=
  match r with
  | (Err err, s) => (Err err, s)
  | (Ok res, s) =>
    if bool_decide (res = "") then (Err (NewNotFoundError "empty string returned"), s)
    else (Ok res, s)
  end.

Fixpoint GetVendor (c : networkDeviceCommunicator) : adapterFunc string :=
  λ args s,
  let fClass := getVendor (classFunctions (deviceClass c)) in
  let fCom := getVendor <$> codeCommunicator c in
  let fSub := match sub c with Some c' => Some (GetVendor c') | None => None end in
  nonEmpty (executeWithRecursion fClass fCom fSub args s).

Fixpoint GetModel (c : networkDeviceCommunicator) : adapterFunc string :=
  λ args s,
  let fClass := getModel (classFunctions (deviceClass c)) in
  let fCom := getModel <$> codeCommunicator c in
  let fSub := match sub c with Some c' => Some (GetModel c') | None => None end in
  nonEmpty (executeWithRecursion fClass fCom fSub args s).

Fixpoint GetModelSeries (c : networkDeviceCommunicator) : adapterFunc string :=
  λ args s,
  let fClass := getModelSeries (classFunctions (deviceClass c)) in
  let fCom := getModelSeries <$> codeCommunicator c in
  let fSub := match sub c with Some c' => Some (GetModelSeries c') | None => None end in
  nonEmpty (executeWithRecursion fClass fCom fSub args s).

Fixpoint GetSerialNumber (c : networkDeviceCommunicator) : adapterFunc string :=
  λ args s,
  let fClass := getSerialNumber (classFunctions (deviceClass c)) in
  let fCom := getSerialNumber <$> codeCommunicator c in
  let fSub := match sub c with Some c' => Some (GetSerialNumber c') | None => None end in
  nonEmpty (executeWithRecursion fClass fCom fSub args s).

Fixpoint GetOSVersion (c : networkDeviceCommunicator) : adapterFunc string :=
  λ args s,
  let fClass := getOSVersion (classFunctions (deviceClass c)) in
  let fCom := getOSVersion <$> codeCommunicator c in
  let fSub := match sub c with Some c' => Some (GetOSVersion c') | None => None end in
  nonEmpty (executeWithRecursion fClass fCom fSub args s).

Fixpoint GetInterfaces (c : networkDeviceCommunicator) : adapterFunc (list Interface) :=
  λ args s,
  if isHead c && negb (hasAvailableComponent (deviceClass c) interfacesComponent)
  then (Err (NewComponentNotFoundError
               "no interfaces component available for this device"), s)
  else
    let fClass := getInterfaces (classFunctions (deviceClass c)) in
    let fCom := getInterfaces <$> codeCommunicator c in
    let fSub := match sub c with Some c' => Some (GetInterfaces c') | None => None end in
    match executeWithRecursion fClass fCom fSub args s with
    | (Err err, s') => (Err err, s')
    | (Ok res, s') =>
      if isHead c then (Ok (normalizeInterfaces res), s') else (Ok res, s')
    end.

(** The three-step chain for the interface listing without any finishing
    pass, as section 4.3 of the specification words it: the class step, the
    override step, then the parent's own chain. [GetInterfaces] is compared
    with it. *)
Fixpoint resolveInterfaces (c : networkDeviceCommunicator) : adapterFunc (list Interface) :=
  λ args s,
  let fClass := getInterfaces (classFunctions (deviceClass c)) in
  let fCom := getInterfaces <$> codeCommunicator c in
  let fSub := match sub c with Some c' => Some (resolveInterfaces c') | None => None end in
  executeWithRecursion fClass fCom fSub args s.

(** The empty-string rule for a string getter [get] that resolves the
    property [field]: when the three-step chain succeeds with the empty
    string the getter returns a NotFound error, and the getter never returns
    the empty string as a value. *)
Definition emptyStringRule
    (get : networkDeviceCommunicator → adapterFunc string)
    (field : availableCommunicatorFunctions → adapterFunc string) : Prop :=
  ∀ c args s,
    (∀ s', executeWithRecursion (field (classFunctions (deviceClass c)))
             (field <$> codeCommunicator c) (get <$> sub c) args s = (Ok "", s') →
           ∃ err, get c args s = (Err err, s') ∧ IsNotFoundError err = true)
    ∧ (get c args s).1 ≠ Ok "".

(** The communicators below [c] in its inheritance chain. *)
Fixpoint parents (c : networkDeviceCommunicator) : list networkDeviceCommunicator :=
  match sub c with
  | Some c' => c' :: parents c'
  | None => []
  end.

End chain.

Arguments availableCommunicatorFunctions : clear implicits.
Arguments deviceClassCommunicator : clear implicits.
Arguments networkDeviceCommunicator : clear implicits.

End communicator.

(** * Go's strings and strconv *)

Module strings.

(** [strings.Split(s, sep)] for a separator of one character, which is how
    both files call it (with "."). A string without the separator is its own
    single part; the empty string has the single part "". *)
Fixpoint Split (s : string) (sep : ascii) : list string :=
  match s with
  | EmptyString => [EmptyString]
  | String c rest =>
    if bool_decide (c = sep) then EmptyString :: Split rest sep
    else
      match Split rest sep with
      | part :: parts => String c part :: parts
      | [] => [String c EmptyString]
      end
  end.

Fixpoint stripPrefix (prefix s : string) : option string :=
  match prefix, s with
  | EmptyString, _ => Some s
  | String a prefix', String b s' =>
    if bool_decide (a = b) then stripPrefix prefix' s' else None
  | String _ _, EmptyString => None
  end.

(** [strings.TrimPrefix(s, prefix)]: [s] without the leading [prefix], or [s]
    itself when it does not start with it. *)
Definition TrimPrefix (s prefix : string) : string :=
  default s (stripPrefix prefix s).

(** [s] has no occurrence of the separator. *)
Fixpoint free (sep : ascii) (s : string) : bool :=
  match s with
  | EmptyString => true
  | String c rest => negb (bool_decide (c = sep)) && free sep rest
  end.

End strings.

Module strconv.
Import tholaerr.

Definition ErrSyntax (fn s : string) : error :=
  errors.New ("strconv." ++ fn ++ ": parsing " ++ s ++ ": invalid syntax").

Definition ErrRange (fn s : string) : error :=
  errors.New ("strconv." ++ fn ++ ": parsing " ++ s ++ ": value out of range").

Definition byte (c : ascii) : Z := Z.of_N (N_of_ascii c).

(** [lower(c)] of strconv: [c | ('x' - 'X')]. *)
Definition lower (c : ascii) : Z := Z.lor (byte c) 32.

(** The digit a byte stands for in [ParseUint]: '0'..'9', then letters. *)
Definition digit (c : ascii) : option Z :=
  if (48 <=? byte c)%Z && (byte c <=? 57)%Z then Some (byte c - 48)%Z
  else if (97 <=? lower c)%Z && (lower c <=? 122)%Z then Some (lower c - 97 + 10)%Z
  else None.

Fixpoint decimal (s : string) (n : Z) : option Z :=
  match s with
  | EmptyString => Some n
  | String c rest =>
    if (48 <=? byte c)%Z && (byte c <=? 57)%Z
    then decimal rest (n * 10 + (byte c - 48))%Z
    else None
  end.

(** [strconv.Atoi] where [int] has 64 bits: an optional sign, then one or
    more decimal digits and nothing else; a value that does not fit [int] is
    a range error. *)
Definition Atoi (s : string) : Result Z :=
  let '(neg, digits) :=
    match s with
    | String "-" rest => (true, rest)
    | String "+" rest => (false, rest)
    | _ => (false, s)
    end in
  match digits with
  | EmptyString => Err (ErrSyntax "Atoi" s)
  | _ =>
    match decimal digits 0 with
    | None => Err (ErrSyntax "Atoi" s)
    | Some n =>
      let v := (if neg then - n else n)%Z in
      if (- 2 ^ 63 <=? v)%Z && (v <? 2 ^ 63)%Z then Ok v
      else Err (ErrRange "Atoi" s)
    end
  end.

(** [underscoreOK]: underscores only between digits, or between the base
    prefix and a digit. [last] is the class of the previous character:
    "0" a digit or the base prefix, "_" an underscore, "!" anything else,
    "^" the start. *)
Fixpoint underscoreOK_loop (hex : bool) (last : ascii) (s : string) : bool :=
  match s with
  | EmptyString => negb (bool_decide (last = "_"%char))
  | String c rest =>
    if ((48 <=? byte c)%Z && (byte c <=? 57)%Z)
       || (hex && (97 <=? lower c)%Z && (lower c <=? 102)%Z)
    then underscoreOK_loop hex "0"%char rest
    else if bool_decide (c = "_"%char)
    then if bool_decide (last = "0"%char) then underscoreOK_loop hex "_"%char rest
         else false
    else if bool_decide (last = "_"%char) then false
    else underscoreOK_loop hex "!"%char rest
  end.

Definition underscoreOK (s : string) : bool :=
  let s :=
    match s with
    | String "-" rest => rest
    | String "+" rest => rest
    | _ => s
    end in
  match s with
  | String "0" (String c rest) =>
    if bool_decide (lower c = 98 ∨ lower c = 111 ∨ lower c = 120)%Z
    then underscoreOK_loop (bool_decide (lower c = 120)%Z) "0"%char rest
    else underscoreOK_loop false "^"%char s
  | _ => underscoreOK_loop false "^"%char s
  end.

(** The digit loop of [ParseUint(s, 0, 64)] in base [base]; [None] stands
    for the syntax error, which the caller builds from the whole input. *)
Fixpoint ParseUint_loop (base : Z) (s : string) (n : Z) (underscores : bool)
    : option (Result (Z * bool)) :=
  match s with
  | EmptyString => Some (Ok (n, underscores))
  | String c rest =>
    if bool_decide (c = "_"%char) then ParseUint_loop base rest n true
    else
      match digit c with
      | None => None
      | Some d =>
        if (base <=? d)%Z then None
        else if (2 ^ 64 <=? n * base + d)%Z then Some (Err (ErrRange "ParseUint" ""))
        else ParseUint_loop base rest (n * base + d)%Z underscores
      end
  end.

(** [strconv.ParseUint(s, 0, 64)]: base 0 takes the base from the prefix
    ("0b", "0o", "0x", or a leading "0" for octal, else decimal) and allows
    underscores where [underscoreOK] says so. *)
Definition ParseUint (s : string) : Result Z :=
  match s with
  | EmptyString => Err (ErrSyntax "ParseUint" s)
  | _ =>
    let '(base, digits) :=
      match s with
      | String "0" rest =>
        match rest with
        | String c (String _ _ as rest') =>
          if bool_decide (lower c = 98)%Z then (2, rest')
          else if bool_decide (lower c = 111)%Z then (8, rest')
          else if bool_decide (lower c = 120)%Z then (16, rest')
          else (8, rest)
        | _ => (8, rest)
        end
      | _ => (10, s)
      end%Z in
    match ParseUint_loop base digits 0 false with
    | None => Err (ErrSyntax "ParseUint" s)
    | Some (Err _) => Err (ErrRange "ParseUint" s)
    | Some (Ok (n, underscores)) =>
      if underscores && negb (underscoreOK s) then Err (ErrSyntax "ParseUint" s)
      else Ok n
    end
  end.

End strconv.

(** * Package network: the remote query client *)

Module network.

(** Modelled from the spec: package [network] is not among the sources.
    Section 6 of the specification gives the client: a walk of a subtree
    returns (path, raw value) pairs or fails; a response knows its object
    identity path and yields its value under a get-configuration, or fails. *)
Record SNMPGetConfiguration : Type := {
  OID : string;
  UseRawResult : bool;
}.

Record SNMPResponse : Type := {
  GetOID : string;
  GetValueBySNMPGetConfiguration : SNMPGetConfiguration → Result string;
}.

Record SNMPClient : Type := {
  SNMPWalk : string → Result (list SNMPResponse);
}.

(** [con.SNMP] is a pointer, [None] is [nil]. *)
Record RequestDeviceConnection : Type := {
  SNMP : option SNMPClient;
}.

(** What the two files read from a [context.Context]: the device connection,
    if the context carries one. *)
Record context : Type := {
  DeviceConnectionFromContext : option RequestDeviceConnection;
}.

(** [con, ok := network.DeviceConnectionFromContext(ctx)] followed by the
    test [!ok || con.SNMP == nil]: the client, when there is one. *)
Definition snmpClient (ctx : context) : option SNMPClient :=
  match DeviceConnectionFromContext ctx with
  | Some con => SNMP con
  | None => None
  end.

End network.

Module value.

(** Modelled from the spec: package [value] is not among the sources; a
    value wraps the string it was made from. *)
Definition Value : Type := string.

Definition New (s : string) : Value := s.

End value.

(** * The query-tree reader and the property-group decoder *)

Module reader.
Import tholaerr network.

(** A Go [interface{}] as the readers produce it: a normalized value at a
    leaf, or a [map[string]interface{}] of labelled values for a group. *)
Inductive any : Type :=
  | anyValue (v : value.Value)
  | anyMap (m : gmap string any).

Abbreviation propertyGroup := (gmap string any).

Abbreviation propertyGroups := (list (gmap string any)).

(** Modelled from the spec: type [propertyOperators] is not among the
    sources; its pipeline maps a raw value to a normalized value or fails. *)
Record propertyOperators : Type := {
  apply : context → value.Value → Result value.Value;
}.

(** [deviceClassOID] represents a single OID which can be read. *)
Record deviceClassOID : Type := {
  SNMPGetConfiguration_ : SNMPGetConfiguration;
  operators : propertyOperators;
}.

(** The two implementations of the interface [oidReader]: a pointer to a
    [deviceClassOID], or a pointer to a [deviceClassOIDs], which maps labels
    to readers. *)
Inductive oidReader : Type :=
  | oidLeaf (d : deviceClassOID)
  | oidGroup (d : gmap string oidReader).

Abbreviation deviceClassOIDs := (gmap string oidReader).

(** The last element of [strings.Split(...)], which is never empty. *)
Definition lastPart (oid : list string) : string := List.last oid "".

(** The loop of [deviceClassOID.readOID] over the walked responses. *)
Fixpoint readResponses (d : deviceClassOID) (ctx : context)
    (snmpResponse : list SNMPResponse) (result : gmap Z any)
    : Result (gmap Z any) :=
  match snmpResponse with
  | [] => Ok result
  | response :: rest =>
    match GetValueBySNMPGetConfiguration response (SNMPGetConfiguration_ d) with
    | Err err => Err (errors.Wrap err "couldn't get value from response response")
    | Ok res =>
      if bool_decide (res ≠ "") then
        match apply (operators d) ctx (value.New res) with
        | Err err =>
          Err (errors.Wrap err
                 ("response couldn't be normalized (oid: " ++ GetOID response
                  ++ ", response: " ++ res ++ ")"))
        | Ok resNormalized =>
          let oid := strings.Split (GetOID response) "." in
          match strconv.Atoi (lastPart oid) with
          | Err err => Err (errors.Wrap err "index isn't an integer")
          | Ok index =>
            readResponses d ctx rest (<[index := anyValue resNormalized]> result)
          end
        end
      else readResponses d ctx rest result
    end
  end.

Definition deviceClassOID_readOID (d : deviceClassOID) (ctx : context)
    : Result (gmap Z any) :=
  match snmpClient ctx with
  | None => Err (errors.New "snmp client is empty")
  | Some client =>
    match SNMPWalk client (OID (SNMPGetConfiguration_ d)) with
    | Err err =>
      if IsNotFoundError err then Err err
      else Err (errors.Wrap err "failed to get oid value")
    | Ok snmpResponse => readResponses d ctx snmpResponse ∅
    end
  end.

(** The inner loop of [deviceClassOIDs.readOID]: every value [v] that the
    reader of [label] returned at [ifIndex] goes to [result[ifIndex][label]],
    a new group being made where [ifIndex] was not known before. *)
Definition addLabel (label : string) (res : gmap Z any)
    (result : gmap Z (gmap string any)) : gmap Z (gmap string any) :=
  map_fold (λ ifIndex v result,
              <[ifIndex := <[label := v]> (default ∅ (result !! ifIndex))]> result)
           result res.

(** The outer loop of [deviceClassOIDs.readOID], over the labels in the order
    the [range] visits them, each with what its reader returned. *)
Fixpoint readLabels (readers : list (string * Result (gmap Z any)))
    (result : gmap Z (gmap string any)) : Result (gmap Z (gmap string any)) :=
  match readers with
  | [] => Ok result
  | (label, Err err) :: rest =>
    if IsNotFoundError err then readLabels rest result
    else Err (errors.Wrap err ("failed to get value '" ++ label ++ "'"))
  | (label, Ok res) :: rest => readLabels rest (addLabel label res result)
  end.

(** [readOID] of the interface [oidReader], dispatched on the implementation.
    A group reads its labels in the order of [map_to_list]; the lemmas on
    [readLabels] hold for every order. *)
Fixpoint readOID (reader : oidReader) (ctx : context) : Result (gmap Z any) :=
  match reader with
  | oidLeaf d => deviceClassOID_readOID d ctx
  | oidGroup d =>
    Result_map (fmap anyMap)
      (readLabels (map_to_list ((λ reader, readOID reader ctx) <$> d)) ∅)
  end.

Definition deviceClassOIDs_readOID (d : deviceClassOIDs) (ctx : context)
    : Result (gmap Z any) :=
  readOID (oidGroup d) ctx.

(** [merge] on the overwriting side [overwrite], which is a [deviceClassOIDs]
    (the leaf case is never reached: [merge] is called on maps only).
    [devClassOIDsNew] starts as the copy of the receiver. *)
Fixpoint mergeInto (d : deviceClassOIDs) (overwrite : oidReader) {struct overwrite}
    : deviceClassOIDs :=
  match overwrite with
  | oidLeaf _ => d
  | oidGroup overwrite =>
    map_fold (λ k v devClassOIDsNew,
                match devClassOIDsNew !! k, v with
                | Some (oidGroup oidsOld), oidGroup _ =>
                  <[k := oidGroup (mergeInto oidsOld v)]> devClassOIDsNew
                | _, _ => <[k := v]> devClassOIDsNew
                end)
             d overwrite
  end.

Definition merge (d overwrite : deviceClassOIDs) : deviceClassOIDs :=
  mergeInto d (oidGroup overwrite).

Record snmpGroupPropertyReader : Type := {
  oids : deviceClassOIDs;
}.

(** The inner loop of [getProperty]: the smallest of the indices that the
    [range] over [groups] visits; 0 when it visits none. *)
Definition smallestIndexOf (indices : list Z) : Z :=
  (foldl (λ '(smallestIndex, firstRun) index,
            let smallestIndex := if firstRun : bool then index else smallestIndex in
            (if (index <? smallestIndex)%Z then index else smallestIndex, false))
         (0%Z, true) indices).1.

(** The outer loop of [getProperty], [size] rounds: take the group at the
    smallest index, append it to [res], delete it from [groups]. *)
Fixpoint sortGroups (size : nat) (groups : gmap Z any) (res : propertyGroups)
    : Result propertyGroups :=
  match size with
  | O => Ok res
  | S size' =>
    let smallestIndex := smallestIndexOf (map_to_list groups).*1 in
    match groups !! smallestIndex with
    | Some (anyMap x) =>
      sortGroups size' (delete smallestIndex groups) (res ++ [x])%list
    | _ => Err (errors.New "oidReader returned unexpected data type")
    end
  end.

Definition getProperty (s : snmpGroupPropertyReader) (ctx : context)
    : Result propertyGroups :=
  match deviceClassOIDs_readOID (oids s) ctx with
  | Err err => Err (errors.Wrap err "failed to read oids")
  | Ok groups => sortGroups (size groups) groups []
  end.

(** The nesting depth of a tree of readers. *)
Fixpoint depth (reader : oidReader) : nat :=
  match reader with
  | oidLeaf _ => 0
  | oidGroup d => S (map_fold (λ _ reader acc, depth reader `max` acc) 0 d)
  end.

(** The merge rule of section 4.2 of the specification, for one label: what
    the merged tree has under a label, from what the base ([old]) and the
    overlay ([overwrite]) have under it. *)
Definition mergedAt (old overwrite : option oidReader) : option oidReader :=
  match old, overwrite with
  | Some (oidGroup oidsOld), Some (oidGroup oidsOverwrite) =>
    Some (oidGroup (merge oidsOld oidsOverwrite))
  | _, Some v => Some v
  | old, None => old
  end.

(** The row at index [i] as section 4.1 of the specification words it: the
    labels whose reader returned a value at [i], each with that value. *)
Definition rowAt (readers : gmap string (Result (gmap Z any))) (i : Z)
    : gmap string any :=
  omap (λ r, match r with Ok res => res !! i | Err _ => None end) readers.

(** A row that [readLabels] has begun ([old]) and the labels still to come
    ([row]): the labels to come are added, a row that gets none stays. *)
Definition extendRow (old : option (gmap string any)) (row : gmap string any)
    : option (gmap string any) :=
  if decide (row = ∅) then old else Some (row ∪ default ∅ old).

(** A walked response that the leaf reader skips: its value is empty. *)
Definition rowSkipped (d : deviceClassOID) (response : SNMPResponse) : Prop :=
  GetValueBySNMPGetConfiguration response (SNMPGetConfiguration_ d) = Ok "".

(** A walked response that the leaf reader takes in: its value is not empty,
    the operator pipeline normalizes it to [v], and the trailing component
    of its object identity path is the integer [index]. *)
Definition rowReads (d : deviceClassOID) (ctx : context) (response : SNMPResponse)
    (index : Z) (v : value.Value) : Prop :=
  ∃ res, GetValueBySNMPGetConfiguration response (SNMPGetConfiguration_ d) = Ok res
    ∧ res ≠ ""
    ∧ apply (operators d) ctx (value.New res) = Ok v
    ∧ strconv.Atoi (lastPart (strings.Split (GetOID response) ".")) = Ok index.

End reader.

(** * The merge on the heap *)

(** [merge] once more, with the maps where Go has them: a [deviceClassOIDs]
    is a mutable map object at an address, and a reader stored under a label
    is a leaf or the address of another map. [reader.merge] is the same
    function on the trees these objects stand for. *)
Module store.
Import reader.

Definition loc : Type := positive.

Inductive ref : Type :=
  | refLeaf (d : deviceClassOID)
  | refGroup (l : loc).

Abbreviation heap := (gmap loc (gmap string ref)).

(** [make(deviceClassOIDs)]: a new, empty map object. *)
Definition make (σ : heap) : heap * loc :=
  let l := fresh (dom σ) in (<[l := ∅]> σ, l).

(** [m[k] = v] on the map object at [l]. *)
Definition assign (l : loc) (k : string) (v : ref) (σ : heap) : heap :=
  alter (insert k v) l σ.

(** One round of the second loop of [merge], which runs out of fuel, or
    finds a dangling address, where the recursive call does. *)
Definition mergeStep (merge : heap → loc → loc → option (heap * loc))
    (devClassOIDsNew : loc) (k : string) (v : ref) (σ : heap) : option heap :=
  match (σ !! devClassOIDsNew) ≫= (λ m, m !! k), v with
  | Some (refGroup oidsOld), refGroup oidsOverwrite =>
    match merge σ oidsOld oidsOverwrite with
    | Some (σ', mergedOIDs) => Some (assign devClassOIDsNew k (refGroup mergedOIDs) σ')
    | None => None
    end
  | _, _ => Some (assign devClassOIDsNew k v σ)
  end.

(** [fuel] bounds the depth of the recursion, which follows addresses; a
    dangling address gives [None] as well. The two maps are read when the
    call starts: the loops write to the new map object only, so the maps
    they range over do not change under them. *)
Fixpoint merge (fuel : nat) (σ : heap) (d overwrite : loc) : option (heap * loc) :=
  match fuel with
  | O => None
  | S fuel =>
    match σ !! d, σ !! overwrite with
    | Some dMap, Some overwriteMap =>
      let '(σ, devClassOIDsNew) := make σ in
      let σ := map_fold (assign devClassOIDsNew) σ dMap in
      match map_fold (λ k v σ, σ ≫= mergeStep (merge fuel) devClassOIDsNew k v)
                     (Some σ) overwriteMap with
      | Some σ => Some (σ, devClassOIDsNew)
      | None => None
      end
    | _, _ => None
    end
  end.

(** The map object at [l] stands for the tree [t]: same labels, leaves equal,
    and every address under a label stands for the subtree under it. *)
Fixpoint represents (σ : heap) (t : oidReader) (v : ref) {struct t} : Prop :=
  match t, v with
  | oidLeaf d, refLeaf d' => d = d'
  | oidGroup tm, refGroup l =>
    ∃ m : gmap string ref, σ !! l = Some m ∧
      ∀ k, match ((λ t, represents σ t) <$> tm) !! k, m !! k with
           | Some P, Some v => P v
           | None, None => True
           | _, _ => False
           end
  | _, _ => False
  end.

(** What a label of a map object holds stands for what the label of a tree
    holds: both nothing, or a reader and what represents it. *)
Definition related (σ : heap) (t : option oidReader) (v : option ref) : Prop :=
  match t, v with
  | Some t, Some v => represents σ t v
  | None, None => True
  | _, _ => False
  end.

(** Every map object that [σ] has is in [σ'] with the same content. *)
Definition preserved (σ σ' : heap) : Prop :=
  ∀ l, l ∈ dom σ → σ' !! l = σ !! l.

(** The second loop of [merge], begun on the sub-map [m] of the overwriting
    map: on the footprint [hy], which the new map object is not part of, the
    new map object holds under every label what the merge rule says, for
    the labels of [m] done so far. *)
Definition loopInvariant (σ h : heap) (new : loc) (td to : deviceClassOIDs)
    (acc : option heap) (m : gmap string ref) : Prop :=
  ∃ (σy hy : heap) (newMap : gmap string ref),
    acc = Some σy
    ∧ h ⊆ hy ∧ hy ⊆ σy
    ∧ (new ∉ dom hy)
    ∧ dom hy ⊆ dom h ∪ (dom σy ∖ dom σ)
    ∧ dom σ ⊆ dom σy
    ∧ σy !! new = Some newMap
    ∧ ∀ k, related hy (mergedAt (td !! k) ((m !! k) ≫= λ _, to !! k)) (newMap !! k).

End store.

(** * The post-processing of the Nokia SAS-T interfaces *)

Module timos_sas.
Import tholaerr device network.

(** What a Go function call does: it returns, or it panics. *)
Inductive outcome (A : Type) : Type :=
  | Returns (r : Result A)
  | Panics (msg : string).
Arguments Returns {A} r.
Arguments Panics {A} msg.

Definition sapDescriptionsOID : string := ".1.3.6.1.4.1.6527.3.1.2.4.3.2.1.5".

Definition inboundOID : string := ".1.3.6.1.4.1.6527.6.2.2.2.8.1.1.1.4.".

Definition outboundOID : string := ".1.3.6.1.4.1.6527.6.2.2.2.8.1.1.1.6.".

(** The loop of [getInterfaceBySubIndex], [index] being the position reached.
    [*iface.IfIndex] panics on a [nil] pointer. *)
Fixpoint getInterfaceBySubIndex_from (index : nat) (subIndex : Z)
    (interfaces : list Interface) : outcome nat :=
  match interfaces with
  | [] => Returns (Err (errors.New "no interface with given index found"))
  | iface :: rest =>
    match IfIndex iface with
    | None => Panics "invalid memory address or nil pointer dereference"
    | Some ifIndex =>
      if (ifIndex =? subIndex)%Z then Returns (Ok index)
      else getInterfaceBySubIndex_from (S index) subIndex rest
    end
  end.

Definition getInterfaceBySubIndex (subIndex : Z) (interfaces : list Interface)
    : outcome nat :=
  getInterfaceBySubIndex_from 0 subIndex interfaces.

Section sap.

(** [getCounterFromSnmpGet] is not among the sources: a single-value lookup
    at an exact path, which gives a counter or fails. *)
Variable getCounterFromSnmpGet : context → string → Result Z.

(** [c.sub.GetInterfaces], the interface listing of the parent, which a
    [timosSASCommunicator] always has. *)
Record timosSASCommunicator : Type := {
  sub_GetInterfaces : context → Result (list Interface);
}.

Definition sapSuffix (response : SNMPResponse) : list string :=
  strings.Split (strings.TrimPrefix (GetOID response) sapDescriptionsOID) ".".

(** The body of the loop of [GetInterfaces] for one walked response. *)
Definition sapRow (ctx : context) (response : SNMPResponse)
    (interfaces : list Interface) : outcome (list Interface) :=
  let suffix := sapSuffix response in
  match suffix !! 2%nat with
  | None => Panics "index out of range [2]"
  | Some physIndex =>
    match suffix !! 3%nat with
    | None => Panics "index out of range [3]"
    | Some subID =>
      match strconv.ParseUint (physIndex ++ subID) with
      | Err err => Returns (Err (errors.Wrap err "couldn't get index from strings"))
      | Ok subIndex =>
        match getInterfaceBySubIndex subIndex interfaces with
        | Panics msg => Panics msg
        | Returns (Err err) =>
          Returns (Err (errors.Wrap err "couldn't get interface from index"))
        | Returns (Ok i) =>
          let path := default "" (suffix !! 1%nat) ++ "." ++ physIndex ++ "." ++ subID in
          match getCounterFromSnmpGet ctx (inboundOID ++ path) with
          | Err err =>
            Returns (Err (errors.Wrap err "failed to retrieve inbound counter"))
          | Ok inbound =>
            match getCounterFromSnmpGet ctx (outboundOID ++ path) with
            | Err err =>
              Returns (Err (errors.Wrap err "failed to retrieve outbound counter"))
            | Ok outbound =>
              Returns (Ok (alter (λ interf,
                        setSAP interf (Some {| Inbound := Some inbound;
                                               Outbound := Some outbound |}))
                      i interfaces))
            end
          end
        end
      end
    end
  end.

Fixpoint sapRows (ctx : context) (sapDescriptions : list SNMPResponse)
    (interfaces : list Interface) : outcome (list Interface) :=
  match sapDescriptions with
  | [] => Returns (Ok interfaces)
  | response :: rest =>
    match sapRow ctx response interfaces with
    | Returns (Ok interfaces) => sapRows ctx rest interfaces
    | stop => stop
    end
  end.

(** [GetInterfaces] returns the interfaces of a Nokia SAS-T device. *)
Definition GetInterfaces (c : timosSASCommunicator) (ctx : context)
    : outcome (list Interface) :=
  match sub_GetInterfaces c ctx with
  | Err err => Returns (Err err)
  | Ok interfaces =>
    match snmpClient ctx with
    | None => Returns (Err (errors.New "no device connection available"))
    | Some client =>
      match SNMPWalk client sapDescriptionsOID with
      | Err err => Returns (Err (errors.Wrap err "snmpwalk failed"))
      | Ok sapDescriptions => sapRows ctx sapDescriptions interfaces
      end
    end
  end.

(** The two trailing segments of an object identity path. *)
Definition trailingTwo (oid : string) : option (string * string) :=
  match reverse (strings.Split oid ".") with
  | subID :: physIndex :: _ => Some (physIndex, subID)
  | _ => None
  end.

(** A row of the secondary table: its path is the table's path followed by
    the three segments that identify the row. *)
Definition wellFormedRow (response : SNMPResponse) : Prop :=
  ∃ svc physIndex subID,
    GetOID response
    = sapDescriptionsOID ++ "." ++ svc ++ "." ++ physIndex ++ "." ++ subID
    ∧ strings.free "." svc = true
    ∧ strings.free "." physIndex = true
    ∧ strings.free "." subID = true.

(** The row [response] correlates with the interface at position [i] of
    [interfaces], to which it brings the counters [sap]: the sub-index
    parsed from its two trailing segments, put together, is the [IfIndex] of
    that interface, the first with that index, and both counter lookups
    succeed. *)
Definition rowCorrelates (ctx : context) (interfaces : list Interface)
    (response : SNMPResponse) (i : nat) (sap : SAPInterface) : Prop :=
  ∃ svc physIndex subID subIndex inbound outbound,
    sapSuffix response = [""; svc; physIndex; subID]
    ∧ trailingTwo (GetOID response) = Some (physIndex, subID)
    ∧ strconv.ParseUint (physIndex ++ subID) = Ok subIndex
    ∧ getInterfaceBySubIndex subIndex interfaces = Returns (Ok i)
    ∧ getCounterFromSnmpGet ctx
        (inboundOID ++ svc ++ "." ++ physIndex ++ "." ++ subID) = Ok inbound
    ∧ getCounterFromSnmpGet ctx
        (outboundOID ++ svc ++ "." ++ physIndex ++ "." ++ subID) = Ok outbound
    ∧ sap = {| Inbound := Some inbound; Outbound := Some outbound |}.

(** What the loop leaves at position [i], which some row correlates with:
    the interface that was there, with the counters of a row that correlates
    with it. *)
Definition attachedAt (ctx : context) (rows : list SNMPResponse) (interfaces res : list Interface)
    (i : nat) : Prop :=
  ∃ interf response sap,
    interfaces !! i = Some interf
    ∧ response ∈ rows
    ∧ rowCorrelates ctx interfaces response i sap
    ∧ res !! i = Some (setSAP interf (Some sap)).

End sap.

End timos_sas.

(** * Instances used in the examples *)

Module examples.
Import tholaerr device network communicator reader.

(** ** Resolution steps that log *)

(** A resolution step that returns [r] and writes its name to the log, the
    state being the log of the steps that ran. *)
Definition logged {V} (name : string) (r : Result V)
    : adapterFunc (St := list string) (Args := unit) V :=
  λ _ log, (r, (log ++ [name])%list).

Definition notFound : error := NewNotFoundError "no value on the device".

Definition notImplemented : error := NewNotImplementedError "not defined here".

Definition timeout : error := errors.New "request timeout".

(** ** A chain of two device classes *)

(** An interface that reports the 32-bit sentinel as its speed and has a
    high-capacity counter of 10. *)
Definition fastInterface : Interface :=
  {| IfIndex := Some 1%Z; IfDescr := Some "xe-0/0/0"; IfSpeed := Some MaxUint32;
     IfHighSpeed := Some 10%Z; SAP := None |}.

Definition slowInterface : Interface :=
  {| IfIndex := Some 2%Z; IfDescr := Some "fe-0/0/1"; IfSpeed := Some 100000000%Z;
     IfHighSpeed := Some 100%Z; SAP := None |}.

(** A class that defines nothing but, perhaps, the interface listing. *)
Definition classOf (name : string) (interfaces : Result (list Interface))
    : deviceClassCommunicator (list string) unit :=
  {| getName := name;
     hasAvailableComponent := λ _, true;
     classFunctions :=
       {| getVendor := logged (name ++ ".vendor") (Err notImplemented);
          getModel := logged (name ++ ".model") (Err notImplemented);
          getModelSeries := logged (name ++ ".modelSeries") (Err notImplemented);
          getSerialNumber := logged (name ++ ".serialNumber") (Err notImplemented);
          getOSVersion := logged (name ++ ".osVersion") (Err notImplemented);
          getInterfaces := logged (name ++ ".interfaces") interfaces |} |}.

(** The parent class "generic" lists the interfaces; the head class "ios"
    inherits the listing. *)
Definition genericCommunicator : networkDeviceCommunicator (list string) unit :=
  NetworkDeviceCommunicator "ios" None None
    (classOf "generic" (Ok [fastInterface; slowInterface])).

Definition iosCommunicator : networkDeviceCommunicator (list string) unit :=
  NetworkDeviceCommunicator "ios" (Some genericCommunicator) None
    (classOf "ios" (Err notImplemented)).

(** ** A device to read from *)

Definition response (oid value : string) : SNMPResponse :=
  {| GetOID := oid; GetValueBySNMPGetConfiguration := λ _, Ok value |}.

(** The column X has values at the indices 1 and 2, the column Y at 2 only,
    the column Z has a row with an empty value and a trailing path component
    that is no integer, the walk of one column times out, and every other
    walk finds nothing. *)
Definition walk (oid : string) : Result (list SNMPResponse) :=
  if bool_decide (oid = ".1.3.6.1.2.1.2.2.1.2")
  then Ok [response ".1.3.6.1.2.1.2.2.1.2.2" "eth1";
           response ".1.3.6.1.2.1.2.2.1.2.1" "eth0"]
  else if bool_decide (oid = ".1.3.6.1.2.1.31.1.1.1.18")
  then Ok [response ".1.3.6.1.2.1.31.1.1.1.18.2" "uplink"]
  else if bool_decide (oid = ".1.3.6.1.4.1.9.9.9")
  then Ok [response ".1.3.6.1.4.1.9.9.9.first" ""]
  else if bool_decide (oid = ".1.3.6.1.2.1.99.1.1.4")
  then Err timeout
  else Err (NewNotFoundError "no such object").

Definition client : SNMPClient := {| SNMPWalk := walk |}.

Definition ctx : context :=
  {| DeviceConnectionFromContext := Some {| SNMP := Some client |} |}.

(** A leaf whose operator pipeline leaves the value as it is. *)
Definition leaf (oid : string) : deviceClassOID :=
  {| SNMPGetConfiguration_ := {| OID := oid; UseRawResult := false |};
     operators := {| apply := λ _ v, Ok v |} |}.

Definition columnX : deviceClassOID := leaf ".1.3.6.1.2.1.2.2.1.2".

Definition columnY : deviceClassOID := leaf ".1.3.6.1.2.1.31.1.1.1.18".

Definition columnZ : deviceClassOID := leaf ".1.3.6.1.4.1.9.9.9".

Definition absentColumn : deviceClassOID := leaf ".1.3.6.1.2.1.2.2.1.5".

Definition groupXY : deviceClassOIDs :=
  <["X" := oidLeaf columnX]> (<["Y" := oidLeaf columnY]>
    (<["speed" := oidLeaf absentColumn]> ∅)).

Definition groupTimeout : deviceClassOIDs :=
  <["temperature" := oidLeaf (leaf ".1.3.6.1.2.1.99.1.1.4")]> groupXY.

Definition row (label value : string) : gmap string any :=
  {[ label := anyValue value ]}.

(** Rows that come with the indices 5, 1 and 3. *)
Definition rows513 : gmap Z (gmap string any) :=
  <[5%Z := row "ifDescr" "five"]> (<[1%Z := row "ifDescr" "one"]>
    (<[3%Z := row "ifDescr" "three"]> ∅)).

(** ** Two trees on a heap *)

Definition baseTree : deviceClassOIDs := {[ "sysDescr" := oidLeaf columnX ]}.

Definition overlayTree : deviceClassOIDs := {[ "sysDescr" := oidLeaf columnY ]}.

Definition twoTrees : store.heap :=
  <[1%positive := {[ "sysDescr" := store.refLeaf columnX ]}]>
    (<[2%positive := {[ "sysDescr" := store.refLeaf columnY ]}]> ∅).

(** ** A Nokia SAS-T device *)

(** The secondary table has one row, whose path ends in [.7.3]. *)
Definition sapWalk (oid : string) : Result (list SNMPResponse) :=
  if bool_decide (oid = timos_sas.sapDescriptionsOID)
  then Ok [response (timos_sas.sapDescriptionsOID ++ ".100.7.3") "customer"]
  else Err (NewNotFoundError "no such object").

Definition sapCtx : context :=
  {| DeviceConnectionFromContext := Some {| SNMP := Some {| SNMPWalk := sapWalk |} |} |}.

Definition counters (ctx : context) (oid : string) : Result Z :=
  if bool_decide (oid = timos_sas.inboundOID ++ "100.7.3") then Ok 11%Z
  else if bool_decide (oid = timos_sas.outboundOID ++ "100.7.3") then Ok 22%Z
  else Err (NewNotFoundError "no such instance").

Definition sapInterface : Interface :=
  {| IfIndex := Some 73%Z; IfDescr := Some "1/1/7:3"; IfSpeed := None;
     IfHighSpeed := None; SAP := None |}.

Definition sasWith (interfaces : list Interface) : timos_sas.timosSASCommunicator :=
  {| timos_sas.sub_GetInterfaces := λ _, Ok interfaces |}.

End examples.

(** * The component properties and the aggregators *)

Module components.
Import tholaerr device communicator.

#[global] Instance component_eq_dec : EqDecision component.
Proof. solve_decision. Defined.

Definition componentIndex (k : component) : nat :=
  match k with
  | interfacesComponent => 0
  | upsComponent => 1
  | cpuComponent => 2
  | memoryComponent => 3
  | sbcComponent => 4
  | serverComponent => 5
  | diskComponent => 6
  | hardwareHealthComponent => 7
  end.

Definition componentOfIndex (n : nat) : option component :=
  match n with
  | 0 => Some interfacesComponent
  | 1 => Some upsComponent
  | 2 => Some cpuComponent
  | 3 => Some memoryComponent
  | 4 => Some sbcComponent
  | 5 => Some serverComponent
  | 6 => Some diskComponent
  | 7 => Some hardwareHealthComponent
  | _ => None
  end.

#[global] Instance component_countable : Countable component.
Proof. apply (inj_countable componentIndex componentOfIndex). by intros []. Defined.

(** The loop of [GetAvailableComponents] over the flags in the order the
    [range] visits them: the name of every component whose flag is set and
    whose [toString] succeeds. [toString] is not among the sources. *)
Fixpoint availableNames (toString : component → Result string)
    (components : list (component * bool)) (res : list string) : list string :=
  match components with
  | [] => res
  | (k, v) :: rest =>
    if v then
      match toString k with
      | Err _ => availableNames toString rest res
      | Ok name => availableNames toString rest (res ++ [name])%list
      end
    else availableNames toString rest res
  end.

(** [components] is what [c.deviceClassCommunicator.getAvailableComponents()]
    returns, a [map[deviceClassComponent]bool]. *)
Definition GetAvailableComponents (toString : component → Result string)
    (components : gmap component bool) : list string :=
  availableNames toString (map_to_list components) [].

(** A Go slice: [None] is the [nil] slice. *)
Definition slice (A : Type) : Type := option (list A).

(** Modelled from the spec: [device.Properties] and [device.Device] are not
    among the sources; these are the fields that [GetIdentifyProperties]
    sets, each a pointer. *)
Record Properties : Type := {
  Vendor : option string;
  Model : option string;
  ModelSeries : option string;
  SerialNumber : option string;
  OSVersion : option string;
}.

Record Device : Type := {
  Class : string;
  DeviceProperties : Properties;
}.

Definition noProperties : Properties :=
  {| Vendor := None; Model := None; ModelSeries := None; SerialNumber := None;
     OSVersion := None |}.

Section components.

Context {St Args : Type}.

(** The types of package [device] that the component getters hand through
    without looking inside. *)
Context {float64 DiskComponentStorage HardwareHealthComponentFan
         HardwareHealthComponentPowerSupply SBCComponentAgent SBCComponentRealm : Type}.

(** Modelled from the spec: the component records of package [device] are
    not among the sources; these are the fields the aggregators set. *)
Record CPUComponent : Type := {
  Load : slice float64;
  Temperature : slice float64;
}.

Record UPSComponent : Type := {
  AlarmLowVoltageDisconnect : option Z;
  BatteryAmperage : option float64;
  BatteryCapacity : option float64;
  BatteryCurrent : option float64;
  BatteryRemainingTime : option float64;
  BatteryTemperature : option float64;
  BatteryVoltage : option float64;
  CurrentLoad : option float64;
  MainsVoltageApplied : option bool;
  RectifierCurrent : option float64;
  SystemVoltage : option float64;
}.

Record SBCComponent : Type := {
  Agents : slice SBCComponentAgent;
  Realms : slice SBCComponentRealm;
  GlobalCallPerSecond : option Z;
  GlobalConcurrentSessions : option Z;
  ActiveLocalContacts : option Z;
  TranscodingCapacity : option Z;
  LicenseCapacity : option Z;
  SystemRedundancy : option Z;
  SystemHealthScore : option Z;
}.

Record ServerComponent : Type := {
  Procs : option Z;
  Users : option Z;
}.

Record DiskComponent : Type := {
  Storages : slice DiskComponentStorage;
}.

Record HardwareHealthComponent : Type := {
  EnvironmentMonitorState : option Z;
  Fans : slice HardwareHealthComponentFan;
  PowerSupply : slice HardwareHealthComponentPowerSupply;
}.

(** The functions of [availableCommunicatorFunctions] for the interface
    table and for the cpu, memory, server, disk, ups, sbc and hardware health
    components, behind their [communicatorAdapter]. *)
Record availableComponentFunctions : Type := {
  getIfTable : adapterFunc (St := St) (Args := Args) (list Interface);
  getCountInterfaces : adapterFunc (St := St) (Args := Args) Z;
  getCPULoad : adapterFunc (St := St) (Args := Args) (slice float64);
  getCPUTemperature : adapterFunc (St := St) (Args := Args) (slice float64);
  getMemoryUsage : adapterFunc (St := St) (Args := Args) float64;
  getServerProcs : adapterFunc (St := St) (Args := Args) Z;
  getServerUsers : adapterFunc (St := St) (Args := Args) Z;
  getDiskComponentStorages :
    adapterFunc (St := St) (Args := Args) (slice DiskComponentStorage);
  getUPSComponentAlarmLowVoltageDisconnect : adapterFunc (St := St) (Args := Args) Z;
  getUPSComponentBatteryAmperage : adapterFunc (St := St) (Args := Args) float64;
  getUPSComponentBatteryCapacity : adapterFunc (St := St) (Args := Args) float64;
  getUPSComponentBatteryCurrent : adapterFunc (St := St) (Args := Args) float64;
  getUPSComponentBatteryRemainingTime : adapterFunc (St := St) (Args := Args) float64;
  getUPSComponentBatteryTemperature : adapterFunc (St := St) (Args := Args) float64;
  getUPSComponentBatteryVoltage : adapterFunc (St := St) (Args := Args) float64;
  getUPSComponentCurrentLoad : adapterFunc (St := St) (Args := Args) float64;
  getUPSComponentMainsVoltageApplied : adapterFunc (St := St) (Args := Args) bool;
  getUPSComponentRectifierCurrent : adapterFunc (St := St) (Args := Args) float64;
  getUPSComponentSystemVoltage : adapterFunc (St := St) (Args := Args) float64;
  getSBCComponentAgents : adapterFunc (St := St) (Args := Args) (slice SBCComponentAgent);
  getSBCComponentRealms : adapterFunc (St := St) (Args := Args) (slice SBCComponentRealm);
  getSBCComponentGlobalCallPerSecond : adapterFunc (St := St) (Args := Args) Z;
  getSBCComponentGlobalConcurrentSessions : adapterFunc (St := St) (Args := Args) Z;
  getSBCComponentActiveLocalContacts : adapterFunc (St := St) (Args := Args) Z;
  getSBCComponentTranscodingCapacity : adapterFunc (St := St) (Args := Args) Z;
  getSBCComponentLicenseCapacity : adapterFunc (St := St) (Args := Args) Z;
  getSBCComponentSystemRedundancy : adapterFunc (St := St) (Args := Args) Z;
  getSBCComponentSystemHealthScore : adapterFunc (St := St) (Args := Args) Z;
  getHardwareHealthComponentEnvironmentMonitorState :
    adapterFunc (St := St) (Args := Args) Z;
  getHardwareHealthComponentFans :
    adapterFunc (St := St) (Args := Args) (slice HardwareHealthComponentFan);
  getHardwareHealthComponentPowerSupply :
    adapterFunc (St := St) (Args := Args) (slice HardwareHealthComponentPowerSupply);
}.

(** A [networkDeviceCommunicator] with these functions beside those of the
    identification properties: [communicator] is the communicator as the
    sections above have it, [classComponents] and [codeComponents] are the
    functions of its [deviceClassCommunicator] and of its [codeCommunicator]
    (both or neither of the two [option]s of the code communicator are
    there), and [subComponents] is its [sub] once more. *)
Inductive componentCommunicator : Type :=
  ComponentCommunicator {
    communicator : networkDeviceCommunicator St Args;
    classComponents : availableComponentFunctions;
    codeComponents : option availableComponentFunctions;
    subComponents : option componentCommunicator;
  }.

Definition hasComponent (c : componentCommunicator) (k : component) : bool :=
  hasAvailableComponent (deviceClass (communicator c)) k.

(** The body that the getters share: the gate of the getter, if it has one,
    then [executeWithRecursion] on the function [field] of the class, of the
    code communicator and of the parent. *)
Fixpoint chainGetter {V} (gate : componentCommunicator → bool) (msg : string)
    (field : availableComponentFunctions → adapterFunc V)
    (c : componentCommunicator) : adapterFunc (St := St) (Args := Args) V :=
  λ args s,
  if gate c then (Err (NewComponentNotFoundError msg), s)
  else
    let fClass := field (classComponents c) in
    let fCom := field <$> codeComponents c in
    let fSub :=
      match subComponents c with
      | Some c' => Some (chainGetter gate msg field c')
      | None => None
      end in
    executeWithRecursion fClass fCom fSub args s.

Definition noGate (c : componentCommunicator) : bool := false.

(** [c.isHead() && !c.deviceClassCommunicator.hasAvailableComponent(k)] *)
Definition headGate (k : component) (c : componentCommunicator) : bool :=
  isHead (communicator c) && negb (hasComponent c k).

(** [!c.deviceClassCommunicator.hasAvailableComponent(k)] *)
Definition classGate (k : component) (c : componentCommunicator) : bool :=
  negb (hasComponent c k).

Definition GetIfTable : componentCommunicator → adapterFunc (list Interface) :=
  chainGetter (headGate interfacesComponent)
    "no interfaces component available for this device" getIfTable.

Definition GetCountInterfaces : componentCommunicator → adapterFunc Z :=
  chainGetter noGate "" getCountInterfaces.

Definition GetCPUComponentCPULoad : componentCommunicator → adapterFunc (slice float64) :=
  chainGetter (classGate cpuComponent)
    "no cpu component available for this device" getCPULoad.

Definition GetCPUComponentCPUTemperature
    : componentCommunicator → adapterFunc (slice float64) :=
  chainGetter (classGate cpuComponent)
    "no cpu component available for this device" getCPUTemperature.

Definition GetMemoryComponentMemoryUsage : componentCommunicator → adapterFunc float64 :=
  chainGetter (headGate memoryComponent)
    "no memory component available for this device" getMemoryUsage.

Definition GetServerComponentProcs : componentCommunicator → adapterFunc Z :=
  chainGetter (classGate serverComponent)
    "no server component available for this device" getServerProcs.

Definition GetServerComponentUsers : componentCommunicator → adapterFunc Z :=
  chainGetter (classGate serverComponent)
    "no server component available for this device" getServerUsers.

Definition GetDiskComponentStorages
    : componentCommunicator → adapterFunc (slice DiskComponentStorage) :=
  chainGetter noGate "" getDiskComponentStorages.

Definition GetUPSComponentAlarmLowVoltageDisconnect
    : componentCommunicator → adapterFunc Z :=
  chainGetter noGate "" getUPSComponentAlarmLowVoltageDisconnect.

Definition GetUPSComponentBatteryAmperage : componentCommunicator → adapterFunc float64 :=
  chainGetter noGate "" getUPSComponentBatteryAmperage.

Definition GetUPSComponentBatteryCapacity : componentCommunicator → adapterFunc float64 :=
  chainGetter noGate "" getUPSComponentBatteryCapacity.

Definition GetUPSComponentBatteryCurrent : componentCommunicator → adapterFunc float64 :=
  chainGetter noGate "" getUPSComponentBatteryCurrent.

Definition GetUPSComponentBatteryRemainingTime
    : componentCommunicator → adapterFunc float64 :=
  chainGetter noGate "" getUPSComponentBatteryRemainingTime.

Definition GetUPSComponentBatteryTemperature
    : componentCommunicator → adapterFunc float64 :=
  chainGetter noGate "" getUPSComponentBatteryTemperature.

Definition GetUPSComponentBatteryVoltage : componentCommunicator → adapterFunc float64 :=
  chainGetter noGate "" getUPSComponentBatteryVoltage.

Definition GetUPSComponentCurrentLoad : componentCommunicator → adapterFunc float64 :=
  chainGetter noGate "" getUPSComponentCurrentLoad.

Definition GetUPSComponentMainsVoltageApplied : componentCommunicator → adapterFunc bool :=
  chainGetter noGate "" getUPSComponentMainsVoltageApplied.

Definition GetUPSComponentRectifierCurrent : componentCommunicator → adapterFunc float64 :=
  chainGetter noGate "" getUPSComponentRectifierCurrent.

Definition GetUPSComponentSystemVoltage : componentCommunicator → adapterFunc float64 :=
  chainGetter noGate "" getUPSComponentSystemVoltage.

Definition GetSBCComponentAgents
    : componentCommunicator → adapterFunc (slice SBCComponentAgent) :=
  chainGetter noGate "" getSBCComponentAgents.

Definition GetSBCComponentRealms
    : componentCommunicator → adapterFunc (slice SBCComponentRealm) :=
  chainGetter noGate "" getSBCComponentRealms.

Definition GetSBCComponentGlobalCallPerSecond : componentCommunicator → adapterFunc Z :=
  chainGetter noGate "" getSBCComponentGlobalCallPerSecond.

Definition GetSBCComponentGlobalConcurrentSessions
    : componentCommunicator → adapterFunc Z :=
  chainGetter noGate "" getSBCComponentGlobalConcurrentSessions.

Definition GetSBCComponentActiveLocalContacts : componentCommunicator → adapterFunc Z :=
  chainGetter noGate "" getSBCComponentActiveLocalContacts.

Definition GetSBCComponentTranscodingCapacity : componentCommunicator → adapterFunc Z :=
  chainGetter noGate "" getSBCComponentTranscodingCapacity.

Definition GetSBCComponentLicenseCapacity : componentCommunicator → adapterFunc Z :=
  chainGetter noGate "" getSBCComponentLicenseCapacity.

Definition GetSBCComponentSystemRedundancy : componentCommunicator → adapterFunc Z :=
  chainGetter noGate "" getSBCComponentSystemRedundancy.

Definition GetSBCComponentSystemHealthScore : componentCommunicator → adapterFunc Z :=
  chainGetter noGate "" getSBCComponentSystemHealthScore.

Definition GetHardwareHealthComponentEnvironmentMonitorState
    : componentCommunicator → adapterFunc Z :=
  chainGetter noGate "" getHardwareHealthComponentEnvironmentMonitorState.

Definition GetHardwareHealthComponentFans
    : componentCommunicator → adapterFunc (slice HardwareHealthComponentFan) :=
  chainGetter noGate "" getHardwareHealthComponentFans.

Definition GetHardwareHealthComponentPowerSupply
    : componentCommunicator → adapterFunc (slice HardwareHealthComponentPowerSupply) :=
  chainGetter noGate "" getHardwareHealthComponentPowerSupply.

(** The block that the aggregators repeat for every field: an error of the
    getter that is neither NotFound nor NotImplemented ends the aggregation,
    wrapped in [msg]; any other error leaves the field unset; a value is
    stored by [set] and [empty] becomes [false]. [next] is the rest of the
    function. *)
Definition field {A C} (got : Result A * St) (msg : string) (set : A → C → C)
    (acc : C * bool) (next : C * bool → St → Result C * St) : Result C * St :=
  match got with
  | (Err err, s) =>
    if negb (IsNotFoundError err) && negb (IsNotImplementedError err)
    then (Err (errors.Wrap err msg), s)
    else next acc s
  | (Ok value, s) => next (set value acc.1, false) s
  end.

(** The end of an aggregator. *)
Definition unlessEmpty {C} (msg : string) (acc : C * bool) (s : St) : Result C * St :=
  if acc.2 then (Err (NewNotFoundError msg), s) else (Ok acc.1, s).

(** [head] is [c.head], the communicator at the head of the chain of [c]. *)
Definition GetCPUComponent (head c : componentCommunicator)
    : adapterFunc (St := St) (Args := Args) CPUComponent :=
  λ args s,
  if negb (hasComponent c cpuComponent)
  then (Err (NewComponentNotFoundError "no cpu component available for this device"), s)
  else
    field (GetCPUComponentCPULoad head args s) "error occurred during get cpu load"
      (λ cpuLoad cpu, {| Load := cpuLoad; Temperature := Temperature cpu |})
      ({| Load := None; Temperature := None |}, true)
      (λ acc s,
    field (GetCPUComponentCPUTemperature head args s)
      "error occurred during get cpu temperature"
      (λ cpuTemp cpu, {| Load := Load cpu; Temperature := cpuTemp |})
      acc (unlessEmpty "no cpu data available")).

Definition GetUPSComponent (head c : componentCommunicator)
    : adapterFunc (St := St) (Args := Args) UPSComponent :=
  λ args s,
  if negb (hasComponent c upsComponent)
  then (Err (NewComponentNotFoundError "no ups component available for this device"), s)
  else
    field (GetUPSComponentAlarmLowVoltageDisconnect head args s)
      "error occurred during get alarm"
      (λ alarmLowVoltage ups,
         {| AlarmLowVoltageDisconnect := Some alarmLowVoltage;
            BatteryAmperage := BatteryAmperage ups; BatteryCapacity := BatteryCapacity ups;
            BatteryCurrent := BatteryCurrent ups;
            BatteryRemainingTime := BatteryRemainingTime ups;
            BatteryTemperature := BatteryTemperature ups;
            BatteryVoltage := BatteryVoltage ups; CurrentLoad := CurrentLoad ups;
            MainsVoltageApplied := MainsVoltageApplied ups;
            RectifierCurrent := RectifierCurrent ups; SystemVoltage := SystemVoltage ups |})
      ({| AlarmLowVoltageDisconnect := None; BatteryAmperage := None;
          BatteryCapacity := None; BatteryCurrent := None; BatteryRemainingTime := None;
          BatteryTemperature := None; BatteryVoltage := None; CurrentLoad := None;
          MainsVoltageApplied := None; RectifierCurrent := None; SystemVoltage := None |}, true)
      (λ acc s,
    field (GetUPSComponentBatteryAmperage head args s)
      "error occurred during get battery amperage"
      (λ batteryAmperage ups,
         {| AlarmLowVoltageDisconnect := AlarmLowVoltageDisconnect ups;
            BatteryAmperage := Some batteryAmperage;
            BatteryCapacity := BatteryCapacity ups; BatteryCurrent := BatteryCurrent ups;
            BatteryRemainingTime := BatteryRemainingTime ups;
            BatteryTemperature := BatteryTemperature ups;
            BatteryVoltage := BatteryVoltage ups; CurrentLoad := CurrentLoad ups;
            MainsVoltageApplied := MainsVoltageApplied ups;
            RectifierCurrent := RectifierCurrent ups; SystemVoltage := SystemVoltage ups |})
      acc (λ acc s,
    field (GetUPSComponentBatteryCapacity head args s)
      "error occurred during get battery capacity"
      (λ batteryCapacity ups,
         {| AlarmLowVoltageDisconnect := AlarmLowVoltageDisconnect ups;
            BatteryAmperage := BatteryAmperage ups;
            BatteryCapacity := Some batteryCapacity; BatteryCurrent := BatteryCurrent ups;
            BatteryRemainingTime := BatteryRemainingTime ups;
            BatteryTemperature := BatteryTemperature ups;
            BatteryVoltage := BatteryVoltage ups; CurrentLoad := CurrentLoad ups;
            MainsVoltageApplied := MainsVoltageApplied ups;
            RectifierCurrent := RectifierCurrent ups; SystemVoltage := SystemVoltage ups |})
      acc (λ acc s,
    field (GetUPSComponentBatteryCurrent head args s)
      "error occurred during get battery capacity"
      (λ batteryCurrent ups,
         {| AlarmLowVoltageDisconnect := AlarmLowVoltageDisconnect ups;
            BatteryAmperage := BatteryAmperage ups; BatteryCapacity := BatteryCapacity ups;
            BatteryCurrent := Some batteryCurrent;
            BatteryRemainingTime := BatteryRemainingTime ups;
            BatteryTemperature := BatteryTemperature ups;
            BatteryVoltage := BatteryVoltage ups; CurrentLoad := CurrentLoad ups;
            MainsVoltageApplied := MainsVoltageApplied ups;
            RectifierCurrent := RectifierCurrent ups; SystemVoltage := SystemVoltage ups |})
      acc (λ acc s,
    field (GetUPSComponentBatteryRemainingTime head args s)
      "error occurred during get battery capacity"
      (λ batteryRemainingTime ups,
         {| AlarmLowVoltageDisconnect := AlarmLowVoltageDisconnect ups;
            BatteryAmperage := BatteryAmperage ups; BatteryCapacity := BatteryCapacity ups;
            BatteryCurrent := BatteryCurrent ups;
            BatteryRemainingTime := Some batteryRemainingTime;
            BatteryTemperature := BatteryTemperature ups;
            BatteryVoltage := BatteryVoltage ups; CurrentLoad := CurrentLoad ups;
            MainsVoltageApplied := MainsVoltageApplied ups;
            RectifierCurrent := RectifierCurrent ups; SystemVoltage := SystemVoltage ups |})
      acc (λ acc s,
    field (GetUPSComponentBatteryTemperature head args s)
      "error occurred during get battery temperature"
      (λ batteryTemperature ups,
         {| AlarmLowVoltageDisconnect := AlarmLowVoltageDisconnect ups;
            BatteryAmperage := BatteryAmperage ups; BatteryCapacity := BatteryCapacity ups;
            BatteryCurrent := BatteryCurrent ups;
            BatteryRemainingTime := BatteryRemainingTime ups;
            BatteryTemperature := Some batteryTemperature;
            BatteryVoltage := BatteryVoltage ups; CurrentLoad := CurrentLoad ups;
            MainsVoltageApplied := MainsVoltageApplied ups;
            RectifierCurrent := RectifierCurrent ups; SystemVoltage := SystemVoltage ups |})
      acc (λ acc s,
    field (GetUPSComponentBatteryVoltage head args s)
      "error occurred during get battery voltage"
      (λ batteryVoltage ups,
         {| AlarmLowVoltageDisconnect := AlarmLowVoltageDisconnect ups;
            BatteryAmperage := BatteryAmperage ups; BatteryCapacity := BatteryCapacity ups;
            BatteryCurrent := BatteryCurrent ups;
            BatteryRemainingTime := BatteryRemainingTime ups;
            BatteryTemperature := BatteryTemperature ups;
            BatteryVoltage := Some batteryVoltage; CurrentLoad := CurrentLoad ups;
            MainsVoltageApplied := MainsVoltageApplied ups;
            RectifierCurrent := RectifierCurrent ups; SystemVoltage := SystemVoltage ups |})
      acc (λ acc s,
    field (GetUPSComponentCurrentLoad head args s)
      "error occurred during get current load"
      (λ currentLoad ups,
         {| AlarmLowVoltageDisconnect := AlarmLowVoltageDisconnect ups;
            BatteryAmperage := BatteryAmperage ups; BatteryCapacity := BatteryCapacity ups;
            BatteryCurrent := BatteryCurrent ups;
            BatteryRemainingTime := BatteryRemainingTime ups;
            BatteryTemperature := BatteryTemperature ups;
            BatteryVoltage := BatteryVoltage ups; CurrentLoad := Some currentLoad;
            MainsVoltageApplied := MainsVoltageApplied ups;
            RectifierCurrent := RectifierCurrent ups; SystemVoltage := SystemVoltage ups |})
      acc (λ acc s,
    field (GetUPSComponentMainsVoltageApplied head args s)
      "error occurred during get mains voltage applied"
      (λ mainsVoltageApplied ups,
         {| AlarmLowVoltageDisconnect := AlarmLowVoltageDisconnect ups;
            BatteryAmperage := BatteryAmperage ups; BatteryCapacity := BatteryCapacity ups;
            BatteryCurrent := BatteryCurrent ups;
            BatteryRemainingTime := BatteryRemainingTime ups;
            BatteryTemperature := BatteryTemperature ups;
            BatteryVoltage := BatteryVoltage ups; CurrentLoad := CurrentLoad ups;
            MainsVoltageApplied := Some mainsVoltageApplied;
            RectifierCurrent := RectifierCurrent ups; SystemVoltage := SystemVoltage ups |})
      acc (λ acc s,
    field (GetUPSComponentRectifierCurrent head args s)
      "error occurred during get mains voltage applied"
      (λ rectifierCurrent ups,
         {| AlarmLowVoltageDisconnect := AlarmLowVoltageDisconnect ups;
            BatteryAmperage := BatteryAmperage ups; BatteryCapacity := BatteryCapacity ups;
            BatteryCurrent := BatteryCurrent ups;
            BatteryRemainingTime := BatteryRemainingTime ups;
            BatteryTemperature := BatteryTemperature ups;
            BatteryVoltage := BatteryVoltage ups; CurrentLoad := CurrentLoad ups;
            MainsVoltageApplied := MainsVoltageApplied ups;
            RectifierCurrent := Some rectifierCurrent; SystemVoltage := SystemVoltage ups |})
      acc (λ acc s,
    field (GetUPSComponentSystemVoltage head args s)
      "error occurred during get mains voltage applied"
      (λ systemVoltage ups,
         {| AlarmLowVoltageDisconnect := AlarmLowVoltageDisconnect ups;
            BatteryAmperage := BatteryAmperage ups; BatteryCapacity := BatteryCapacity ups;
            BatteryCurrent := BatteryCurrent ups;
            BatteryRemainingTime := BatteryRemainingTime ups;
            BatteryTemperature := BatteryTemperature ups;
            BatteryVoltage := BatteryVoltage ups; CurrentLoad := CurrentLoad ups;
            MainsVoltageApplied := MainsVoltageApplied ups;
            RectifierCurrent := RectifierCurrent ups; SystemVoltage := Some systemVoltage |})
      acc (unlessEmpty "no ups data available"))))))))))).

Definition GetSBCComponent (head c : componentCommunicator)
    : adapterFunc (St := St) (Args := Args) SBCComponent :=
  λ args s,
  if negb (hasComponent c sbcComponent)
  then (Err (NewComponentNotFoundError "no sbc component available for this device"), s)
  else
    field (GetSBCComponentAgents head args s)
      "error occurred during get sbc component agents"
      (λ agents sbc,
         {| Agents := agents; Realms := Realms sbc;
            GlobalCallPerSecond := GlobalCallPerSecond sbc;
            GlobalConcurrentSessions := GlobalConcurrentSessions sbc;
            ActiveLocalContacts := ActiveLocalContacts sbc;
            TranscodingCapacity := TranscodingCapacity sbc;
            LicenseCapacity := LicenseCapacity sbc;
            SystemRedundancy := SystemRedundancy sbc;
            SystemHealthScore := SystemHealthScore sbc |})
      ({| Agents := None; Realms := None; GlobalCallPerSecond := None;
          GlobalConcurrentSessions := None; ActiveLocalContacts := None;
          TranscodingCapacity := None; LicenseCapacity := None; SystemRedundancy := None;
          SystemHealthScore := None |}, true)
      (λ acc s,
    field (GetSBCComponentRealms head args s)
      "error occurred during get sbc component realms"
      (λ realms sbc,
         {| Agents := Agents sbc; Realms := realms;
            GlobalCallPerSecond := GlobalCallPerSecond sbc;
            GlobalConcurrentSessions := GlobalConcurrentSessions sbc;
            ActiveLocalContacts := ActiveLocalContacts sbc;
            TranscodingCapacity := TranscodingCapacity sbc;
            LicenseCapacity := LicenseCapacity sbc;
            SystemRedundancy := SystemRedundancy sbc;
            SystemHealthScore := SystemHealthScore sbc |})
      acc (λ acc s,
    field (GetSBCComponentGlobalCallPerSecond head args s)
      "error occurred during get sbc component sbc global call per second"
      (λ globalCPS sbc,
         {| Agents := Agents sbc; Realms := Realms sbc;
            GlobalCallPerSecond := Some globalCPS;
            GlobalConcurrentSessions := GlobalConcurrentSessions sbc;
            ActiveLocalContacts := ActiveLocalContacts sbc;
            TranscodingCapacity := TranscodingCapacity sbc;
            LicenseCapacity := LicenseCapacity sbc;
            SystemRedundancy := SystemRedundancy sbc;
            SystemHealthScore := SystemHealthScore sbc |})
      acc (λ acc s,
    field (GetSBCComponentGlobalConcurrentSessions head args s)
      "error occurred during get sbc global concurrent sessions"
      (λ globalConcurrentSessions sbc,
         {| Agents := Agents sbc; Realms := Realms sbc;
            GlobalCallPerSecond := GlobalCallPerSecond sbc;
            GlobalConcurrentSessions := Some globalConcurrentSessions;
            ActiveLocalContacts := ActiveLocalContacts sbc;
            TranscodingCapacity := TranscodingCapacity sbc;
            LicenseCapacity := LicenseCapacity sbc;
            SystemRedundancy := SystemRedundancy sbc;
            SystemHealthScore := SystemHealthScore sbc |})
      acc (λ acc s,
    field (GetSBCComponentActiveLocalContacts head args s)
      "error occurred during get active local contacts"
      (λ activeLocalContacts sbc,
         {| Agents := Agents sbc; Realms := Realms sbc;
            GlobalCallPerSecond := GlobalCallPerSecond sbc;
            GlobalConcurrentSessions := GlobalConcurrentSessions sbc;
            ActiveLocalContacts := Some activeLocalContacts;
            TranscodingCapacity := TranscodingCapacity sbc;
            LicenseCapacity := LicenseCapacity sbc;
            SystemRedundancy := SystemRedundancy sbc;
            SystemHealthScore := SystemHealthScore sbc |})
      acc (λ acc s,
    field (GetSBCComponentTranscodingCapacity head args s)
      "error occurred during get transcoding capacity"
      (λ transcodingCapacity sbc,
         {| Agents := Agents sbc; Realms := Realms sbc;
            GlobalCallPerSecond := GlobalCallPerSecond sbc;
            GlobalConcurrentSessions := GlobalConcurrentSessions sbc;
            ActiveLocalContacts := ActiveLocalContacts sbc;
            TranscodingCapacity := Some transcodingCapacity;
            LicenseCapacity := LicenseCapacity sbc;
            SystemRedundancy := SystemRedundancy sbc;
            SystemHealthScore := SystemHealthScore sbc |})
      acc (λ acc s,
    field (GetSBCComponentLicenseCapacity head args s)
      "error occurred during get license capacity"
      (λ licenseCapacity sbc,
         {| Agents := Agents sbc; Realms := Realms sbc;
            GlobalCallPerSecond := GlobalCallPerSecond sbc;
            GlobalConcurrentSessions := GlobalConcurrentSessions sbc;
            ActiveLocalContacts := ActiveLocalContacts sbc;
            TranscodingCapacity := TranscodingCapacity sbc;
            LicenseCapacity := Some licenseCapacity;
            SystemRedundancy := SystemRedundancy sbc;
            SystemHealthScore := SystemHealthScore sbc |})
      acc (λ acc s,
    field (GetSBCComponentSystemRedundancy head args s)
      "error occurred during get system redundancy"
      (λ systemRedundancy sbc,
         {| Agents := Agents sbc; Realms := Realms sbc;
            GlobalCallPerSecond := GlobalCallPerSecond sbc;
            GlobalConcurrentSessions := GlobalConcurrentSessions sbc;
            ActiveLocalContacts := ActiveLocalContacts sbc;
            TranscodingCapacity := TranscodingCapacity sbc;
            LicenseCapacity := LicenseCapacity sbc;
            SystemRedundancy := Some systemRedundancy;
            SystemHealthScore := SystemHealthScore sbc |})
      acc (λ acc s,
    field (GetSBCComponentSystemHealthScore head args s)
      "error occurred during get system health score"
      (λ systemHealthScore sbc,
         {| Agents := Agents sbc; Realms := Realms sbc;
            GlobalCallPerSecond := GlobalCallPerSecond sbc;
            GlobalConcurrentSessions := GlobalConcurrentSessions sbc;
            ActiveLocalContacts := ActiveLocalContacts sbc;
            TranscodingCapacity := TranscodingCapacity sbc;
            LicenseCapacity := LicenseCapacity sbc;
            SystemRedundancy := SystemRedundancy sbc;
            SystemHealthScore := Some systemHealthScore |})
      acc (unlessEmpty "no sbc data available"))))))))).

Definition GetServerComponent (head c : componentCommunicator)
    : adapterFunc (St := St) (Args := Args) ServerComponent :=
  λ args s,
  if negb (hasComponent c serverComponent)
  then (Err (NewComponentNotFoundError
               "no server component available for this device"), s)
  else
    field (GetServerComponentProcs head args s)
      "error occurred during get server component procs"
      (λ procs server, {| Procs := Some procs; Users := Users server |})
      ({| Procs := None; Users := None |}, true)
      (λ acc s,
    field (GetServerComponentUsers head args s)
      "error occurred during get server component users"
      (λ users server, {| Procs := Procs server; Users := Some users |})
      acc (unlessEmpty "no server data available")).

Definition GetDiskComponent (head c : componentCommunicator)
    : adapterFunc (St := St) (Args := Args) DiskComponent :=
  λ args s,
  if negb (hasComponent c diskComponent)
  then (Err (NewComponentNotFoundError "no disk component available for this device"), s)
  else
    field (GetDiskComponentStorages head args s)
      "error occurred during get disk component storages"
      (λ storages disk, {| Storages := storages |})
      ({| Storages := None |}, true)
      (unlessEmpty "no disk data available").

Definition GetHardwareHealthComponent (head c : componentCommunicator)
    : adapterFunc (St := St) (Args := Args) HardwareHealthComponent :=
  λ args s,
  if negb (hasComponent c hardwareHealthComponent)
  then (Err (NewComponentNotFoundError
               "no hardware health component available for this device"), s)
  else
    field (GetHardwareHealthComponentEnvironmentMonitorState head args s)
      "error occurred during get environment monitor states"
      (λ state hardwareHealth,
         {| EnvironmentMonitorState := Some state; Fans := Fans hardwareHealth;
            PowerSupply := PowerSupply hardwareHealth |})
      ({| EnvironmentMonitorState := None; Fans := None; PowerSupply := None |}, true)
      (λ acc s,
    field (GetHardwareHealthComponentFans head args s) "error occurred during get fans"
      (λ fans hardwareHealth,
         {| EnvironmentMonitorState := EnvironmentMonitorState hardwareHealth;
            Fans := fans; PowerSupply := PowerSupply hardwareHealth |})
      acc
      (λ acc s,
    field (GetHardwareHealthComponentPowerSupply head args s)
      "error occurred during get sbc component sbc global call per second"
      (λ powerSupply hardwareHealth,
         {| EnvironmentMonitorState := EnvironmentMonitorState hardwareHealth;
            Fans := Fans hardwareHealth; PowerSupply := powerSupply |})
      acc (unlessEmpty "no sbc data available"))).

End components.

Arguments availableComponentFunctions : clear implicits.
Arguments componentCommunicator : clear implicits.
Arguments CPUComponent : clear implicits.
Arguments UPSComponent : clear implicits.
Arguments SBCComponent : clear implicits.
Arguments DiskComponent : clear implicits.
Arguments HardwareHealthComponent : clear implicits.

End components.

(** * The identification properties *)

Module identify.
Import tholaerr device communicator components.

Section identify.

Context {St Args : Type}.

(** [device.NewContextWithDeviceProperties] is not among the sources: the
    context with the device, its class and the properties found so far. *)
Variable NewContextWithDeviceProperties : Args → Device → Args.

Definition setVendor (vendor : string) (dev : Device) : Device :=
  {| Class := Class dev;
     DeviceProperties :=
       {| Vendor := Some vendor; Model := Model (DeviceProperties dev);
          ModelSeries := ModelSeries (DeviceProperties dev);
          SerialNumber := SerialNumber (DeviceProperties dev);
          OSVersion := OSVersion (DeviceProperties dev) |} |}.

Definition setModel (model : string) (dev : Device) : Device :=
  {| Class := Class dev;
     DeviceProperties :=
       {| Vendor := Vendor (DeviceProperties dev); Model := Some model;
          ModelSeries := ModelSeries (DeviceProperties dev);
          SerialNumber := SerialNumber (DeviceProperties dev);
          OSVersion := OSVersion (DeviceProperties dev) |} |}.

Definition setModelSeries (modelSeries : string) (dev : Device) : Device :=
  {| Class := Class dev;
     DeviceProperties :=
       {| Vendor := Vendor (DeviceProperties dev); Model := Model (DeviceProperties dev);
          ModelSeries := Some modelSeries;
          SerialNumber := SerialNumber (DeviceProperties dev);
          OSVersion := OSVersion (DeviceProperties dev) |} |}.

Definition setSerialNumber (serialNumber : string) (dev : Device) : Device :=
  {| Class := Class dev;
     DeviceProperties :=
       {| Vendor := Vendor (DeviceProperties dev); Model := Model (DeviceProperties dev);
          ModelSeries := ModelSeries (DeviceProperties dev);
          SerialNumber := Some serialNumber;
          OSVersion := OSVersion (DeviceProperties dev) |} |}.

Definition setOSVersion (osVersion : string) (dev : Device) : Device :=
  {| Class := Class dev;
     DeviceProperties :=
       {| Vendor := Vendor (DeviceProperties dev); Model := Model (DeviceProperties dev);
          ModelSeries := ModelSeries (DeviceProperties dev);
          SerialNumber := SerialNumber (DeviceProperties dev);
          OSVersion := Some osVersion |} |}.

(** The block that [GetIdentifyProperties] repeats for the first four
    properties: an error that is neither NotFound nor NotImplemented ends
    the function, wrapped in [msg]; any other error leaves the property
    unset; a value is stored in [dev], and the context becomes the one with
    [dev]. [next] is the rest of the function. *)
Definition identified (got : Result string * St) (msg : string)
    (set : string → Device → Device) (dev : Device) (ctx : Args)
    (next : Device → Args → St → Result Properties * St) : Result Properties * St :=
  match got with
  | (Err err, s) =>
    if negb (IsNotFoundError err) && negb (IsNotImplementedError err)
    then (Err (errors.Wrap err msg), s)
    else next dev ctx s
  | (Ok value, s) =>
    let dev := set value dev in
    next dev (NewContextWithDeviceProperties ctx dev) s
  end.

(** [head] is [c.head], the only field of [c] that the function uses. *)
Definition GetIdentifyProperties (head : networkDeviceCommunicator St Args)
    : adapterFunc (St := St) (Args := Args) Properties :=
  λ ctx s,
  let dev := {| Class := GetDeviceClass head; DeviceProperties := noProperties |} in
  identified (GetVendor head ctx s) "error occurred during get vendor"
    setVendor dev ctx (λ dev ctx s,
  identified (GetModel head ctx s) "error occurred during get model"
    setModel dev ctx (λ dev ctx s,
  identified (GetModelSeries head ctx s) "error occurred during get model series"
    setModelSeries dev ctx (λ dev ctx s,
  identified (GetSerialNumber head ctx s) "error occurred during get serial number"
    setSerialNumber dev ctx (λ dev ctx s,
  match GetOSVersion head ctx s with
  | (Err err, s) =>
    if negb (IsNotFoundError err) && negb (IsNotImplementedError err)
    then (Err (errors.Wrap err "error occurred during get os version"), s)
    else (Ok (DeviceProperties dev), s)
  | (Ok osVersion, s) => (Ok (DeviceProperties (setOSVersion osVersion dev)), s)
  end)))).

End identify.

End identify.

(** * What the properties below are stated with *)

Module rules.
Import tholaerr device communicator components.

(** Two outcomes that a caller cannot tell apart but by the message of a
    NotFound or NotImplemented error: the same value, or errors of the same
    kind that are equal when they are of any other kind. *)
Definition sameOutcome {V} (r1 r2 : Result V) : Prop :=
  match r1, r2 with
  | Ok v1, Ok v2 => v1 = v2
  | Err e1, Err e2 =>
    errKind e1 = errKind e2
    ∧ (errKind e1 ≠ NotFound → errKind e1 ≠ NotImplemented → e1 = e2)
  | _, _ => False
  end.

(** Two runs that end in the same state with outcomes that a caller cannot
    tell apart. *)
Definition sameRun {V St} (r1 r2 : Result V * St) : Prop :=
  r1.2 = r2.2 ∧ sameOutcome r1.1 r2.1.

Section rules.

Context {St Args : Type}.

(** An error after which a caller goes on: NotFound or NotImplemented. *)
Definition tolerated (err : error) : bool :=
  IsNotFoundError err || IsNotImplementedError err.

(** A getter without the value it returns. *)
Definition outcomeOf {A} (get : adapterFunc (St := St) (Args := Args) A)
    : adapterFunc (St := St) (Args := Args) unit :=
  λ args s, (Result_map (λ _, ()) (get args s).1, (get args s).2).

(** What a field that is a pointer holds after its getter returned [r], and
    what a field that is a slice holds. *)
Definition pointerTo {A} (r : Result A) : option A :=
  match r with
  | Ok value => Some value
  | Err _ => None
  end.

Definition sliceFrom {A} (r : Result (slice A)) : slice A :=
  match r with
  | Ok value => value
  | Err _ => None
  end.

(** How a run of getters, one after the other, ends: with the first error
    that is not tolerated, or after all of them, [empty] telling whether
    none returned a value. *)
Inductive gathering : Type :=
  | Aborted (err : error) (s : St)
  | Gathered (empty : bool) (s : St).

Fixpoint gather (getters : list (adapterFunc (St := St) (Args := Args) unit))
    (args : Args) (s : St) (empty : bool) : gathering :=
  match getters with
  | [] => Gathered empty s
  | get :: rest =>
    match get args s with
    | (Err err, s') =>
      if tolerated err then gather rest args s' empty else Aborted err s'
    | (Ok _, s') => gather rest args s' false
    end
  end.

(** The run [r] of an aggregator ends like the run of its getters: with
    the first error that is not tolerated, wrapped; with a NotFound error
    when no getter returned a value; with a component else. *)
Definition endsLike {C} (r : Result C * St) (run : gathering) : Prop :=
  match run with
  | Aborted err s' => ∃ msg, r = (Err (errors.Wrap err msg), s')
  | Gathered true s' => ∃ msg, r = (Err (NewNotFoundError msg), s')
  | Gathered false s' => ∃ c, r = (Ok c, s')
  end.

(** The rule of an aggregator of the component that is [available] or not,
    with the getters of its fields in the order it calls them. *)
Definition componentRule {C} (aggregate : adapterFunc (St := St) (Args := Args) C)
    (available : bool) (getters : list (adapterFunc (St := St) (Args := Args) unit))
    : Prop :=
  ∀ args s,
    if available then endsLike (aggregate args s) (gather getters args s true)
    else ∃ msg, aggregate args s = (Err (NewComponentNotFoundError msg), s).

(** [step], and [tail] when [step] returns NotImplemented. *)
Definition orElse {V} (step tail : adapterFunc (St := St) (Args := Args) V)
    : adapterFunc (St := St) (Args := Args) V :=
  λ args s,
  match step args s with
  | (Ok value, s') => (Ok value, s')
  | (Err err, s') =>
    if IsNotImplementedError err then tail args s' else (Err err, s')
  end.

(** The steps of a resolution laid out in a row, and the first of them that
    is defined: the outcome of the first step that does not return
    NotImplemented, or NotImplemented when there is none. *)
Fixpoint firstDefined {V} (steps : list (adapterFunc (St := St) (Args := Args) V))
    : adapterFunc (St := St) (Args := Args) V :=
  λ args s,
  match steps with
  | [] => (Err (NewNotImplementedError "no detection information available"), s)
  | step :: rest =>
    match step args s with
    | (Ok value, s') => (Ok value, s')
    | (Err err, s') =>
      if IsNotImplementedError err then firstDefined rest args s' else (Err err, s')
    end
  end.

(** The gate of a getter as a step: it stops the resolution when the gate is
    shut and lets it pass otherwise. *)
Definition gateStep {V} (shut : bool) (msg : string)
    : adapterFunc (St := St) (Args := Args) V :=
  λ _ s,
  (Err (if shut then NewComponentNotFoundError msg
        else NewNotImplementedError "the gate is open"), s).

(** The steps of the property [field] from [c] down its chain: at every
    communicator its class step and, where there is one, its override step. *)
Fixpoint communicatorSteps {V}
    (field : availableCommunicatorFunctions St Args → adapterFunc V)
    (c : networkDeviceCommunicator St Args)
    : list (adapterFunc (St := St) (Args := Args) V) :=
  field (classFunctions (deviceClass c))
  :: (match codeCommunicator c with
      | Some code => [field code]
      | None => []
      end
      ++ match sub c with
         | Some c' => communicatorSteps field c'
         | None => []
         end)%list.

(** The string getter [get] of the property [field] returns what the first
    defined step of the chain returns, an empty string being no value. *)
Definition resolvesNonEmpty
    (get : networkDeviceCommunicator St Args → adapterFunc string)
    (field : availableCommunicatorFunctions St Args → adapterFunc string) : Prop :=
  ∀ c args s,
    sameRun (get c args s) (nonEmpty (firstDefined (communicatorSteps field c) args s)).

Context {float64 DiskComponentStorage HardwareHealthComponentFan
         HardwareHealthComponentPowerSupply SBCComponentAgent SBCComponentRealm : Type}.

Local Abbreviation functions :=
  (availableComponentFunctions St Args float64 DiskComponentStorage
     HardwareHealthComponentFan HardwareHealthComponentPowerSupply
     SBCComponentAgent SBCComponentRealm).

Local Abbreviation node :=
  (componentCommunicator St Args float64 DiskComponentStorage
     HardwareHealthComponentFan HardwareHealthComponentPowerSupply
     SBCComponentAgent SBCComponentRealm).

(** The steps of a getter from [c] down its chain: at every communicator its
    gate, its class step and, where there is one, its override step. *)
Fixpoint stepsOf {V} (gate : node → bool) (msg : string)
    (field : functions → adapterFunc V) (c : node)
    : list (adapterFunc (St := St) (Args := Args) V) :=
  gateStep (gate c) msg :: field (classComponents c)
  :: (match codeComponents c with
      | Some code => [field code]
      | None => []
      end
      ++ match subComponents c with
         | Some c' => stepsOf gate msg field c'
         | None => []
         end)%list.

(** The communicators below [c] in its chain. *)
Fixpoint parentsOf (c : node) : list node :=
  match subComponents c with
  | Some c' => c' :: parentsOf c'
  | None => []
  end.

End rules.

End rules.

(** * The shape of what a reader returns *)

Module shapes.
Import reader.

(** A value has the shape of the reader it comes from: a leaf gives a
    normalized value; a group gives a map that is not empty, every label of
    which is a label of the group and holds a value of the shape of the
    reader under that label. *)
Fixpoint shaped (reader : oidReader) (v : any) : Prop :=
  match reader, v with
  | oidLeaf _, anyValue _ => True
  | oidGroup d, anyMap m =>
    m ≠ ∅
    ∧ ∀ label x, m !! label = Some x →
        ∃ shape, (shaped <$> d) !! label = Some shape ∧ shape x
  | _, _ => False
  end.

End shapes.

(** * Instances used in the examples of the components *)

Module component_examples.
Import tholaerr device network communicator components reader examples.

(** The class "generic" once more, with the interfaces component only. *)
Definition genericClass : deviceClassCommunicator (list string) unit :=
  {| getName := "generic";
     hasAvailableComponent := λ k, bool_decide (k = interfacesComponent);
     classFunctions := classFunctions (classOf "generic" (Err notImplemented)) |}.

(** The component functions of a class that defines nothing but, perhaps,
    the cpu load and the memory usage. A [float64] is written as an integer
    here, and the element types of the slices are left empty. *)
Definition componentsOf (name : string) (load : Result (slice Z)) (memory : Result Z)
    : availableComponentFunctions (list string) unit Z unit unit unit unit unit :=
  {| getIfTable := logged (name ++ ".ifTable") (Err notImplemented);
     getCountInterfaces := logged (name ++ ".countInterfaces") (Err notImplemented);
     getCPULoad := logged (name ++ ".cpuLoad") load;
     getCPUTemperature := logged (name ++ ".cpuTemperature") (Err notImplemented);
     getMemoryUsage := logged (name ++ ".memoryUsage") memory;
     getServerProcs := logged (name ++ ".serverProcs") (Err notImplemented);
     getServerUsers := logged (name ++ ".serverUsers") (Err notImplemented);
     getDiskComponentStorages := logged (name ++ ".diskStorages") (Err notImplemented);
     getUPSComponentAlarmLowVoltageDisconnect :=
       logged (name ++ ".ups.alarmLowVoltageDisconnect") (Err notImplemented);
     getUPSComponentBatteryAmperage :=
       logged (name ++ ".ups.batteryAmperage") (Err notImplemented);
     getUPSComponentBatteryCapacity :=
       logged (name ++ ".ups.batteryCapacity") (Err notImplemented);
     getUPSComponentBatteryCurrent :=
       logged (name ++ ".ups.batteryCurrent") (Err notImplemented);
     getUPSComponentBatteryRemainingTime :=
       logged (name ++ ".ups.batteryRemainingTime") (Err notImplemented);
     getUPSComponentBatteryTemperature :=
       logged (name ++ ".ups.batteryTemperature") (Err notImplemented);
     getUPSComponentBatteryVoltage :=
       logged (name ++ ".ups.batteryVoltage") (Err notImplemented);
     getUPSComponentCurrentLoad := logged (name ++ ".ups.currentLoad") (Err notImplemented);
     getUPSComponentMainsVoltageApplied :=
       logged (name ++ ".ups.mainsVoltageApplied") (Err notImplemented);
     getUPSComponentRectifierCurrent :=
       logged (name ++ ".ups.rectifierCurrent") (Err notImplemented);
     getUPSComponentSystemVoltage :=
       logged (name ++ ".ups.systemVoltage") (Err notImplemented);
     getSBCComponentAgents := logged (name ++ ".sbc.agents") (Err notImplemented);
     getSBCComponentRealms := logged (name ++ ".sbc.realms") (Err notImplemented);
     getSBCComponentGlobalCallPerSecond :=
       logged (name ++ ".sbc.globalCallPerSecond") (Err notImplemented);
     getSBCComponentGlobalConcurrentSessions :=
       logged (name ++ ".sbc.globalConcurrentSessions") (Err notImplemented);
     getSBCComponentActiveLocalContacts :=
       logged (name ++ ".sbc.activeLocalContacts") (Err notImplemented);
     getSBCComponentTranscodingCapacity :=
       logged (name ++ ".sbc.transcodingCapacity") (Err notImplemented);
     getSBCComponentLicenseCapacity :=
       logged (name ++ ".sbc.licenseCapacity") (Err notImplemented);
     getSBCComponentSystemRedundancy :=
       logged (name ++ ".sbc.systemRedundancy") (Err notImplemented);
     getSBCComponentSystemHealthScore :=
       logged (name ++ ".sbc.systemHealthScore") (Err notImplemented);
     getHardwareHealthComponentEnvironmentMonitorState :=
       logged (name ++ ".environmentMonitorState") (Err notImplemented);
     getHardwareHealthComponentFans := logged (name ++ ".fans") (Err notImplemented);
     getHardwareHealthComponentPowerSupply :=
       logged (name ++ ".powerSupply") (Err notImplemented) |}.

(** The parent "generic" knows the cpu load and the memory usage; the head
    "ios" has every component and defines none of their properties. *)
Definition genericComponents : componentCommunicator (list string) unit Z unit unit unit unit unit :=
  ComponentCommunicator (NetworkDeviceCommunicator "ios" None None genericClass)
    (componentsOf "generic" (Ok (Some [25%Z])) (Ok 40%Z)) None None.

Definition iosComponents : componentCommunicator (list string) unit Z unit unit unit unit unit :=
  ComponentCommunicator
    (NetworkDeviceCommunicator "ios" (Some (communicator genericComponents)) None
       (classOf "ios" (Err notImplemented)))
    (componentsOf "ios" (Err notImplemented) (Err notImplemented)) None
    (Some genericComponents).

(** A device class on its own, whose cpu load is the nil slice. *)
Definition hostComponents : componentCommunicator (list string) unit Z unit unit unit unit unit :=
  ComponentCommunicator
    (NetworkDeviceCommunicator "host" None None (classOf "host" (Err notImplemented)))
    (componentsOf "host" (Ok None) (Err notImplemented)) None None.

(** A column whose walk returns two responses with the trailing index 1. *)
Definition twiceCtx : context :=
  {| DeviceConnectionFromContext :=
       Some {| SNMP := Some {| SNMPWalk := λ _,
         Ok [response ".1.3.6.1.2.1.1.5.1" "old"; response ".1.3.6.1.2.1.1.5.1" "new"] |} |} |}.

(** A secondary table whose only row has two segments behind the path of
    the table. *)
Definition shortSapCtx : context :=
  {| DeviceConnectionFromContext :=
       Some {| SNMP := Some {| SNMPWalk := λ _,
         Ok [response (timos_sas.sapDescriptionsOID ++ ".7.3") "customer"] |} |} |}.

(** A secondary table with two rows for the interface 73, and the counters
    of both. *)
Definition twoSapCtx : context :=
  {| DeviceConnectionFromContext :=
       Some {| SNMP := Some {| SNMPWalk := λ _,
         Ok [response (timos_sas.sapDescriptionsOID ++ ".100.7.3") "customer";
             response (timos_sas.sapDescriptionsOID ++ ".200.7.3") "backup"] |} |} |}.

Definition twoCounters (ctx : context) (oid : string) : Result Z :=
  if bool_decide (oid = timos_sas.inboundOID ++ "100.7.3") then Ok 11%Z
  else if bool_decide (oid = timos_sas.outboundOID ++ "100.7.3") then Ok 22%Z
  else if bool_decide (oid = timos_sas.inboundOID ++ "200.7.3") then Ok 33%Z
  else if bool_decide (oid = timos_sas.outboundOID ++ "200.7.3") then Ok 44%Z
  else Err (NewNotFoundError "no such instance").

(** An interface without an index. *)
Definition unindexedInterface : Interface :=
  {| IfIndex := None; IfDescr := Some "lo0"; IfSpeed := None; IfHighSpeed := None;
     SAP := None |}.

End component_examples.

(** * Properties of the resolution chain *)

Section chain_facts.
Import tholaerr device communicator.
Context {St Args : Type}.

Local Abbreviation adapter := (adapterFunc (St := St) (Args := Args)).

Lemma IsNotFoundError_not_NotImplemented (e : error) :
  IsNotFoundError e = true → IsNotImplementedError e = false.
Proof.
  unfold IsNotFoundError, IsNotImplementedError.
  intros H%bool_decide_eq_true. apply bool_decide_eq_false. congruence.
Qed.

Lemma IsNotImplementedError_not_NotFound (e : error) :
  IsNotImplementedError e = true → IsNotFoundError e = false.
Proof.
  unfold IsNotFoundError, IsNotImplementedError.
  intros H%bool_decide_eq_true. apply bool_decide_eq_false. congruence.
Qed.

(** A step that succeeds ends the resolution. *)
Lemma executeWithRecursion_class_Ok {V} (fClass : adapter V) fCom fSub args s v s1 :
  fClass args s = (Ok v, s1) →
  executeWithRecursion fClass fCom fSub args s = (Ok v, s1).
Proof. intros H. unfold executeWithRecursion. by rewrite H. Qed.

(** Any class-step error that is not NotImplemented ends the resolution. *)
Lemma executeWithRecursion_class_stop {V} (fClass : adapter V) fCom fSub args s e s1 :
  fClass args s = (Err e, s1) →
  IsNotImplementedError e = false →
  executeWithRecursion fClass fCom fSub args s = (Err e, s1).
Proof. intros H He. unfold executeWithRecursion. by rewrite H, He. Qed.

(** After a NotImplemented class step the resolution goes on with the
    override step, from the state the class step left. *)
Lemma executeWithRecursion_class_NotImplemented {V}
    (fClass : adapter V) f fSub args s e s1 :
  fClass args s = (Err e, s1) →
  IsNotImplementedError e = true →
  executeWithRecursion fClass (Some f) fSub args s
  = executeWithRecursion f None fSub args s1.
Proof.
  intros H He. unfold executeWithRecursion. rewrite H, He. simpl.
  destruct (f args s1) as [[v|e2] s2]; [done|].
  destruct (IsNotImplementedError e2) eqn:He2; simpl; [|done].
  unfold noInformation. rewrite He, He2. simpl.
  by destruct fSub.
Qed.

(** After NotImplemented from the class step and from the override step the
    outcome is that of the parent step, whose NotFound is issued anew. *)
Lemma executeWithRecursion_inherited {V}
    (fClass : adapter V) f g args s e1 s1 e2 s2 :
  fClass args s = (Err e1, s1) →
  IsNotImplementedError e1 = true →
  f args s1 = (Err e2, s2) →
  IsNotImplementedError e2 = true →
  executeWithRecursion fClass (Some f) (Some g) args s
  = match g args s2 with
    | (Ok value, s3) => (Ok value, s3)
    | (Err e3, s3) =>
      if IsNotFoundError e3
      then (Err (NewNotFoundError "failed to get information through any device class"),
            s3)
      else (Err e3, s3)
    end.
Proof.
  intros H1 He1 H2 He2. unfold executeWithRecursion.
  rewrite H1, He1. simpl. rewrite H2, He2. simpl.
  destruct (g args s2) as [[v|e3] s3]; [done|].
  destruct (IsNotFoundError e3) eqn:He3; simpl; [|done].
  unfold noInformation. rewrite He1, He2. simpl.
  unfold IsNotFoundError, IsNotImplementedError in *.
  apply bool_decide_eq_true in He3. rewrite bool_decide_eq_false_2; [done|congruence].
Qed.

(** C1 (as amended): the class step and the override step pass the
    resolution on only when they return NotImplemented. A NotFound from the
    class step, or from the override step, is the outcome of the whole
    resolution, and no later step runs: the state is the one that step left.
    After a NotImplemented class step the resolution continues with the
    override step, and after a NotImplemented override step with the parent
    step. *)
Theorem executeWithRecursion_NotFound_is_final {V}
    (fClass : adapter V) (fCom fSub : option (adapter V)) args s e1 s1 :
  fClass args s = (Err e1, s1) →
  (IsNotFoundError e1 = true →
     executeWithRecursion fClass fCom fSub args s = (Err e1, s1))
  ∧ (IsNotImplementedError e1 = true →
     ∀ f, fCom = Some f →
       executeWithRecursion fClass fCom fSub args s
       = executeWithRecursion f None fSub args s1
       ∧ (∀ e2 s2, f args s1 = (Err e2, s2) → IsNotFoundError e2 = true →
            executeWithRecursion fClass fCom fSub args s = (Err e2, s2))
       ∧ (∀ e2 s2 g, f args s1 = (Err e2, s2) → IsNotImplementedError e2 = true →
            fSub = Some g →
            executeWithRecursion fClass fCom fSub args s
            = match g args s2 with
              | (Ok value, s3) => (Ok value, s3)
              | (Err e3, s3) =>
                if IsNotFoundError e3
                then (Err (NewNotFoundError
                             "failed to get information through any device class"), s3)
                else (Err e3, s3)
              end)).
Proof.
  intros H. split.
  - intros He%IsNotFoundError_not_NotImplemented.
    by apply executeWithRecursion_class_stop.
  - intros He f ->. split; [|split].
    + by apply (executeWithRecursion_class_NotImplemented _ _ _ _ _ e1).
    + intros e2 s2 Hf He2%IsNotFoundError_not_NotImplemented.
      rewrite (executeWithRecursion_class_NotImplemented _ _ _ _ _ _ _ H He).
      by apply executeWithRecursion_class_stop.
    + intros e2 s2 g Hf He2 ->. by eapply executeWithRecursion_inherited.
Qed.

(** C2: a hard failure of the class step is returned at once, from the state
    the class step left, whatever the override and parent steps are; and
    when the class step, the override step (or its absence) and the parent
    step (or its absence) all give NotImplemented, so does the resolution. *)
Theorem executeWithRecursion_hard_failure_and_NotImplemented {V}
    (fClass : adapter V) (fCom fSub : option (adapter V)) args s e1 s1 :
  fClass args s = (Err e1, s1) →
  (IsNotImplementedError e1 = false → IsNotFoundError e1 = false →
     executeWithRecursion fClass fCom fSub args s = (Err e1, s1))
  ∧ (IsNotImplementedError e1 = true →
     (∀ f, fCom = Some f →
        ∃ e2, (f args s1).1 = Err e2 ∧ IsNotImplementedError e2 = true) →
     (∀ g, fSub = Some g →
        ∃ e3, (g args (match fCom with Some f => (f args s1).2 | None => s1 end)).1
              = Err e3 ∧ IsNotImplementedError e3 = true) →
     ∃ e, (executeWithRecursion fClass fCom fSub args s).1 = Err e
          ∧ IsNotImplementedError e = true).
Proof.
  intros H. split.
  - intros He _. by apply executeWithRecursion_class_stop.
  - intros He Hcom Hsub. unfold executeWithRecursion. rewrite H, He. simpl.
    destruct fCom as [f|].
    + destruct (Hcom f eq_refl) as (e2 & Hf & He2).
      destruct (f args s1) as [r2 s2]. simpl in *. subst r2. rewrite He2. simpl.
      destruct fSub as [g|].
      * destruct (Hsub g eq_refl) as (e3 & Hg & He3).
        destruct (g args s2) as [r3 s3]. simpl in *. subst r3.
        rewrite (IsNotImplementedError_not_NotFound _ He3). simpl. eauto.
      * simpl. unfold noInformation. rewrite He, He2. simpl. eauto.
    + destruct fSub as [g|].
      * destruct (Hsub g eq_refl) as (e3 & Hg & He3).
        destruct (g args s1) as [r3 s3]. simpl in *. subst r3.
        rewrite (IsNotImplementedError_not_NotFound _ He3). simpl. eauto.
      * simpl. unfold noInformation. rewrite He. simpl. eauto.
Qed.

Lemma nonEmpty_spec (r : Result string * St) :
  (∀ s', r = (Ok "", s') →
     nonEmpty r = (Err (NewNotFoundError "empty string returned"), s'))
  ∧ (nonEmpty r).1 ≠ Ok "".
Proof.
  destruct r as [[res|err] s]; simpl.
  - case_bool_decide as Hres; simpl.
    + split; [|done]. intros s' ?. by simplify_eq.
    + split; [|congruence]. intros s' ?. by simplify_eq.
  - split; [|done]. intros s' ?. by simplify_eq.
Qed.

Ltac emptyStringRule_tac :=
  intros [hd [c'|] com cls] args s; simpl;
  match goal with
  | |- context [nonEmpty ?r] =>
    destruct (nonEmpty_spec r) as [Hempty Hne]; split; [|exact Hne];
    intros s' Hr; rewrite (Hempty s' Hr); eauto
  end.

(** C8: each of the five string getters turns a resolution that succeeded
    with the empty string into a NotFound error, and never returns the empty
    string as a value. *)
Theorem string_getters_emptyStringRule :
  emptyStringRule (St := St) (Args := Args) GetVendor getVendor
  ∧ emptyStringRule (St := St) (Args := Args) GetModel getModel
  ∧ emptyStringRule (St := St) (Args := Args) GetModelSeries getModelSeries
  ∧ emptyStringRule (St := St) (Args := Args) GetSerialNumber getSerialNumber
  ∧ emptyStringRule (St := St) (Args := Args) GetOSVersion getOSVersion.
Proof. repeat apply conj; emptyStringRule_tac. Qed.

(** ** The finishing pass of the interface listing *)

Lemma normalizeInterfaceAt_lookup (interfaces : list Interface) (i j : nat) :
  normalizeInterfaceAt interfaces i !! j
  = if decide (i = j) then normalizeInterface <$> interfaces !! j else interfaces !! j.
Proof.
  unfold normalizeInterfaceAt, normalizeInterface.
  destruct (decide (i = j)) as [->|Hij].
  - destruct (interfaces !! j) as [interf|] eqn:Hj; simpl; [|by rewrite Hj].
    destruct (IfSpeed interf) as [speed|], (IfHighSpeed interf) as [highSpeed|];
      simpl; try by rewrite Hj.
    destruct (speed =? MaxUint32)%Z; [|by rewrite Hj].
    apply list_lookup_insert_eq. by eapply lookup_lt_Some.
  - destruct (interfaces !! i) as [interf|]; [|done].
    destruct (IfSpeed interf) as [speed|], (IfHighSpeed interf) as [highSpeed|];
      try done.
    destruct (speed =? MaxUint32)%Z; [|done].
    by apply list_lookup_insert_ne.
Qed.

Lemma normalizeInterfaces_loop_lookup (interfaces : list Interface) (n j : nat) :
  foldl normalizeInterfaceAt interfaces (seq 0 n) !! j
  = if decide (j < n) then normalizeInterface <$> interfaces !! j else interfaces !! j.
Proof.
  induction n as [|n IH] in j |- *; [done|].
  rewrite seq_S, foldl_app. simpl.
  rewrite normalizeInterfaceAt_lookup, IH.
  repeat case_decide; try lia; try done.
Qed.

(** The loop of [normalizeInterfaces] rewrites each interface on its own. *)
Lemma normalizeInterfaces_fmap (interfaces : list Interface) :
  normalizeInterfaces interfaces = normalizeInterface <$> interfaces.
Proof.
  apply list_eq. intros j. unfold normalizeInterfaces.
  rewrite normalizeInterfaces_loop_lookup, list_lookup_fmap.
  case_decide as Hj; [done|].
  rewrite lookup_ge_None_2 by lia. done.
Qed.

(** Induction along the inheritance chain. *)
Lemma networkDeviceCommunicator_chain_ind
    (P : networkDeviceCommunicator St Args → Prop) :
  (∀ hd com cls, P (NetworkDeviceCommunicator hd None com cls)) →
  (∀ hd c' com cls, P c' → P (NetworkDeviceCommunicator hd (Some c') com cls)) →
  ∀ c, P c.
Proof.
  intros Hlast Hnext. fix IH 1.
  intros [hd [c'|] com cls]; [apply Hnext, IH | apply Hlast].
Qed.

(** [executeWithRecursion] only looks at what the parent step returns. *)
Lemma executeWithRecursion_ext_sub {V} (fClass : adapter V) fCom (g g' : adapter V) args s :
  (∀ s2, g args s2 = g' args s2) →
  executeWithRecursion fClass fCom (Some g) args s
  = executeWithRecursion fClass fCom (Some g') args s.
Proof.
  intros Hg. unfold executeWithRecursion.
  destruct (fClass args s) as [[v|e1] s1]; [done|].
  destruct (negb (IsNotImplementedError e1)); [done|].
  destruct fCom as [f|]; [|by rewrite Hg].
  destruct (f args s1) as [[v|e2] s2]; [done|].
  destruct (negb (IsNotImplementedError e2)); [done|].
  by rewrite Hg.
Qed.

(** A communicator that is not the head, and has no head below it, resolves
    the interface listing by the three-step chain alone. *)
Lemma GetInterfaces_below_head (c : networkDeviceCommunicator St Args) :
  isHead c = false →
  Forall (λ p, isHead p = false) (parents c) →
  ∀ args s, GetInterfaces c args s = resolveInterfaces c args s.
Proof.
  induction c as [hd com cls|hd c' com cls IH]
    using networkDeviceCommunicator_chain_ind; intros Hc Hps args s.
  - simpl. rewrite Hc. simpl.
    by destruct (executeWithRecursion _ _ _ _ _) as [[res|err] s'].
  - apply Forall_cons in Hps as [Hc' Hps]. simpl. rewrite Hc. simpl.
    rewrite (executeWithRecursion_ext_sub _ _ (GetInterfaces c') (resolveInterfaces c'))
      by (intros s2; by apply IH).
    by destruct (executeWithRecursion _ _ _ _ _) as [[res|err] s'].
Qed.

(** C9: the finishing pass rewrites the speed of every interface that reports
    the 32-bit sentinel and has a high-capacity counter to that counter times
    1,000,000, a [uint64] product, which is the exact product while that is
    below 2^64 (as it is for every 32-bit counter value); and the pass runs
    at the head only: below the head [GetInterfaces] is the plain three-step
    chain, and at the head it is the plain chain followed by one run of the
    pass. *)
Theorem GetInterfaces_normalizes_once_at_head
    (c : networkDeviceCommunicator St Args) args s :
  Forall (λ p, isHead p = false) (parents c) →
  (∀ interfaces i interf highSpeed,
     interfaces !! i = Some interf →
     IfSpeed interf = Some MaxUint32 →
     IfHighSpeed interf = Some highSpeed →
     normalizeInterfaces interfaces !! i
     = Some (setIfSpeed interf (Some (uint64 (highSpeed * 1000000))))
     ∧ ((0 ≤ highSpeed * 1000000 < 2 ^ 64)%Z →
        normalizeInterfaces interfaces !! i
        = Some (setIfSpeed interf (Some (highSpeed * 1000000)%Z))))
  ∧ (isHead c = false → GetInterfaces c args s = resolveInterfaces c args s)
  ∧ (isHead c = true →
     hasAvailableComponent (deviceClass c) interfacesComponent = true →
     GetInterfaces c args s
     = ((Result_map normalizeInterfaces (resolveInterfaces c args s).1),
        (resolveInterfaces c args s).2)).
Proof.
  intros Hps. split; [|split].
  - intros interfaces i interf highSpeed Hi Hspeed Hhigh.
    rewrite normalizeInterfaces_fmap, list_lookup_fmap, Hi. simpl.
    unfold normalizeInterface. rewrite Hspeed, Hhigh. simpl.
    split; [done|]. intros Hrange. unfold uint64. by rewrite Z.mod_small.
  - intros Hc. by apply GetInterfaces_below_head.
  - intros Hc Hcomp.
    destruct c as [hd [c'|] com cls]; simpl in *; rewrite Hc, Hcomp; simpl.
    + apply Forall_cons in Hps as [Hc' Hps].
      rewrite (executeWithRecursion_ext_sub _ _ (GetInterfaces c') (resolveInterfaces c'))
        by (intros s2; by apply GetInterfaces_below_head).
      by destruct (executeWithRecursion _ _ _ _ _) as [[res|err] s'].
    + by destruct (executeWithRecursion _ _ _ _ _) as [[res|err] s'].
Qed.

End chain_facts.

(** * Properties of the device-class merge *)

Section merge_facts.
Import tholaerr network reader.

(** [merge] follows the merge rule under every label. *)
Lemma merge_lookup (base overlay : deviceClassOIDs) (k : string) :
  merge base overlay !! k = mergedAt (base !! k) (overlay !! k).
Proof.
  unfold merge. simpl.
  revert k. apply (map_fold_weak_ind
    (λ (r : deviceClassOIDs) (m : deviceClassOIDs),
       ∀ k, r !! k = mergedAt (base !! k) (m !! k))).
  - intros k. rewrite lookup_empty. unfold mergedAt.
    by destruct (base !! k) as [[]|].
  - intros i x m r Hi IH k.
    assert (r !! i = base !! i) as Hri.
    { rewrite IH, Hi. unfold mergedAt. by destruct (base !! i) as [[]|]. }
    rewrite Hri.
    destruct (decide (i = k)) as [->|Hik].
    + rewrite lookup_insert_eq. unfold mergedAt.
      destruct (base !! k) as [[dOld|oidsOld]|], x as [dNew|oidsNew];
        by rewrite lookup_insert_eq.
    + rewrite (lookup_insert_ne m) by done. rewrite <- IH.
      destruct (base !! i) as [[dOld|oidsOld]|], x as [dNew|oidsNew];
        by rewrite lookup_insert_ne.
Qed.

(** C7: under a label that both trees have, two subtrees are merged
    recursively and in every other case the overlay's reader replaces the
    base's, a subtree by a leaf and a leaf by a subtree included; a label
    that only one tree has keeps its reader. *)
Theorem merge_recursion_rule (base overlay : deviceClassOIDs) (k : string) :
  merge base overlay !! k
  = match base !! k, overlay !! k with
    | Some (oidGroup oidsOld), Some (oidGroup oidsOverwrite) =>
      Some (oidGroup (merge oidsOld oidsOverwrite))
    | _, Some v => Some v
    | old, None => old
    end.
Proof.
  rewrite merge_lookup. unfold mergedAt.
  by destruct (base !! k) as [[]|], (overlay !! k) as [[]|].
Qed.

End merge_facts.

(** * Properties of the property-group decoder *)

Section decoder_facts.
Import tholaerr network reader.
Local Open Scope list_scope.

Lemma smallestIndexOf_loop (smallest : Z) (indices : list Z) :
  (foldl (λ '(smallestIndex, firstRun) index,
            let smallestIndex := if firstRun : bool then index else smallestIndex in
            (if (index <? smallestIndex)%Z then index else smallestIndex, false))
         (smallest, false) indices).1
  = foldl Z.min smallest indices.
Proof.
  induction indices as [|x indices IH] in smallest |- *; [done|].
  simpl. rewrite <- IH. do 3 f_equal.
  destruct (Z.ltb_spec x smallest); lia.
Qed.

Lemma smallestIndexOf_cons (index : Z) (indices : list Z) :
  smallestIndexOf (index :: indices) = foldl Z.min index indices.
Proof.
  unfold smallestIndexOf. simpl. rewrite Z.ltb_irrefl.
  apply smallestIndexOf_loop.
Qed.

Lemma foldl_min_le (indices : list Z) (smallest : Z) :
  (foldl Z.min smallest indices ≤ smallest)%Z
  ∧ ∀ x, x ∈ indices → (foldl Z.min smallest indices ≤ x)%Z.
Proof.
  induction indices as [|y indices IH] in smallest |- *; simpl.
  - split; [lia|]. intros x Hx. by apply elem_of_nil in Hx.
  - destruct (IH (Z.min smallest y)) as [Hle Hall]. split; [lia|].
    intros x [->|Hx]%elem_of_cons; [lia|by apply Hall].
Qed.

Lemma foldl_min_elem (indices : list Z) (smallest : Z) :
  foldl Z.min smallest indices = smallest ∨ foldl Z.min smallest indices ∈ indices.
Proof.
  induction indices as [|y indices IH] in smallest |- *; simpl; [by left|].
  destruct (IH (Z.min smallest y)) as [->|Hin].
  - destruct (Z.min_spec smallest y) as [[_ ->]|[_ ->]]; [by left|].
    right. apply elem_of_cons. by left.
  - right. apply elem_of_cons. by right.
Qed.

(** The inner loop finds the smallest index, whatever order it visits them in. *)
Lemma smallestIndexOf_spec (indices : list Z) :
  indices ≠ [] →
  smallestIndexOf indices ∈ indices
  ∧ ∀ x, x ∈ indices → (smallestIndexOf indices ≤ x)%Z.
Proof.
  destruct indices as [|index indices]; [done|]. intros _.
  rewrite smallestIndexOf_cons.
  destruct (foldl_min_le indices index) as [Hle Hall]. split.
  - destruct (foldl_min_elem indices index) as [->|Hin]; apply elem_of_cons; auto.
  - intros x [->|Hx]%elem_of_cons; auto.
Qed.

Lemma StronglySorted_snoc (l : list Z) (x : Z) :
  StronglySorted Z.lt l → (∀ y, y ∈ l → (y < x)%Z) → StronglySorted Z.lt (l ++ [x]).
Proof.
  induction 1 as [|y l Hl IH Hy]; intros Hlt; simpl.
  - repeat constructor.
  - constructor.
    + apply IH. intros z Hz. apply Hlt. by apply elem_of_cons; right.
    + apply Forall_app. split; [done|].
      constructor; [|constructor]. apply Hlt. by apply elem_of_cons; left.
Qed.

(** The outer loop, started on the rows [rows] with the groups of [sorted]
    already taken out. *)
Lemma sortGroups_spec (n : nat) (rows : gmap Z (gmap string any))
    (sorted : list (Z * gmap string any)) :
  size rows = n →
  (∀ i j, i ∈ sorted.*1 → is_Some (rows !! j) → (i < j)%Z) →
  StronglySorted Z.lt sorted.*1 →
  ∃ pairs : list (Z * gmap string any),
    sortGroups n (anyMap <$> rows) sorted.*2 = Ok pairs.*2
    ∧ pairs ≡ₚ sorted ++ map_to_list rows
    ∧ StronglySorted Z.lt pairs.*1.
Proof.
  induction n as [|n IH] in rows, sorted |- *; intros Hsize Hlt Hsorted.
  - apply map_size_empty_inv in Hsize as ->. exists sorted. simpl.
    rewrite map_to_list_empty, app_nil_r. done.
  - simpl.
    assert ((map_to_list (anyMap <$> rows)).*1 ≠ []) as Hne.
    { intros Hnil%fmap_nil_inv%map_to_list_empty_iff%fmap_empty_inv.
      subst rows. by rewrite map_size_empty in Hsize. }
    destruct (smallestIndexOf_spec _ Hne) as [Hin Hmin].
    set (k := smallestIndexOf (map_to_list (anyMap <$> rows)).*1) in *.
    assert (∀ j, j ∈ (map_to_list (anyMap <$> rows)).*1 ↔ is_Some (rows !! j)) as Hkeys.
    { intros j. rewrite list_elem_of_fmap. split.
      - intros ([j' v] & -> & Hv%elem_of_map_to_list). simpl.
        rewrite lookup_fmap in Hv. by destruct (rows !! j').
      - intros [x Hx]. exists (j, anyMap x). split; [done|].
        apply elem_of_map_to_list. by rewrite lookup_fmap, Hx. }
    apply Hkeys in Hin as [x Hx].
    rewrite lookup_fmap, Hx. simpl. rewrite <- fmap_delete.
    destruct (IH (delete k rows) (sorted ++ [(k, x)])) as (pairs & Hrun & Hperm & Hs).
    + rewrite map_size_delete, Hx, Hsize. simpl. lia.
    + intros i j Hi [y Hy]. rewrite fmap_app in Hi.
      apply lookup_delete_Some in Hy as [Hkj Hy].
      apply elem_of_app in Hi as [Hi|Hi].
      * apply Hlt; eauto.
      * apply list_elem_of_singleton in Hi. simpl in Hi. subst i.
        assert (k ≤ j)%Z by (apply Hmin, Hkeys; eauto). lia.
    + rewrite fmap_app. apply StronglySorted_snoc; [done|].
      intros y Hy. apply Hlt; eauto.
    + exists pairs. rewrite fmap_app in Hrun. split; [done|]. split; [|done].
      rewrite Hperm, <- app_assoc. apply Permutation_app_head. simpl.
      by apply map_to_list_delete.
Qed.

(** A group always reads to a map of groups. *)
Lemma deviceClassOIDs_readOID_groups (d : deviceClassOIDs) ctx groups :
  deviceClassOIDs_readOID d ctx = Ok groups →
  ∃ rows : gmap Z (gmap string any), groups = anyMap <$> rows.
Proof.
  unfold deviceClassOIDs_readOID. simpl.
  destruct (readLabels _ _) as [rows|err]; simpl; intros ?; simplify_eq. eauto.
Qed.

(** C4: the decoder turns every grouped read result, a finite map from row
    index to record, into the sequence of its records in ascending order of
    row index, with every record and nothing else; and [getProperty] returns
    that sequence for what its reader returned, or the reader's error. *)
Theorem getProperty_sorted_by_index :
  (∀ rows : gmap Z (gmap string any),
     ∃ pairs : list (Z * gmap string any),
       sortGroups (size (anyMap <$> rows)) (anyMap <$> rows) [] = Ok pairs.*2
       ∧ pairs ≡ₚ map_to_list rows
       ∧ StronglySorted Z.lt pairs.*1)
  ∧ (∀ (s : snmpGroupPropertyReader) (ctx : context),
       match deviceClassOIDs_readOID (oids s) ctx with
       | Ok groups =>
         ∃ (rows : gmap Z (gmap string any)) (pairs : list (Z * gmap string any)),
           groups = anyMap <$> rows
           ∧ getProperty s ctx = Ok pairs.*2
           ∧ pairs ≡ₚ map_to_list rows
           ∧ StronglySorted Z.lt pairs.*1
       | Err err => getProperty s ctx = Err (errors.Wrap err "failed to read oids")
       end).
Proof.
  assert (∀ rows : gmap Z (gmap string any),
     ∃ pairs : list (Z * gmap string any),
       sortGroups (size (anyMap <$> rows)) (anyMap <$> rows) [] = Ok pairs.*2
       ∧ pairs ≡ₚ map_to_list rows
       ∧ StronglySorted Z.lt pairs.*1) as Hsort.
  { intros rows. rewrite map_size_fmap.
    destruct (sortGroups_spec (size rows) rows []) as (pairs & Hrun & Hperm & Hs);
      [done| |constructor|by exists pairs].
    intros i j Hi. by apply elem_of_nil in Hi. }
  split; [done|]. intros s ctx. unfold getProperty.
  destruct (deviceClassOIDs_readOID (oids s) ctx) as [groups|err] eqn:Hread; [|done].
  destruct (deviceClassOIDs_readOID_groups _ _ _ Hread) as [rows ->].
  destruct (Hsort rows) as (pairs & Hrun & Hperm & Hs). by exists rows, pairs.
Qed.

End decoder_facts.

(** * Properties of the query-tree reader *)

Section reader_facts.
Import tholaerr network reader.

Lemma addLabel_lookup (label : string) (res : gmap Z any)
    (result : gmap Z (gmap string any)) (i : Z) :
  addLabel label res result !! i
  = match res !! i with
    | Some v => Some (<[label := v]> (default ∅ (result !! i)))
    | None => result !! i
    end.
Proof.
  unfold addLabel. revert i.
  apply (map_fold_weak_ind (λ (r : gmap Z (gmap string any)) (m : gmap Z any),
    ∀ i, r !! i = match m !! i with
                  | Some v => Some (<[label := v]> (default ∅ (result !! i)))
                  | None => result !! i
                  end)).
  - intros i. by rewrite lookup_empty.
  - intros j x m r Hj IH i. destruct (decide (j = i)) as [->|Hji].
    + rewrite !lookup_insert_eq. by rewrite IH, Hj.
    + rewrite !lookup_insert_ne by done. apply IH.
Qed.

Lemma rowAt_insert_Ok label res (readers : gmap string (Result (gmap Z any))) i :
  readers !! label = None →
  rowAt (<[label := Ok res]> readers) i
  = match res !! i with
    | Some v => <[label := v]> (rowAt readers i)
    | None => rowAt readers i
    end.
Proof.
  intros Hlabel. unfold rowAt. rewrite omap_insert.
  destruct (res !! i); [done|].
  apply delete_id. by rewrite lookup_omap, Hlabel.
Qed.

Lemma rowAt_insert_Err label err (readers : gmap string (Result (gmap Z any))) i :
  readers !! label = None →
  rowAt (<[label := Err err]> readers) i = rowAt readers i.
Proof.
  intros Hlabel. unfold rowAt. rewrite omap_insert.
  apply delete_id. by rewrite lookup_omap, Hlabel.
Qed.

(** The outer loop over labels that all read, or are not found: whatever
    the order of the labels, the rows are those of [rowAt]. *)
Lemma readLabels_Ok (readers : list (string * Result (gmap Z any)))
    (result : gmap Z (gmap string any)) :
  NoDup readers.*1 →
  (∀ label err, (label, Err err) ∈ readers → IsNotFoundError err = true) →
  ∃ result', readLabels readers result = Ok result'
    ∧ ∀ i, result' !! i = extendRow (result !! i) (rowAt (list_to_map readers) i).
Proof.
  induction readers as [|[label [res|err]] readers IH] in result |- *;
    intros Hnodup Herr; simpl.
  - exists result. split; [done|]. intros i. unfold extendRow, rowAt.
    by rewrite omap_empty, decide_True.
  - apply NoDup_cons in Hnodup as [Hlabel Hnodup].
    destruct (IH (addLabel label res result) Hnodup) as (result' & Hrun & Hrows).
    { intros label' err' Hin. eapply Herr. apply elem_of_cons. by right. }
    exists result'. split; [done|]. intros i.
    rewrite Hrows, addLabel_lookup.
    rewrite rowAt_insert_Ok by by apply not_elem_of_list_to_map_1.
    set (row := rowAt (list_to_map readers) i).
    assert (row !! label = None) as Hrow.
    { unfold row, rowAt. rewrite lookup_omap.
      by rewrite (not_elem_of_list_to_map_1 _ _ Hlabel). }
    destruct (res !! i) as [v|]; [|done].
    unfold extendRow. rewrite (decide_False (P := <[label:=v]> row = ∅))
      by apply insert_non_empty.
    case_decide as Hempty.
    + rewrite Hempty. simpl. f_equal.
      by rewrite <- insert_union_l, (left_id_L ∅ (∪)).
    + simpl. f_equal. apply map_eq. intros l.
      destruct (decide (l = label)) as [->|Hl].
      * rewrite lookup_union_r by done.
        rewrite lookup_insert_eq.
        by rewrite (lookup_union_Some_l _ _ _ v) by apply lookup_insert_eq.
      * rewrite !lookup_union, !lookup_insert_ne by done.
        done.
  - apply NoDup_cons in Hnodup as [Hlabel Hnodup].
    rewrite (Herr label err) by (apply elem_of_cons; by left).
    destruct (IH result Hnodup) as (result' & Hrun & Hrows).
    { intros label' err' Hin. eapply Herr. apply elem_of_cons. by right. }
    exists result'. split; [done|]. intros i.
    rewrite Hrows. by rewrite rowAt_insert_Err by by apply not_elem_of_list_to_map_1.
Qed.

(** The outer loop when a label fails other than by not-found: the read
    fails, with the error of such a label. *)
Lemma readLabels_Err (readers : list (string * Result (gmap Z any)))
    (result : gmap Z (gmap string any)) :
  (∃ label err, (label, Err err) ∈ readers ∧ IsNotFoundError err = false) →
  ∃ label err, (label, Err err) ∈ readers ∧ IsNotFoundError err = false
    ∧ readLabels readers result
      = Err (errors.Wrap err ("failed to get value '" ++ label ++ "'")).
Proof.
  induction readers as [|[label [res|err]] readers IH] in result |- *;
    intros (label' & err' & Hin & Hkind); simpl.
  - by apply elem_of_nil in Hin.
  - apply elem_of_cons in Hin as [?|Hin]; [done|].
    destruct (IH (addLabel label res result)) as (l & e & Hl & He & Hrun); [eauto|].
    exists l, e. split; [apply elem_of_cons; by right|done].
  - destruct (IsNotFoundError err) eqn:Herr.
    + apply elem_of_cons in Hin as [?|Hin]; [congruence|].
      destruct (IH result) as (l & e & Hl & He & Hrun); [eauto|].
      exists l, e. split; [apply elem_of_cons; by right|done].
    + exists label, err. split; [apply elem_of_cons; by left|done].
Qed.

Lemma rowAt_lookup (readers : gmap string (Result (gmap Z any))) i label v :
  rowAt readers i !! label = Some v
  ↔ ∃ res, readers !! label = Some (Ok res) ∧ res !! i = Some v.
Proof.
  unfold rowAt. rewrite lookup_omap.
  destruct (readers !! label) as [[res|err]|]; simpl; split;
    try (intros (? & ? & ?)); try intros ?; simplify_eq; eauto.
Qed.

(** C5: a group whose labels all read, or are not found, reads to one row
    per index that some label has a value at, the row holding exactly the
    labels with a value at that index; labels that are not found are left
    out. A label that fails in any other way fails the read of the group,
    with the error of such a label. *)
Theorem deviceClassOIDs_readOID_rows (d : deviceClassOIDs) (ctx : context) :
  let readers := (λ reader, readOID reader ctx) <$> d in
  ((∀ label err, readers !! label = Some (Err err) → IsNotFoundError err = true) →
     ∃ rows : gmap Z (gmap string any),
       deviceClassOIDs_readOID d ctx = Ok (anyMap <$> rows)
       ∧ (∀ i, rows !! i
               = if decide (rowAt readers i = ∅) then None else Some (rowAt readers i))
       ∧ (∀ i row label v, rows !! i = Some row →
            (row !! label = Some v
             ↔ ∃ res, readers !! label = Some (Ok res) ∧ res !! i = Some v)))
  ∧ ((∃ label err, readers !! label = Some (Err err) ∧ IsNotFoundError err = false) →
     ∃ label err, readers !! label = Some (Err err) ∧ IsNotFoundError err = false
       ∧ deviceClassOIDs_readOID d ctx
         = Err (errors.Wrap err ("failed to get value '" ++ label ++ "'"))).
Proof.
  intros readers. unfold deviceClassOIDs_readOID. simpl. fold readers. split.
  - intros Herr.
    destruct (readLabels_Ok (map_to_list readers) ∅) as (rows & Hrun & Hrows).
    { apply NoDup_fst_map_to_list. }
    { intros label err Hin%elem_of_map_to_list. eauto. }
    exists rows. rewrite Hrun. split; [done|].
    assert (∀ i, rows !! i
      = if decide (rowAt readers i = ∅) then None else Some (rowAt readers i)) as Hi.
    { intros i. rewrite Hrows, list_to_map_to_list, lookup_empty.
      unfold extendRow. case_decide; [done|]. simpl.
      by rewrite (right_id_L ∅ (∪)). }
    split; [done|]. intros i row label v Hrow. rewrite Hi in Hrow.
    case_decide; [done|]. simplify_eq. apply rowAt_lookup.
  - intros (label & err & Hin & Hkind).
    destruct (readLabels_Err (map_to_list readers) ∅) as (l & e & Hl & He & Hrun).
    { exists label, err. by rewrite elem_of_map_to_list. }
    exists l, e. rewrite Hrun. by apply elem_of_map_to_list in Hl.
Qed.

(** ** The leaf reader *)

Lemma readResponses_Ok (d : deviceClassOID) ctx (snmpResponse : list SNMPResponse)
    (result result' : gmap Z any) :
  readResponses d ctx snmpResponse result = Ok result' →
  Forall (λ response, rowSkipped d response
                      ∨ ∃ index v, rowReads d ctx response index v) snmpResponse
  ∧ (∀ response index v, response ∈ snmpResponse →
       rowReads d ctx response index v → is_Some (result' !! index))
  ∧ (∀ index, is_Some (result !! index) → is_Some (result' !! index))
  ∧ (∀ index x, result' !! index = Some x →
       result !! index = Some x
       ∨ ∃ response v, response ∈ snmpResponse
           ∧ rowReads d ctx response index v ∧ x = anyValue v).
Proof.
  induction snmpResponse as [|response rest IH] in result |- *; simpl; intros Hrun.
  - simplify_eq. repeat split; [constructor| |done|by left].
    intros ??? Hin. by apply elem_of_nil in Hin.
  - destruct (GetValueBySNMPGetConfiguration response _) as [res|err] eqn:Hres;
      [|done].
    case_bool_decide as Hempty.
    + destruct (apply _ _ _) as [resNormalized|err] eqn:Hop; [|done].
      destruct (strconv.Atoi _) as [index|err] eqn:Hindex; [|done].
      destruct (IH _ Hrun) as (Hall & Hin & Hkeep & Hfrom).
      assert (rowReads d ctx response index resNormalized) as Hthis
        by (by exists res).
      repeat split.
      * constructor; [right; eauto|done].
      * intros r i v [->|Hr]%elem_of_cons Hreads; [|by eapply Hin].
        destruct Hreads as (res' & Hres' & _ & Hop' & Hindex').
        rewrite Hres in Hres'. simplify_eq.
        rewrite Hindex in Hindex'. simplify_eq.
        apply Hkeep. rewrite lookup_insert_eq. eauto.
      * intros i Hi. apply Hkeep.
        destruct (decide (index = i)) as [->|?];
          [rewrite lookup_insert_eq; eauto|by rewrite lookup_insert_ne].
      * intros i x Hx. destruct (Hfrom i x Hx) as [Hold|(r & v & Hr & Hreads & ->)].
        -- destruct (decide (index = i)) as [->|?].
           ++ rewrite lookup_insert_eq in Hold. simplify_eq.
              right. exists response, resNormalized.
              split; [apply elem_of_cons; by left|done].
           ++ rewrite lookup_insert_ne in Hold by done. by left.
        -- right. exists r, v. split; [apply elem_of_cons; by right|done].
    + subst res.
      destruct (IH _ Hrun) as (Hall & Hin & Hkeep & Hfrom).
      repeat split; [constructor; [by left|done]| |done|].
      * intros r i v [->|Hr]%elem_of_cons Hreads; [|by eapply Hin].
        destruct Hreads as (res' & Hres' & Hne & _). rewrite Hres in Hres'.
        by simplify_eq.
      * intros i x Hx. destruct (Hfrom i x Hx) as [Hold|(r & v & Hr & Hreads & ->)];
          [by left|].
        right. exists r, v. split; [apply elem_of_cons; by right|done].
Qed.

Lemma readResponses_total (d : deviceClassOID) ctx (snmpResponse : list SNMPResponse)
    (result : gmap Z any) :
  Forall (λ response, rowSkipped d response
                      ∨ ∃ index v, rowReads d ctx response index v) snmpResponse →
  ∃ result', readResponses d ctx snmpResponse result = Ok result'.
Proof.
  induction 1 as [|response rest Hrow Hrest IH] in result |- *; simpl; [eauto|].
  destruct Hrow as [Hskip|(index & v & res & Hres & Hne & Hop & Hindex)].
  - unfold rowSkipped in Hskip. rewrite Hskip.
    rewrite bool_decide_eq_false_2 by (by intros ?). apply IH.
  - rewrite Hres, bool_decide_eq_true_2, Hop, Hindex by done. apply IH.
Qed.

(** C3 (as amended): when the walk succeeds, the leaf read succeeds exactly
    when every response either has the empty value, and is skipped, or has a
    value that the operator pipeline normalizes and a trailing path
    component that is an integer. A response with a value that is not empty
    whose pipeline fails, or whose trailing component is not an integer,
    therefore fails the whole read; and a read that succeeds holds a value at
    the index of every response that was not skipped, and nothing else. *)
Theorem deviceClassOID_readOID_all_rows_or_error (d : deviceClassOID) (ctx : context)
    (client : SNMPClient) (snmpResponse : list SNMPResponse) :
  snmpClient ctx = Some client →
  SNMPWalk client (OID (SNMPGetConfiguration_ d)) = Ok snmpResponse →
  ((∃ result, deviceClassOID_readOID d ctx = Ok result)
   ↔ Forall (λ response, rowSkipped d response
                         ∨ ∃ index v, rowReads d ctx response index v) snmpResponse)
  ∧ (∀ response res, response ∈ snmpResponse →
       GetValueBySNMPGetConfiguration response (SNMPGetConfiguration_ d) = Ok res →
       res ≠ "" →
       (∃ err, apply (operators d) ctx (value.New res) = Err err)
       ∨ (∃ err, strconv.Atoi (lastPart (strings.Split (GetOID response) "."))
                 = Err err) →
       ∃ err, deviceClassOID_readOID d ctx = Err err)
  ∧ (∀ result, deviceClassOID_readOID d ctx = Ok result →
       (∀ response index v, response ∈ snmpResponse →
          rowReads d ctx response index v → is_Some (result !! index))
       ∧ (∀ index x, result !! index = Some x →
            ∃ response v, response ∈ snmpResponse
              ∧ rowReads d ctx response index v ∧ x = anyValue v)).
Proof.
  intros Hclient Hwalk. unfold deviceClassOID_readOID. rewrite Hclient, Hwalk.
  split; [|split].
  - split.
    + intros [result Hrun]. by apply readResponses_Ok in Hrun as (? & _).
    + apply readResponses_total.
  - intros response res Hin Hres Hne Hfail.
    destruct (readResponses d ctx snmpResponse ∅) as [result|err] eqn:Hrun; [|eauto].
    apply readResponses_Ok in Hrun as (Hall & _). exfalso.
    rewrite Forall_forall in Hall.
    destruct (Hall response Hin) as [Hskip|(index & v & res' & Hres' & _ & Hop & Hindex)].
    + unfold rowSkipped in Hskip. rewrite Hres in Hskip. by simplify_eq.
    + rewrite Hres in Hres'. simplify_eq.
      destruct Hfail as [[err Herr]|[err Herr]]; congruence.
  - intros result Hrun.
    apply readResponses_Ok in Hrun as (_ & Hin & _ & Hfrom). split; [done|].
    intros index x Hx. destruct (Hfrom index x Hx) as [Hempty|?]; [|done].
    by rewrite lookup_empty in Hempty.
Qed.

End reader_facts.

(** * Properties of the SAS-T correlation pass *)

Section strings_facts.

Lemma Split_nonempty (s : string) (sep : ascii) : strings.Split s sep ≠ [].
Proof.
  destruct s as [|c s]; simpl; [done|].
  case_bool_decide; [done|]. by destruct (strings.Split s sep).
Qed.

Lemma Split_free (s : string) (sep : ascii) :
  strings.free sep s = true → strings.Split s sep = [s].
Proof.
  induction s as [|c s IH]; simpl; [done|].
  intros [Hc Hs]%andb_prop. apply negb_true_iff in Hc. rewrite Hc.
  by rewrite (IH Hs).
Qed.

(** Splitting at a separator splits each side. *)
Lemma Split_app (s1 s2 : string) (sep : ascii) :
  strings.Split (s1 ++ String sep s2) sep
  = (strings.Split s1 sep ++ strings.Split s2 sep)%list.
Proof.
  induction s1 as [|c s1 IH]; simpl.
  - by rewrite bool_decide_eq_true_2.
  - case_bool_decide; [by rewrite IH|].
    rewrite IH.
    pose proof (Split_nonempty s1 sep).
    by destruct (strings.Split s1 sep).
Qed.

Lemma stripPrefix_app (prefix s : string) :
  strings.stripPrefix prefix (prefix ++ s) = Some s.
Proof.
  induction prefix as [|c prefix IH]; simpl; [done|].
  by rewrite bool_decide_eq_true_2.
Qed.

Lemma TrimPrefix_app (prefix s : string) : strings.TrimPrefix (prefix ++ s) prefix = s.
Proof. unfold strings.TrimPrefix. by rewrite stripPrefix_app. Qed.

End strings_facts.

Section timos_facts.
Import tholaerr device network timos_sas.
Local Open Scope list_scope.

Variable getCounterFromSnmpGet : context → string → Result Z.

Local Abbreviation hasIfIndex := (λ interf : Interface, is_Some (IfIndex interf)).

(** A row of the secondary table splits into the three segments behind the
    table's path, of which the last two are the two trailing segments of the
    whole path. *)
Lemma wellFormedRow_suffix (response : SNMPResponse) svc physIndex subID :
  GetOID response
  = (sapDescriptionsOID ++ "." ++ svc ++ "." ++ physIndex ++ "." ++ subID)%string →
  strings.free "." svc = true →
  strings.free "." physIndex = true →
  strings.free "." subID = true →
  sapSuffix response = [""; svc; physIndex; subID]
  ∧ trailingTwo (GetOID response) = Some (physIndex, subID).
Proof.
  intros Hoid Hsvc Hphys Hsub. unfold sapSuffix, trailingTwo. rewrite Hoid. split.
  - rewrite TrimPrefix_app.
    change ("." ++ svc ++ "." ++ physIndex ++ "." ++ subID)%string
      with ("" ++ String "." (svc ++ String "." (physIndex ++ String "." subID)))%string.
    rewrite !Split_app. rewrite !Split_free by done. reflexivity.
  - change (sapDescriptionsOID ++ "." ++ svc ++ "." ++ physIndex ++ "." ++ subID)%string
      with (sapDescriptionsOID
            ++ String "." (svc ++ String "." (physIndex ++ String "." subID)))%string.
    rewrite !Split_app.
    rewrite (Split_free svc), (Split_free physIndex), (Split_free subID) by done.
    rewrite !reverse_app. reflexivity.
Qed.

(** The search returns the first interface whose [IfIndex] is the sub-index,
    an error when there is none, and does not panic on interfaces that all
    have an [IfIndex]. *)
Lemma getInterfaceBySubIndex_from_spec (n : nat) (subIndex : Z)
    (interfaces : list Interface) :
  Forall hasIfIndex interfaces →
  (∃ i interf, getInterfaceBySubIndex_from n subIndex interfaces = Returns (Ok (n + i)%nat)
     ∧ interfaces !! i = Some interf
     ∧ IfIndex interf = Some subIndex
     ∧ ∀ j x, (j < i)%nat → interfaces !! j = Some x → IfIndex x ≠ Some subIndex)
  ∨ (∃ err, getInterfaceBySubIndex_from n subIndex interfaces = Returns (Err err)
       ∧ Forall (λ x, IfIndex x ≠ Some subIndex) interfaces).
Proof.
  induction 1 as [|iface rest [ifIndex Hindex] Hrest IH] in n |- *; simpl.
  - right. eexists. split; [done|constructor].
  - rewrite Hindex. destruct (Z.eqb_spec ifIndex subIndex) as [->|Hne].
    + left. exists 0%nat, iface. rewrite Nat.add_0_r. repeat split; [done|].
      intros j x Hj. lia.
    + destruct (IH (S n)) as [(i & interf & Hrun & Hi & Hmatch & Hfirst)
                             |(err & Hrun & Hnone)].
      * left. exists (S i), interf. rewrite Hrun. repeat split; [f_equal; f_equal; lia|done|done|].
        intros [|j] x Hj Hx; simpl in Hx.
        -- simplify_eq. congruence.
        -- eapply Hfirst; [|done]. lia.
      * right. exists err. split; [done|]. constructor; [congruence|done].
Qed.

Lemma getInterfaceBySubIndex_spec (subIndex : Z) (interfaces : list Interface) :
  Forall hasIfIndex interfaces →
  (∃ i interf, getInterfaceBySubIndex subIndex interfaces = Returns (Ok i)
     ∧ interfaces !! i = Some interf
     ∧ IfIndex interf = Some subIndex
     ∧ ∀ j x, (j < i)%nat → interfaces !! j = Some x → IfIndex x ≠ Some subIndex)
  ∨ (∃ err, getInterfaceBySubIndex subIndex interfaces = Returns (Err err)
       ∧ Forall (λ x, IfIndex x ≠ Some subIndex) interfaces).
Proof. apply (getInterfaceBySubIndex_from_spec 0). Qed.

(** The search only looks at the [IfIndex] of the interfaces. *)
Lemma getInterfaceBySubIndex_from_IfIndex n subIndex (l1 l2 : list Interface) :
  IfIndex <$> l1 = IfIndex <$> l2 →
  getInterfaceBySubIndex_from n subIndex l1 = getInterfaceBySubIndex_from n subIndex l2.
Proof.
  revert n l2. induction l1 as [|x l1 IH]; intros n [|y l2] Heq; simplify_eq/=; [done|].
  rewrite H. destruct (IfIndex y) as [ifIndex|]; [|done].
  destruct (ifIndex =? subIndex)%Z; [done|]. by apply IH.
Qed.

Lemma rowCorrelates_IfIndex ctx (l1 l2 : list Interface) response i sap :
  IfIndex <$> l1 = IfIndex <$> l2 →
  rowCorrelates getCounterFromSnmpGet ctx l1 response i sap →
  rowCorrelates getCounterFromSnmpGet ctx l2 response i sap.
Proof.
  intros Heq (svc & physIndex & subID & subIndex & inbound & outbound
              & ? & ? & ? & Hsearch & ? & ? & ?).
  exists svc, physIndex, subID, subIndex, inbound, outbound.
  unfold getInterfaceBySubIndex in *.
  by rewrite <- (getInterfaceBySubIndex_from_IfIndex _ _ _ _ Heq).
Qed.

Lemma setSAP_setSAP interf sap1 sap2 : setSAP (setSAP interf sap1) sap2 = setSAP interf sap2.
Proof. done. Qed.

Lemma alter_setSAP_IfIndex (interfaces : list Interface) i sap :
  IfIndex <$> alter (λ interf, setSAP interf sap) i interfaces = IfIndex <$> interfaces.
Proof.
  apply list_eq. intros j. rewrite !list_lookup_fmap.
  destruct (decide (i = j)) as [->|Hij].
  - rewrite list_lookup_alter_eq. by destruct (interfaces !! j).
  - by rewrite list_lookup_alter_ne.
Qed.

Lemma hasIfIndex_IfIndex (l1 l2 : list Interface) :
  IfIndex <$> l1 = IfIndex <$> l2 → Forall hasIfIndex l1 → Forall hasIfIndex l2.
Proof.
  intros Heq Hl1. apply Forall_lookup. intros j y Hy.
  assert ((IfIndex <$> l2) !! j = Some (IfIndex y)) as H2
    by by rewrite list_lookup_fmap, Hy.
  rewrite <- Heq, list_lookup_fmap in H2.
  destruct (l1 !! j) as [x|] eqn:Hx; simplify_eq/=.
  rewrite <- H2. by eapply (Forall_lookup_1 _ _ _ _ Hl1).
Qed.

(** One round of the loop on a row of the table: the row correlates and its
    counters are attached, or the round returns an error. *)
Lemma sapRow_spec ctx (response : SNMPResponse) (interfaces : list Interface) :
  wellFormedRow response →
  Forall hasIfIndex interfaces →
  (∃ i sap, rowCorrelates getCounterFromSnmpGet ctx interfaces response i sap
     ∧ sapRow getCounterFromSnmpGet ctx response interfaces
       = Returns (Ok (alter (λ interf, setSAP interf (Some sap)) i interfaces)))
  ∨ ((∀ i sap, ¬ rowCorrelates getCounterFromSnmpGet ctx interfaces response i sap)
     ∧ ∃ err, sapRow getCounterFromSnmpGet ctx response interfaces = Returns (Err err)).
Proof.
  intros (svc & physIndex & subID & Hoid & Hsvc & Hphys & Hsub) Hindex.
  destruct (wellFormedRow_suffix _ _ _ _ Hoid Hsvc Hphys Hsub) as [Hsuffix Htrailing].
  unfold sapRow. rewrite Hsuffix. simpl.
  assert (∀ i sap, rowCorrelates getCounterFromSnmpGet ctx interfaces response i sap →
    ∃ subIndex inbound outbound,
      strconv.ParseUint (physIndex ++ subID) = Ok subIndex
      ∧ getInterfaceBySubIndex subIndex interfaces = Returns (Ok i)
      ∧ getCounterFromSnmpGet ctx
          (inboundOID ++ svc ++ "." ++ physIndex ++ "." ++ subID)%string = Ok inbound
      ∧ getCounterFromSnmpGet ctx
          (outboundOID ++ svc ++ "." ++ physIndex ++ "." ++ subID)%string = Ok outbound)
    as Hinv.
  { intros i sap (svc' & physIndex' & subID' & subIndex & inbound & outbound
                  & Hsuffix' & _ & ? & ? & ? & ? & _).
    rewrite Hsuffix in Hsuffix'. simplify_eq. eauto 10. }
  destruct (strconv.ParseUint (physIndex ++ subID)) as [subIndex|err] eqn:Hparse.
  2:{ right. split; [|eauto]. intros i sap (? & ? & ? & ? & _)%Hinv. done. }
  destruct (getInterfaceBySubIndex_spec subIndex interfaces Hindex)
    as [(i & interf & Hsearch & Hi & Hmatch & Hfirst)|(err & Hsearch & Hnone)];
    rewrite Hsearch.
  2:{ right. split; [|eauto].
      intros i sap (? & ? & ? & ? & Hs & _)%Hinv. simplify_eq. congruence. }
  destruct (getCounterFromSnmpGet ctx _) as [inbound|err] eqn:Hin.
  2:{ right. split; [|eauto].
      intros j sap (? & ? & ? & ? & Hs & Hin' & _)%Hinv. congruence. }
  destruct (getCounterFromSnmpGet ctx (outboundOID ++ _)) as [outbound|err] eqn:Hout.
  2:{ right. split; [|eauto].
      intros j sap (? & ? & ? & ? & Hs & Hin' & Hout')%Hinv. congruence. }
  left. exists i, {| Inbound := Some inbound; Outbound := Some outbound |}.
  split; [|done].
  exists svc, physIndex, subID, subIndex, inbound, outbound. done.
Qed.
Lemma sapRows_spec ctx (rows : list SNMPResponse) (interfaces : list Interface) :
  Forall wellFormedRow rows →
  Forall hasIfIndex interfaces →
  (∃ res, sapRows getCounterFromSnmpGet ctx rows interfaces = Returns (Ok res)
     ∧ IfIndex <$> res = IfIndex <$> interfaces
     ∧ Forall (λ response, ∃ i sap,
         rowCorrelates getCounterFromSnmpGet ctx interfaces response i sap) rows
     ∧ (∀ response i sap, response ∈ rows →
          rowCorrelates getCounterFromSnmpGet ctx interfaces response i sap →
          attachedAt getCounterFromSnmpGet ctx rows interfaces res i)
     ∧ (∀ j, res !! j = interfaces !! j ∨ attachedAt getCounterFromSnmpGet ctx rows interfaces res j))
  ∨ (∃ err, sapRows getCounterFromSnmpGet ctx rows interfaces = Returns (Err err)
       ∧ Exists (λ response, ∀ i sap,
           ¬ rowCorrelates getCounterFromSnmpGet ctx interfaces response i sap) rows).
Proof.
  induction 1 as [|response rest Hrow Hrest IH] in interfaces |- *; intros Hindex; simpl.
  - left. exists interfaces. repeat split; [constructor| |by left].
    intros ??? Hin. by apply elem_of_nil in Hin.
  - destruct (sapRow_spec ctx response interfaces Hrow Hindex)
      as [(i & sap & Hcorr & ->)|(Hnone & err & ->)].
    2:{ right. exists err. split; [done|]. by constructor. }
    set (cur := alter (λ interf, setSAP interf (Some sap)) i interfaces).
    assert (IfIndex <$> cur = IfIndex <$> interfaces) as Hcur
      by apply alter_setSAP_IfIndex.
    assert (∃ interf, interfaces !! i = Some interf) as [interf Hi].
    { destruct Hcorr as (? & ? & ? & subIndex & ? & ? & _ & _ & _ & Hsearch & _).
      destruct (getInterfaceBySubIndex_spec subIndex interfaces Hindex)
        as [(i' & y & Hs & Hy & _)|(err0 & Hs & _)]; rewrite Hs in Hsearch;
        simplify_eq. eauto. }
    assert (cur !! i = Some (setSAP interf (Some sap))) as Hcuri.
    { unfold cur. by rewrite list_lookup_alter_eq, Hi. }
    assert (∀ rows' res j, attachedAt getCounterFromSnmpGet ctx rows' cur res j → rows' ⊆ rest →
              attachedAt getCounterFromSnmpGet ctx (response :: rest) interfaces res j) as Hlift.
    { intros rows' res j (x0 & r & s & Hx & Hr & Hc & Hres) Hsub.
      apply (rowCorrelates_IfIndex _ _ _ _ _ _ Hcur) in Hc.
      destruct (decide (i = j)) as [<-|Hij].
      - rewrite Hcuri in Hx. simplify_eq. exists interf, r, s.
        repeat split; [done|apply elem_of_cons; right; by apply Hsub|done|done].
      - exists x0, r, s. unfold cur in Hx. rewrite list_lookup_alter_ne in Hx by done.
        repeat split; [done|apply elem_of_cons; right; by apply Hsub|done|done]. }
    destruct (IH cur) as [(res & -> & Hres & Hall & Hatt & Hother)|(err & -> & Hex)].
    { by eapply hasIfIndex_IfIndex. }
    + left. exists res. split; [done|]. split; [congruence|].
      assert (∀ j, res !! j = interfaces !! j
                   ∨ attachedAt getCounterFromSnmpGet ctx (response :: rest) interfaces res j) as Hother'.
      { intros j. destruct (Hother j) as [Hj|Hj]; [|right; by eapply Hlift].
        destruct (decide (i = j)) as [<-|Hij].
        - right. exists interf, response, sap.
          repeat split; [done|apply elem_of_cons; by left|done|congruence].
        - left. rewrite Hj. unfold cur. by rewrite list_lookup_alter_ne. }
      repeat split.
      * constructor; [eauto|]. eapply Forall_impl; [exact Hall|]. simpl.
        intros r (j & s & Hc). exists j, s.
        by apply (rowCorrelates_IfIndex _ _ _ _ _ _ Hcur).
      * intros r j s [->|Hr]%elem_of_cons Hc.
        -- assert (j = i) as ->.
           { destruct Hc as (? & ? & ? & ? & ? & ? & Hs1 & _ & Hp1 & Hg1 & _).
             destruct Hcorr as (? & ? & ? & ? & ? & ? & Hs2 & _ & Hp2 & Hg2 & _).
             rewrite Hs1 in Hs2. simplify_eq. rewrite Hp1 in Hp2. simplify_eq.
             rewrite Hg1 in Hg2. by simplify_eq. }
           destruct (Hother' i) as [Hj|Hj]; [|done].
           destruct (Hother i) as [Hk|Hk]; [|by eapply Hlift].
           exists interf, response, sap.
           repeat split; [done|apply elem_of_cons; by left|done|congruence].
        -- eapply Hlift; [|done]. eapply Hatt; [done|].
           by apply (rowCorrelates_IfIndex ctx interfaces cur).
      * done.
    + right. exists err. split; [done|]. apply Exists_cons. right.
      eapply Exists_impl; [exact Hex|]. simpl. intros r Hnone j s Hc.
      apply (Hnone j s). by apply (rowCorrelates_IfIndex ctx interfaces cur).
Qed.
(** C10: on the rows of the secondary table and interfaces that have an
    [IfIndex], the pass does not panic. A row correlates through the
    sub-index parsed from its two trailing path segments put together, which
    is the [IfIndex] of the interface it is matched with. Either every row
    correlates, and the listing is returned with the inbound and outbound
    counters of a correlating row attached to each matched interface and
    the other interfaces as they were; or some row does not correlate and
    the whole fetch returns an error. In particular a row whose sub-index is
    the [IfIndex] of no interface, or one of whose two counter lookups fails
    (for whatever reason), makes the fetch return an error. *)
Theorem GetInterfaces_correlates_or_fails (c : timosSASCommunicator) (ctx : context)
    (interfaces : list Interface) (client : SNMPClient) (rows : list SNMPResponse) :
  sub_GetInterfaces c ctx = Ok interfaces →
  snmpClient ctx = Some client →
  SNMPWalk client sapDescriptionsOID = Ok rows →
  Forall wellFormedRow rows →
  Forall hasIfIndex interfaces →
  (∀ response i sap,
     rowCorrelates getCounterFromSnmpGet ctx interfaces response i sap →
     ∃ physIndex subID subIndex interf,
       trailingTwo (GetOID response) = Some (physIndex, subID)
       ∧ strconv.ParseUint (physIndex ++ subID) = Ok subIndex
       ∧ interfaces !! i = Some interf
       ∧ IfIndex interf = Some subIndex)
  ∧ ((∃ res, GetInterfaces getCounterFromSnmpGet c ctx = Returns (Ok res)
        ∧ Forall (λ response, ∃ i sap,
            rowCorrelates getCounterFromSnmpGet ctx interfaces response i sap) rows
        ∧ (∀ response i sap, response ∈ rows →
             rowCorrelates getCounterFromSnmpGet ctx interfaces response i sap →
             attachedAt getCounterFromSnmpGet ctx rows interfaces res i)
        ∧ (∀ j, res !! j = interfaces !! j
                ∨ attachedAt getCounterFromSnmpGet ctx rows interfaces res j))
     ∨ (∃ err, GetInterfaces getCounterFromSnmpGet c ctx = Returns (Err err)
          ∧ Exists (λ response, ∀ i sap,
              ¬ rowCorrelates getCounterFromSnmpGet ctx interfaces response i sap) rows))
  ∧ (∀ response physIndex subID subIndex,
       response ∈ rows →
       trailingTwo (GetOID response) = Some (physIndex, subID) →
       strconv.ParseUint (physIndex ++ subID) = Ok subIndex →
       Forall (λ interf, IfIndex interf ≠ Some subIndex) interfaces →
       ∃ err, GetInterfaces getCounterFromSnmpGet c ctx = Returns (Err err))
  ∧ (∀ response svc physIndex subID err,
       response ∈ rows →
       sapSuffix response = [""; svc; physIndex; subID] →
       getCounterFromSnmpGet ctx
         (inboundOID ++ svc ++ "." ++ physIndex ++ "." ++ subID)%string = Err err
       ∨ getCounterFromSnmpGet ctx
           (outboundOID ++ svc ++ "." ++ physIndex ++ "." ++ subID)%string = Err err →
       ∃ err', GetInterfaces getCounterFromSnmpGet c ctx = Returns (Err err')).
Proof.
  intros Hsub Hclient Hwalk Hrows Hindex.
  assert (GetInterfaces getCounterFromSnmpGet c ctx
          = sapRows getCounterFromSnmpGet ctx rows interfaces) as ->.
  { unfold GetInterfaces. by rewrite Hsub, Hclient, Hwalk. }
  assert (∀ response, response ∈ rows →
    (∀ i sap, ¬ rowCorrelates getCounterFromSnmpGet ctx interfaces response i sap) →
    ∃ err, sapRows getCounterFromSnmpGet ctx rows interfaces = Returns (Err err))
    as Hfail.
  { intros response Hin Hnone.
    destruct (sapRows_spec ctx rows interfaces Hrows Hindex)
      as [(res & _ & _ & Hall & _)|(err & Hrun & _)]; [|eauto].
    rewrite Forall_forall in Hall.
    destruct (Hall response Hin) as (i & sap & Hcorr). by destruct (Hnone i sap). }
  split; [|split; [|split]].
  - intros response i sap (svc & physIndex & subID & subIndex & inbound & outbound
                           & _ & Htrailing & Hparse & Hsearch & _).
    destruct (getInterfaceBySubIndex_spec subIndex interfaces Hindex)
      as [(i' & interf & Hs & Hi & Hmatch & _)|(err & Hs & _)];
      rewrite Hs in Hsearch; simplify_eq.
    by exists physIndex, subID, subIndex, interf.
  - destruct (sapRows_spec ctx rows interfaces Hrows Hindex)
      as [(res & Hrun & _ & Hall & Hatt & Hother)|(err & Hrun & Hex)].
    + left. by exists res.
    + right. by exists err.
  - intros response physIndex subID subIndex Hin Htrailing Hparse Hnone.
    apply (Hfail response Hin).
    intros i sap (svc & physIndex' & subID' & subIndex' & inbound & outbound
                  & _ & Htrailing' & Hparse' & Hsearch & _).
    rewrite Htrailing in Htrailing'. simplify_eq.
    rewrite Hparse in Hparse'. simplify_eq.
    destruct (getInterfaceBySubIndex_spec subIndex' interfaces Hindex)
      as [(i' & interf & Hs & Hi & Hmatch & _)|(err & Hs & _)];
      rewrite Hs in Hsearch; simplify_eq.
    rewrite Forall_forall in Hnone.
    apply (Hnone interf); [|done]. by eapply list_elem_of_lookup_2.
  - intros response svc physIndex subID err Hin Hsuffix Herr.
    apply (Hfail response Hin).
    intros i sap (svc' & physIndex' & subID' & subIndex' & inbound & outbound
                  & Hsuffix' & _ & _ & _ & Hinb & Hout & _).
    rewrite Hsuffix in Hsuffix'. simplify_eq.
    destruct Herr; congruence.
Qed.

End timos_facts.

(** * Properties of the merge on the heap *)

Section store_facts.
Import tholaerr network reader store.

Lemma depth_lookup (d : deviceClassOIDs) (k : string) (reader : oidReader) :
  d !! k = Some reader → (depth reader < depth (oidGroup d))%nat.
Proof.
  simpl. intros Hk. apply Nat.lt_succ_r. revert k reader Hk.
  apply (map_fold_weak_ind (λ (acc : nat) (m : deviceClassOIDs),
    ∀ k reader, m !! k = Some reader → (depth reader ≤ acc)%nat)).
  - intros k reader. by rewrite lookup_empty.
  - intros i x m acc Hi IH k reader Hk.
    apply lookup_insert_Some in Hk as [[-> ->]|[_ Hk]]; [lia|].
    specialize (IH k reader Hk). lia.
Qed.

(** Induction on a tree of readers: a group has the property when all the
    readers under its labels have it. *)
Lemma oidReader_tree_ind (P : oidReader → Prop) :
  (∀ d, P (oidLeaf d)) →
  (∀ d : deviceClassOIDs, (∀ k reader, d !! k = Some reader → P reader) → P (oidGroup d)) →
  ∀ reader, P reader.
Proof.
  intros Hleaf Hgroup reader.
  remember (depth reader) as n eqn:Hn. revert reader Hn.
  induction n as [n IH] using lt_wf_ind. intros [d|d] ->; [apply Hleaf|].
  apply Hgroup. intros k reader Hk.
  apply (IH (depth reader)); [by eapply depth_lookup|done].
Qed.

Lemma represents_group (σ : heap) (tm : deviceClassOIDs) (l : loc) :
  represents σ (oidGroup tm) (refGroup l)
  ↔ ∃ m : gmap string ref, σ !! l = Some m ∧ ∀ k, related σ (tm !! k) (m !! k).
Proof.
  simpl. unfold related.
  split; intros (m & Hl & Hm); exists m; (split; [done|]); intros k;
    specialize (Hm k); rewrite lookup_fmap in *; by destruct (tm !! k), (m !! k).
Qed.

Lemma related_mono (σ σ' : heap) t v :
  (∀ t v, represents σ t v → represents σ' t v) → related σ t v → related σ' t v.
Proof. intros Hmono. destruct t, v; simpl; auto. Qed.

(** What a heap represents, every larger heap represents. *)
Lemma represents_mono (σ σ' : heap) (t : oidReader) (v : ref) :
  σ ⊆ σ' → represents σ t v → represents σ' t v.
Proof.
  intros Hsub. revert v.
  induction t as [d|tm IH] using oidReader_tree_ind; intros [d'|l]; try done.
  rewrite !represents_group. intros (m & Hl & Hm). exists m.
  split; [by eapply lookup_weaken|]. intros k. specialize (Hm k).
  unfold related in *.
  destruct (tm !! k) as [t|] eqn:Ht, (m !! k) as [v|]; try done.
  by eapply IH.
Qed.

Lemma assign_lookup (l : loc) (k : string) (v : ref) (σ : heap) :
  assign l k v σ !! l = insert k v <$> σ !! l.
Proof. apply lookup_alter_eq. Qed.

Lemma assign_lookup_ne (l l' : loc) (k : string) (v : ref) (σ : heap) :
  l ≠ l' → assign l k v σ !! l' = σ !! l'.
Proof. intros. by apply lookup_alter_ne. Qed.

Lemma assign_dom (l : loc) (k : string) (v : ref) (σ : heap) :
  dom (assign l k v σ) = dom σ.
Proof. apply dom_alter_L. Qed.

Lemma preserved_dom (σ σ' : heap) : preserved σ σ' → dom σ ⊆ dom σ'.
Proof.
  intros Hp l Hl. apply elem_of_dom. rewrite (Hp l Hl). by apply elem_of_dom.
Qed.

Lemma preserved_subseteq (σ σ' : heap) : preserved σ σ' → σ ⊆ σ'.
Proof.
  intros Hp. apply map_subseteq_spec. intros l m Hl.
  rewrite Hp; [done|]. apply elem_of_dom. eauto.
Qed.

Lemma preserved_trans (σ1 σ2 σ3 : heap) :
  preserved σ1 σ2 → preserved σ2 σ3 → preserved σ1 σ3.
Proof.
  intros H12 H23 l Hl. rewrite H23, H12; [done..|]. by apply (preserved_dom _ _ H12).
Qed.

Lemma preserved_assign (σ σ' : heap) (l : loc) k v :
  l ∉ dom σ → preserved σ σ' → preserved σ (assign l k v σ').
Proof.
  intros Hl Hp l' Hl'. rewrite assign_lookup_ne; [by apply Hp|]. congruence.
Qed.

(** The first loop of [merge] copies the receiver into the new map object
    and writes nowhere else. *)
Lemma copy_loop (new : loc) (σ : heap) (dMap : gmap string ref) :
  σ !! new = Some ∅ →
  map_fold (assign new) σ dMap !! new = Some dMap
  ∧ ∀ l, l ≠ new → map_fold (assign new) σ dMap !! l = σ !! l.
Proof.
  intros Hnew.
  apply (map_fold_weak_ind (λ (σ' : heap) (m : gmap string ref),
    σ' !! new = Some m ∧ ∀ l, l ≠ new → σ' !! l = σ !! l)).
  - done.
  - intros k v m σ' Hk [Hm Hother]. split.
    + by rewrite assign_lookup, Hm.
    + intros l Hl. rewrite assign_lookup_ne by done. by apply Hother.
Qed.

(** Whatever the heap, a merge that returns gives a new map object and
    leaves every map object that was there as it was. *)
Lemma merge_preserved (fuel : nat) (σ σ' : heap) (d overwrite r : loc) :
  merge fuel σ d overwrite = Some (σ', r) →
  (r ∉ dom σ) ∧ (r ∈ dom σ') ∧ preserved σ σ'.
Proof.
  induction fuel as [|fuel IH] in σ, σ', d, overwrite, r |- *; [done|]. simpl.
  destruct (σ !! d) as [dMap|]; [|done].
  destruct (σ !! overwrite) as [overwriteMap|]; [|done].
  remember (fresh (dom σ)) as new eqn:Hfresh.
  assert (new ∉ dom σ) as Hnew by (rewrite Hfresh; apply is_fresh).
  clear Hfresh.
  destruct (copy_loop new (<[new:=∅]> σ) dMap) as [Hcopy Hother];
    [by rewrite lookup_insert_eq|].
  remember (map_fold (assign new) (<[new:=∅]> σ) dMap) as σ1 eqn:Hσ1.
  assert (preserved σ σ1 ∧ new ∈ dom σ1) as Hstart.
  { split; [|apply elem_of_dom; eauto].
    intros l Hl. rewrite Hother by congruence. apply lookup_insert_ne. congruence. }
  clear Hσ1 Hcopy Hother.
  destruct (map_fold _ _ _) as [σ2|] eqn:Hloop; [|done]. intros ?. simplify_eq.
  revert σ' Hloop.
  apply (map_fold_weak_ind (λ (acc : option heap) (m : gmap string ref),
    ∀ σ', acc = Some σ' → (r ∉ dom σ) ∧ (r ∈ dom σ') ∧ preserved σ σ')).
  - intros σ' ?. simplify_eq. by destruct Hstart.
  - intros k v m [σx|] Hk Hacc σ' Hstep; [|done]. simpl in Hstep.
    destruct (Hacc σx eq_refl) as (_ & Hin & Hp).
    unfold mergeStep in Hstep.
    assert (∀ v', r ∈ dom (assign r k v' σx) ∧ preserved σ (assign r k v' σx))
      as Hplain.
    { intros v'. rewrite assign_dom. split; [done|]. by apply preserved_assign. }
    destruct ((σx !! r) ≫= _) as [[dOld|oidsOld]|]; try (simplify_eq; split; [done|apply Hplain]).
    destruct v as [dNew|oidsOverwrite]; try (simplify_eq; split; [done|apply Hplain]).
    destruct (merge fuel σx oidsOld oidsOverwrite) as [[σz mergedOIDs]|] eqn:Hrec;
      [|done]. simplify_eq.
    apply IH in Hrec as (_ & _ & Hpz). rewrite assign_dom.
    split; [done|]. split; [by apply (preserved_dom _ _ Hpz)|].
    apply preserved_assign; [done|]. by eapply preserved_trans.
Qed.
Lemma mergedAt_None_r (old : option oidReader) : mergedAt old None = old.
Proof. by destruct old as [[]|]. Qed.

Lemma represents_refGroup_inv (σ : heap) (t : oidReader) (l : loc) :
  represents σ t (refGroup l) → ∃ tm, t = oidGroup tm.
Proof. destruct t as [d|tm]; [done|eauto]. Qed.

Lemma represents_refLeaf_inv (σ : heap) (t : oidReader) (d : deviceClassOID) :
  represents σ t (refLeaf d) → t = oidLeaf d.
Proof. destruct t as [d'|tm]; [by intros ->|done]. Qed.

Lemma merge_S (fuel : nat) (σ : heap) (d overwrite : loc) :
  merge (S fuel) σ d overwrite
  = match σ !! d, σ !! overwrite with
    | Some dMap, Some overwriteMap =>
      let '(σ, devClassOIDsNew) := make σ in
      let σ := map_fold (assign devClassOIDsNew) σ dMap in
      match map_fold (λ k v σ, σ ≫= mergeStep (merge fuel) devClassOIDsNew k v)
                     (Some σ) overwriteMap with
      | Some σ => Some (σ, devClassOIDsNew)
      | None => None
      end
    | _, _ => None
    end.
Proof. done. Qed.

Lemma merge_represents (fuel : nat) (σ h : heap) (d o : loc) (td to : deviceClassOIDs) :
  (depth (oidGroup to) ≤ fuel)%nat →
  h ⊆ σ →
  represents h (oidGroup td) (refGroup d) →
  represents h (oidGroup to) (refGroup o) →
  ∃ σ' r h', merge fuel σ d o = Some (σ', r)
    ∧ h ⊆ h' ∧ h' ⊆ σ'
    ∧ dom h' ⊆ dom h ∪ (dom σ' ∖ dom σ)
    ∧ represents h' (oidGroup (reader.merge td to)) (refGroup r).
Proof.
  induction fuel as [|fuel IH] in σ, h, d, o, td, to |- *; intros Hfuel Hsub Hd Ho.
  { simpl in Hfuel. lia. }
  apply represents_group in Hd as (dMap & Hhd & Hdm).
  apply represents_group in Ho as (oMap & Hho & Hom).
  rewrite merge_S, (lookup_weaken _ _ _ _ Hhd Hsub), (lookup_weaken _ _ _ _ Hho Hsub).
  unfold make.
  remember (fresh (dom σ)) as new eqn:Hfresh.
  assert (new ∉ dom σ) as Hnew by (rewrite Hfresh; apply is_fresh).
  clear Hfresh.
  assert (new ∉ dom h) as Hnewh.
  { intros Hin. apply Hnew. by apply (subseteq_dom _ _ Hsub). }
  destruct (copy_loop new (<[new:=∅]> σ) dMap) as [Hcopy Hother];
    [by rewrite lookup_insert_eq|].
  remember (map_fold (assign new) (<[new:=∅]> σ) dMap) as σ1 eqn:Hσ1. clear Hσ1.
  assert (loopInvariant σ h new td to (Some σ1) ∅) as Hstart.
  { exists σ1, h, dMap. repeat split; try done.
    - apply map_subseteq_spec. intros l m Hl.
      rewrite Hother, lookup_insert_ne; [by eapply lookup_weaken|..];
        intros ->; apply Hnewh, elem_of_dom; eauto.
    - set_solver.
    - intros l Hl. apply elem_of_dom. rewrite Hother, lookup_insert_ne by congruence.
      by apply elem_of_dom.
    - intros k. rewrite lookup_empty. simpl. rewrite mergedAt_None_r. apply Hdm. }
  assert (oMap ⊆ oMap → loopInvariant σ h new td to
            (map_fold (λ k v σ0, σ0 ≫= mergeStep (merge fuel) new k v) (Some σ1) oMap)
            oMap) as Hloop.
  { apply (map_fold_weak_ind (λ acc m, m ⊆ oMap → loopInvariant σ h new td to acc m));
      [done|].
    intros i x m acc Hi Hacc Hm.
    assert (m ⊆ oMap) as Hm'.
    { etrans; [|exact Hm]. by apply insert_subseteq. }
    assert (oMap !! i = Some x) as Hx.
    { eapply lookup_weaken; [|exact Hm]. apply lookup_insert_eq. }
    destruct (Hacc Hm') as (σy & hy & newMap & -> & Hhy & Hhyσ & Hnewy & Hdomy
                            & Hdomσ & Hσynew & Hrel).
    pose proof (Hom i) as Hi_to. rewrite Hx in Hi_to.
    destruct (to !! i) as [t|] eqn:Hto; [|done]. simpl in Hi_to.
    pose proof (Hrel i) as Hi_td. rewrite Hi in Hi_td. simpl in Hi_td.
    rewrite mergedAt_None_r in Hi_td.
    simpl. unfold mergeStep. rewrite Hσynew. simpl.
    assert (mergedAt (td !! i) (Some t) = Some t →
            loopInvariant σ h new td to (Some (assign new i x σy)) (<[i:=x]> m))
      as Hplain.
    { intros Hmerged. exists (assign new i x σy), hy, (<[i:=x]> newMap).
      rewrite assign_dom, assign_lookup, Hσynew. repeat split; try done.
      - apply map_subseteq_spec. intros l ml Hl.
        rewrite assign_lookup_ne; [by eapply lookup_weaken|].
        intros <-. apply Hnewy, elem_of_dom. eauto.
      - intros k. destruct (decide (i = k)) as [<-|Hik].
        + rewrite !lookup_insert_eq. simpl. rewrite Hto, Hmerged. simpl.
          by eapply represents_mono.
        + rewrite !lookup_insert_ne by done. apply Hrel. }
    destruct (newMap !! i) as [[dOld|oidsOld]|] eqn:Hnewi.
    - apply Hplain. destruct (td !! i) as [told|]; [|done]. simpl in Hi_td.
      by apply represents_refLeaf_inv in Hi_td as ->.
    - destruct x as [dx|oidsOverwrite].
      { apply Hplain. apply represents_refLeaf_inv in Hi_to as ->.
        by destruct (td !! i) as [[]|]. }
      destruct (td !! i) as [told|] eqn:Htd; [|done]. simpl in Hi_td.
      destruct (represents_refGroup_inv _ _ _ Hi_td) as [tdOld ->].
      destruct (represents_refGroup_inv _ _ _ Hi_to) as [toNew ->].
      destruct (IH σy hy oidsOld oidsOverwrite tdOld toNew)
        as (σz & mergedOIDs & hz & Hrec & Hhz & Hhzσ & Hdomz & Hmerged);
        [|done|done|by eapply represents_mono|].
      { pose proof (depth_lookup _ _ _ Hto). lia. }
      rewrite Hrec.
      destruct (merge_preserved _ _ _ _ _ _ Hrec) as (_ & _ & Hpz).
      assert (new ∈ dom σy) as Hnewσy by (apply elem_of_dom; eauto).
      assert (new ∉ dom hz) as Hnewz by (clear -Hdomz Hnewy Hnewσy; set_solver).
      exists (assign new i (refGroup mergedOIDs) σz), hz,
             (<[i:=refGroup mergedOIDs]> newMap).
      rewrite assign_dom, assign_lookup, (Hpz new Hnewσy), Hσynew.
      pose proof (preserved_dom _ _ Hpz) as Hdomyz.
      repeat split; try done.
      + by etrans.
      + apply map_subseteq_spec. intros l ml Hl.
        rewrite assign_lookup_ne; [by eapply lookup_weaken|].
        intros <-. apply Hnewz, elem_of_dom. eauto.
      + clear -Hdomz Hdomy Hdomyz Hdomσ. set_solver.
      + clear -Hdomyz Hdomσ. set_solver.
      + intros k. destruct (decide (i = k)) as [<-|Hik].
        * rewrite !lookup_insert_eq. simpl. by rewrite Hto, Htd.
        * rewrite !lookup_insert_ne by done.
          eapply related_mono; [|apply Hrel]. intros ??. by apply represents_mono.
    - apply Hplain. by destruct (td !! i). }
  destruct (Hloop (reflexivity _)) as (σ' & hy & newMap & -> & Hhy & Hhyσ & Hnewy
                                       & Hdomy & Hdomσ & Hσ'new & Hrel).
  exists σ', new, (<[new:=newMap]> hy). split; [done|].
  assert (hy ⊆ <[new:=newMap]> hy) as Hhy'.
  { apply insert_subseteq. by apply not_elem_of_dom. }
  repeat split.
  - by etrans.
  - by apply insert_subseteq_l.
  - rewrite dom_insert_L. apply elem_of_dom_2 in Hσ'new. set_solver.
  - apply represents_group. exists newMap. split; [apply lookup_insert_eq|].
    intros k. rewrite merge_lookup.
    eapply related_mono; [intros ??; by apply represents_mono|].
    specialize (Hrel k). specialize (Hom k).
    destruct (oMap !! k), (to !! k); simpl in *; done.
Qed.
(** C6: [merge] writes to no map object that exists when it is called. A
    merge that returns gives the address of a new map object and leaves
    every map object that was on the heap with the content it had; and on a
    heap where the two addresses stand for the trees [td] and [to], the merge
    does return, its result stands for [reader.merge td to], and the two
    addresses still stand for [td] and [to]. *)
Theorem merge_leaves_inputs_unchanged :
  (∀ (fuel : nat) (σ σ' : heap) (d overwrite r : loc),
     merge fuel σ d overwrite = Some (σ', r) →
     (r ∉ dom σ) ∧ preserved σ σ')
  ∧ (∀ (σ : heap) (d overwrite : loc) (td to : deviceClassOIDs),
       represents σ (oidGroup td) (refGroup d) →
       represents σ (oidGroup to) (refGroup overwrite) →
       ∃ (σ' : heap) (r : loc),
         merge (depth (oidGroup to)) σ d overwrite = Some (σ', r)
         ∧ (r ∉ dom σ)
         ∧ preserved σ σ'
         ∧ represents σ' (oidGroup td) (refGroup d)
         ∧ represents σ' (oidGroup to) (refGroup overwrite)
         ∧ represents σ' (oidGroup (reader.merge td to)) (refGroup r)).
Proof.
  split.
  - intros fuel σ σ' d overwrite r Hrun.
    by destruct (merge_preserved _ _ _ _ _ _ Hrun) as (? & _ & ?).
  - intros σ d overwrite td to Hd Ho.
    destruct (merge_represents (depth (oidGroup to)) σ σ d overwrite td to)
      as (σ' & r & h' & Hrun & Hh & Hh' & _ & Hr); [done..|].
    exists σ', r.
    destruct (merge_preserved _ _ _ _ _ _ Hrun) as (Hfresh & _ & Hp).
    pose proof (preserved_subseteq _ _ Hp) as Hsub.
    split; [done|]. split; [done|]. split; [done|].
    split; [by apply (represents_mono σ)|].
    split; [by apply (represents_mono σ)|].
    by apply (represents_mono h').
Qed.

End store_facts.

(** * The examples of the specification, evaluated *)

Section examples_facts.
Import tholaerr device network communicator reader examples.
Local Open Scope list_scope.

Example Split_example :
  strings.Split ".1.3.6" "." = [""; "1"; "3"; "6"] ∧ strings.Split "" "." = [""].
Proof. split; reflexivity. Qed.

Example Atoi_examples :
  strconv.Atoi "12" = Ok 12%Z ∧ strconv.Atoi "-3" = Ok (-3)%Z
  ∧ strconv.Atoi "+7" = Ok 7%Z
  ∧ strconv.Atoi "" = Err (strconv.ErrSyntax "Atoi" "")
  ∧ strconv.Atoi "first" = Err (strconv.ErrSyntax "Atoi" "first")
  ∧ strconv.Atoi "9223372036854775808"
    = Err (strconv.ErrRange "Atoi" "9223372036854775808").
Proof. repeat split; reflexivity. Qed.

Example ParseUint_examples :
  strconv.ParseUint "73" = Ok 73%Z ∧ strconv.ParseUint "017" = Ok 15%Z
  ∧ strconv.ParseUint "0x1f" = Ok 31%Z ∧ strconv.ParseUint "1_000" = Ok 1000%Z
  ∧ strconv.ParseUint "0" = Ok 0%Z
  ∧ strconv.ParseUint "7_" = Err (strconv.ErrSyntax "ParseUint" "7_")
  ∧ strconv.ParseUint "18446744073709551616"
    = Err (strconv.ErrRange "ParseUint" "18446744073709551616").
Proof. repeat split; reflexivity. Qed.

(** Rows that arrive with the indices 5, 1 and 3 are decoded in the order
    1, 3, 5. *)
Example sortGroups_5_1_3 :
  sortGroups 3 (anyMap <$> rows513) []
  = Ok [row "ifDescr" "one"; row "ifDescr" "three"; row "ifDescr" "five"].
Proof. vm_compute. reflexivity. Qed.

(** Label X has data for the indices 1 and 2 and label Y for 2 only: row 1
    has X alone, row 2 has both; the label that is not found is left out. *)
Example readOID_partial_rows :
  deviceClassOIDs_readOID groupXY ctx
  = Ok (<[1%Z := anyMap (row "X" "eth0")]>
          (<[2%Z := anyMap (<["X" := anyValue "eth1"]> (row "Y" "uplink"))]> ∅)).
Proof. vm_compute. reflexivity. Qed.

(** A label whose walk times out fails the read of the whole group. *)
Example readOID_label_timeout :
  deviceClassOIDs_readOID groupTimeout ctx
  = Err (errors.Wrap (errors.Wrap timeout "failed to get oid value")
           "failed to get value 'temperature'").
Proof. vm_compute. reflexivity. Qed.

Example getProperty_partial_rows :
  getProperty {| oids := groupXY |} ctx
  = Ok [row "X" "eth0"; <["X" := anyValue "eth1"]> (row "Y" "uplink")].
Proof. vm_compute. reflexivity. Qed.

(** The speed that is the 32-bit sentinel becomes 10 * 1,000,000, once,
    through two inheritance levels; the other interface is left as it is. *)
Example GetInterfaces_two_levels :
  GetInterfaces iosCommunicator tt []
  = (Ok [setIfSpeed fastInterface (Some 10000000%Z); slowInterface],
     ["ios.interfaces"; "generic.interfaces"]).
Proof. vm_compute. reflexivity. Qed.

Example merge_on_heap :
  ∃ σ', store.merge 1 twoTrees 1%positive 2%positive = Some (σ', 3%positive)
    ∧ σ' !! 1%positive = twoTrees !! 1%positive
    ∧ σ' !! 2%positive = twoTrees !! 2%positive
    ∧ σ' !! 3%positive = Some {[ "sysDescr" := store.refLeaf columnY ]}.
Proof. eexists. split; [vm_compute; reflexivity|]. repeat split; vm_compute; reflexivity. Qed.

(** A row whose path ends in [.7.3] has the sub-index 73 and brings its
    counters to the interface with that [IfIndex]. *)
Example timos_GetInterfaces_7_3 :
  timos_sas.GetInterfaces counters (sasWith [slowInterface; sapInterface]) sapCtx
  = timos_sas.Returns
      (Ok [slowInterface;
           setSAP sapInterface (Some {| Inbound := Some 11%Z; Outbound := Some 22%Z |})]).
Proof. vm_compute. reflexivity. Qed.

(** Without an interface of that index the whole fetch fails. *)
Example timos_GetInterfaces_no_match :
  ∃ err, timos_sas.GetInterfaces counters (sasWith [slowInterface]) sapCtx
         = timos_sas.Returns (Err err).
Proof. eexists. vm_compute. reflexivity. Qed.

(** ** Instances of the theorems *)

(** C1, counterexample: a NotFound from the class step ends the resolution
    although an override and a parent that would succeed are there, and so
    does a NotFound from the override step: the log shows that no later step
    was attempted. *)
Lemma executeWithRecursion_NotFound_not_retried :
  executeWithRecursion (logged "class" (Err notFound))
    (Some (logged "override" (Ok "acme"))) (Some (logged "inherited" (Ok "acme")))
    tt []
  = (Err notFound, ["class"])
  ∧ executeWithRecursion (logged "class" (Err notImplemented))
      (Some (logged "override" (Err notFound))) (Some (logged "inherited" (Ok "acme")))
      tt []
    = (Err notFound, ["class"; "override"]).
Proof. split; reflexivity. Qed.

Lemma executeWithRecursion_NotFound_is_final_witness :
  logged (V := string) "class" (Err notFound) tt [] = (Err notFound, ["class"])
  ∧ IsNotFoundError notFound = true
  ∧ executeWithRecursion (logged "class" (Err notFound))
      (Some (logged "override" (Ok "acme"))) (Some (logged "inherited" (Ok "acme")))
      tt []
    = (Err notFound, ["class"]).
Proof.
  split; [reflexivity|]. split; [reflexivity|].
  apply (executeWithRecursion_NotFound_is_final
           (logged "class" (Err notFound)) (Some (logged "override" (Ok "acme")))
           (Some (logged "inherited" (Ok "acme"))) tt [] notFound ["class"]);
    reflexivity.
Defined.

Lemma executeWithRecursion_hard_failure_witness :
  logged (V := string) "class" (Err timeout) tt [] = (Err timeout, ["class"])
  ∧ IsNotImplementedError timeout = false
  ∧ IsNotFoundError timeout = false
  ∧ executeWithRecursion (logged "class" (Err timeout))
      (Some (logged "override" (Ok "acme"))) (Some (logged "inherited" (Ok "acme")))
      tt []
    = (Err timeout, ["class"]).
Proof.
  split; [reflexivity|]. split; [reflexivity|]. split; [reflexivity|].
  apply (executeWithRecursion_hard_failure_and_NotImplemented
           (logged "class" (Err timeout)) (Some (logged "override" (Ok "acme")))
           (Some (logged "inherited" (Ok "acme"))) tt [] timeout ["class"]);
    reflexivity.
Defined.

(** Absent everywhere: the final outcome is NotImplemented. *)
Example executeWithRecursion_absent_everywhere :
  executeWithRecursion (V := string) (logged "class" (Err notImplemented))
    (Some (logged "override" (Err notImplemented)))
    (Some (logged "inherited" (Err notImplemented))) tt []
  = (Err notImplemented, ["class"; "override"; "inherited"])
  ∧ executeWithRecursion (V := string) (logged "class" (Err notImplemented)) None None
      tt []
    = (Err (NewNotImplementedError "no detection information available"), ["class"]).
Proof. split; reflexivity. Qed.

(** C3, counterexample: the walk of column Z returns a response whose
    trailing path component is no integer; its value is empty, so the read
    skips it and succeeds, with no row. *)
Lemma readOID_skips_empty_value :
  SNMPWalk client (OID (SNMPGetConfiguration_ columnZ))
  = Ok [response ".1.3.6.1.4.1.9.9.9.first" ""]
  ∧ strconv.Atoi (lastPart (strings.Split ".1.3.6.1.4.1.9.9.9.first" "."))
    = Err (strconv.ErrSyntax "Atoi" "first")
  ∧ deviceClassOID_readOID columnZ ctx = Ok ∅.
Proof. repeat split; reflexivity. Qed.

Lemma deviceClassOID_readOID_all_rows_or_error_witness :
  snmpClient ctx = Some client
  ∧ SNMPWalk client (OID (SNMPGetConfiguration_ columnX))
    = Ok [response ".1.3.6.1.2.1.2.2.1.2.2" "eth1";
          response ".1.3.6.1.2.1.2.2.1.2.1" "eth0"]
  ∧ ((∃ result, deviceClassOID_readOID columnX ctx = Ok result)
     ↔ Forall (λ response, rowSkipped columnX response
                           ∨ ∃ index v, rowReads columnX ctx response index v)
         [response ".1.3.6.1.2.1.2.2.1.2.2" "eth1";
          response ".1.3.6.1.2.1.2.2.1.2.1" "eth0"]).
Proof.
  split; [reflexivity|]. split; [reflexivity|].
  apply (deviceClassOID_readOID_all_rows_or_error columnX ctx client
           [response ".1.3.6.1.2.1.2.2.1.2.2" "eth1";
            response ".1.3.6.1.2.1.2.2.1.2.1" "eth0"]); reflexivity.
Defined.

Lemma deviceClassOIDs_readOID_rows_witness :
  ∃ rows : gmap Z (gmap string any),
    deviceClassOIDs_readOID groupXY ctx = Ok (anyMap <$> rows)
    ∧ rows !! 1%Z = Some (row "X" "eth0").
Proof.
  destruct (proj1 (deviceClassOIDs_readOID_rows groupXY ctx)) as (rows & Hrun & Hrows & _).
  - intros label err Hlabel. apply elem_of_map_to_list in Hlabel.
    remember (map_to_list ((λ reader, readOID reader ctx) <$> groupXY)) as readers
      eqn:Hreaders.
    vm_compute in Hreaders. subst readers.
    repeat (apply elem_of_cons in Hlabel as [Hlabel|Hlabel];
            [by simplify_eq|]).
    by apply elem_of_nil in Hlabel.
  - exists rows. split; [done|]. rewrite Hrows. vm_compute. reflexivity.
Defined.

Lemma GetInterfaces_normalizes_once_at_head_witness :
  Forall (λ p, isHead p = false) (parents iosCommunicator)
  ∧ isHead iosCommunicator = true
  ∧ GetInterfaces iosCommunicator tt []
    = (Result_map normalizeInterfaces (resolveInterfaces iosCommunicator tt []).1,
       (resolveInterfaces iosCommunicator tt []).2).
Proof.
  assert (Forall (λ p, isHead p = false) (parents iosCommunicator)) as Hparents
    by (repeat constructor).
  split; [exact Hparents|]. split; [reflexivity|].
  apply (GetInterfaces_normalizes_once_at_head iosCommunicator tt [] Hparents);
    reflexivity.
Defined.
Lemma represents_singleton_leaf (σ : store.heap) (l : store.loc) (label : string)
    (d : deviceClassOID) :
  σ !! l = Some {[ label := store.refLeaf d ]} →
  store.represents σ (oidGroup {[ label := oidLeaf d ]}) (store.refGroup l).
Proof.
  intros Hl. apply represents_group. eexists. split; [done|]. intros k.
  destruct (decide (label = k)) as [->|Hk].
  - by rewrite !lookup_singleton_eq.
  - by rewrite !lookup_singleton_ne.
Qed.

Lemma merge_leaves_inputs_unchanged_witness :
  store.represents twoTrees (oidGroup baseTree) (store.refGroup 1%positive)
  ∧ store.represents twoTrees (oidGroup overlayTree) (store.refGroup 2%positive)
  ∧ ∃ (σ' : store.heap) (r : store.loc),
      store.merge (depth (oidGroup overlayTree)) twoTrees 1%positive 2%positive
      = Some (σ', r)
      ∧ (r ∉ dom twoTrees)
      ∧ store.preserved twoTrees σ'
      ∧ store.represents σ' (oidGroup baseTree) (store.refGroup 1%positive)
      ∧ store.represents σ' (oidGroup overlayTree) (store.refGroup 2%positive)
      ∧ store.represents σ' (oidGroup (merge baseTree overlayTree)) (store.refGroup r).
Proof.
  assert (store.represents twoTrees (oidGroup baseTree) (store.refGroup 1%positive))
    as Hbase by (by apply represents_singleton_leaf).
  assert (store.represents twoTrees (oidGroup overlayTree) (store.refGroup 2%positive))
    as Hoverlay by (by apply represents_singleton_leaf).
  split; [exact Hbase|]. split; [exact Hoverlay|].
  exact (proj2 merge_leaves_inputs_unchanged twoTrees 1%positive 2%positive
           baseTree overlayTree Hbase Hoverlay).
Defined.

Lemma GetInterfaces_correlates_or_fails_witness :
  Forall timos_sas.wellFormedRow
    [response (timos_sas.sapDescriptionsOID ++ ".100.7.3") "customer"]
  ∧ Forall (λ interf : Interface, is_Some (IfIndex interf)) [slowInterface; sapInterface]
  ∧ ((∃ res, timos_sas.GetInterfaces counters (sasWith [slowInterface; sapInterface]) sapCtx
             = timos_sas.Returns (Ok res)
        ∧ Forall (λ response, ∃ i sap,
            timos_sas.rowCorrelates counters sapCtx [slowInterface; sapInterface]
              response i sap)
            [response (timos_sas.sapDescriptionsOID ++ ".100.7.3") "customer"]
        ∧ (∀ response i sap,
             response ∈ [examples.response (timos_sas.sapDescriptionsOID ++ ".100.7.3")
                           "customer"] →
             timos_sas.rowCorrelates counters sapCtx [slowInterface; sapInterface]
               response i sap →
             timos_sas.attachedAt counters sapCtx
               [examples.response (timos_sas.sapDescriptionsOID ++ ".100.7.3") "customer"]
               [slowInterface; sapInterface] res i)
        ∧ (∀ j, res !! j = [slowInterface; sapInterface] !! j
                ∨ timos_sas.attachedAt counters sapCtx
                    [response (timos_sas.sapDescriptionsOID ++ ".100.7.3") "customer"]
                    [slowInterface; sapInterface] res j))
     ∨ (∃ err, timos_sas.GetInterfaces counters (sasWith [slowInterface; sapInterface])
                 sapCtx
               = timos_sas.Returns (Err err)
          ∧ Exists (λ response, ∀ i sap,
              ¬ timos_sas.rowCorrelates counters sapCtx [slowInterface; sapInterface]
                  response i sap)
              [response (timos_sas.sapDescriptionsOID ++ ".100.7.3") "customer"])).
Proof.
  assert (Forall timos_sas.wellFormedRow
            [response (timos_sas.sapDescriptionsOID ++ ".100.7.3") "customer"]) as Hrows.
  { repeat constructor. exists "100", "7", "3". repeat split; reflexivity. }
  assert (Forall (λ interf : Interface, is_Some (IfIndex interf))
            [slowInterface; sapInterface]) as Hindex.
  { repeat constructor; eexists; reflexivity. }
  split; [exact Hrows|]. split; [exact Hindex|].
  exact (proj1 (proj2 (GetInterfaces_correlates_or_fails counters
           (sasWith [slowInterface; sapInterface]) sapCtx [slowInterface; sapInterface]
           {| SNMPWalk := sapWalk |}
           [response (timos_sas.sapDescriptionsOID ++ ".100.7.3") "customer"]
           eq_refl eq_refl eq_refl Hrows Hindex))).
Defined.

End examples_facts.

(** * The resolution laid out as a row of steps *)

Section resolution_facts.
Import tholaerr device communicator components rules.
Context {St Args : Type}.

Local Abbreviation adapter := (adapterFunc (St := St) (Args := Args)).

Lemma sameOutcome_refl {V} (r : Result V) : sameOutcome r r.
Proof. by destruct r. Qed.

Lemma sameRun_refl {V} (r : Result V * St) : sameRun r r.
Proof. split; [done|apply sameOutcome_refl]. Qed.

Lemma sameRun_trans {V} (r1 r2 r3 : Result V * St) :
  sameRun r1 r2 → sameRun r2 r3 → sameRun r1 r3.
Proof.
  destruct r1 as [[v1|e1] s1], r2 as [[v2|e2] s2], r3 as [[v3|e3] s3];
    intros [Hs1 Ho1] [Hs2 Ho2]; simpl in *; try done; split; simpl;
    try congruence.
  destruct Ho1 as [Hk1 He1], Ho2 as [Hk2 He2]. split; [congruence|].
  intros Hnf Hni. rewrite He1 by done. apply He2; congruence.
Qed.

Lemma firstDefined_cons {V} (step : adapter V) rest args s :
  firstDefined (step :: rest) args s = orElse step (firstDefined rest) args s.
Proof. done. Qed.

Lemma orElse_sameRun {V} (step tail tail' : adapter V) args s :
  (∀ s', sameRun (tail args s') (tail' args s')) →
  sameRun (orElse step tail args s) (orElse step tail' args s).
Proof.
  intros Htail. unfold orElse. destruct (step args s) as [[v|e] s']; [apply sameRun_refl|].
  destruct (IsNotImplementedError e); [apply Htail|apply sameRun_refl].
Qed.

(** What [executeWithRecursion] does with its three steps, [tail] being what
    the parent does, or the NotImplemented of a missing parent. *)
Lemma executeWithRecursion_orElse {V} (fClass : adapter V) fCom fSub (tail : adapter V)
    args s :
  (∀ s2, sameRun
           (match fSub with
            | Some g => g args s2
            | None => (Err (NewNotImplementedError
                              "no parent communicator with implementation available"), s2)
            end)
           (tail args s2)) →
  sameRun (executeWithRecursion fClass fCom fSub args s)
          (orElse fClass (match fCom with Some f => orElse f tail | None => tail end)
                  args s).
Proof.
  intros Htail.
  assert (Hthird : ∀ e1 e2 s2,
    IsNotImplementedError e1 = true → IsNotImplementedError e2 = true →
    sameRun
      (match fSub with
       | Some f =>
         let '(r3, s3) := f args s2 in
         match r3 with
         | Ok value => (Ok value, s3)
         | Err err3 =>
           if negb (IsNotFoundError err3) then (Err err3, s3)
           else (noInformation e1 e2 err3, s3)
         end
       | None =>
         (noInformation e1 e2
            (NewNotImplementedError "no parent communicator with implementation available"),
          s2)
       end)
      (tail args s2)).
  { intros e1 e2 s2 H1 H2. specialize (Htail s2). destruct fSub as [g|].
    - destruct (g args s2) as [[v|e3] s3] eqn:Hg; simpl; [exact Htail|].
      destruct (IsNotFoundError e3) eqn:Hnf; simpl; [|done].
      unfold noInformation. rewrite H1, H2. simpl.
      assert (IsNotImplementedError e3 = false) as ->.
      { apply bool_decide_eq_true in Hnf. apply bool_decide_eq_false. congruence. }
      destruct Htail as [Hs Ho]. split; [done|]. simpl in *.
      destruct (tail args s2) as [[v'|e'] s']; simpl in *; [done|].
      apply bool_decide_eq_true in Hnf. destruct Ho as [Hk _].
      split; [simpl; congruence|]. simpl. done.
    - unfold noInformation. rewrite H1, H2. simpl.
      destruct Htail as [Hs Ho]. destruct (tail args s2) as [[v'|e'] s']; [done|].
      destruct Ho as [Hk _]. split; [done|]. split; [done|]. simpl. done. }
  unfold executeWithRecursion, orElse.
  destruct (fClass args s) as [[v|e1] s1]; [apply sameRun_refl|].
  destruct (IsNotImplementedError e1) eqn:H1; simpl; [|apply sameRun_refl].
  destruct fCom as [f|].
  - destruct (f args s1) as [[v|e2] s2]; [apply sameRun_refl|].
    destruct (IsNotImplementedError e2) eqn:H2; simpl; [|apply sameRun_refl].
    by apply Hthird.
  - by apply Hthird.
Qed.

Lemma nonEmpty_nonEmpty (r : Result string * St) : nonEmpty (nonEmpty r) = nonEmpty r.
Proof.
  destruct r as [[v|e] s]; simpl; [|done].
  case_bool_decide; simpl; [done|]. by rewrite bool_decide_eq_false_2.
Qed.

Lemma nonEmpty_sameRun (r1 r2 : Result string * St) :
  sameRun r1 r2 → sameRun (nonEmpty r1) (nonEmpty r2).
Proof.
  destruct r1 as [[v1|e1] s1], r2 as [[v2|e2] s2]; intros [Hs Ho]; simpl in *;
    try done.
  subst. case_bool_decide; apply sameRun_refl.
Qed.

Lemma nonEmpty_orElse (step tail : adapter string) args s :
  nonEmpty (orElse step (λ args s, nonEmpty (tail args s)) args s)
  = nonEmpty (orElse step tail args s).
Proof.
  unfold orElse. destruct (step args s) as [[v|e] s']; [done|].
  destruct (IsNotImplementedError e); [apply nonEmpty_nonEmpty|done].
Qed.

(** One level of a string getter, the parent's getter being laid out
    already. *)
Lemma string_getter_level (fClass : adapter string) fCom fSub rest args s :
  (∀ s2, sameRun
           (match fSub with
            | Some g => g args s2
            | None => (Err (NewNotImplementedError
                              "no parent communicator with implementation available"), s2)
            end)
           (nonEmpty (firstDefined rest args s2))) →
  sameRun (nonEmpty (executeWithRecursion fClass fCom fSub args s))
          (nonEmpty (firstDefined
                       (fClass :: match fCom with Some f => [f] | None => [] end ++ rest)
                       args s)).
Proof.
  intros Hsub.
  eapply sameRun_trans.
  { apply nonEmpty_sameRun.
    apply (executeWithRecursion_orElse fClass fCom fSub
             (λ args s, nonEmpty (firstDefined rest args s))), Hsub. }
  destruct fCom as [f|]; simpl app; rewrite !firstDefined_cons.
  - rewrite <- (nonEmpty_orElse fClass (orElse f (firstDefined rest))).
    rewrite <- (nonEmpty_orElse fClass
                  (orElse f (λ args s, nonEmpty (firstDefined rest args s)))).
    apply nonEmpty_sameRun, orElse_sameRun. intros s'.
    rewrite nonEmpty_orElse. apply sameRun_refl.
  - rewrite nonEmpty_orElse. apply sameRun_refl.
Qed.

Lemma NotImplemented_sameRun {V} (msg1 msg2 : string) (s : St) :
  sameRun (V := V) (Err (NewNotImplementedError msg1), s)
          (Err (NewNotImplementedError msg2), s).
Proof. split; [done|]. split; [done|]. simpl. done. Qed.

Ltac resolvesNonEmpty_tac field :=
  intros c; induction c as [hd com cls|hd c' com cls IH]
    using networkDeviceCommunicator_chain_ind;
  intros args s; destruct com as [code|];
  [ apply (string_getter_level (field (classFunctions cls)) (Some (field code)) None
             [] args s)
  | apply (string_getter_level (field (classFunctions cls)) None None [] args s)
  | apply (string_getter_level (field (classFunctions cls)) (Some (field code))
             (Some _) (communicatorSteps field c') args s)
  | apply (string_getter_level (field (classFunctions cls)) None
             (Some _) (communicatorSteps field c') args s) ];
  intros s2; first [apply NotImplemented_sameRun|apply IH].

(** X1: [executeWithRecursion] returns what the first of its steps that is
    defined returns, in the order class step, override step, parent step,
    and leaves the state that this step leaves; no step behind it runs. The
    message of a NotFound or NotImplemented error apart, nothing else is
    returned. *)
Theorem executeWithRecursion_firstDefined {V} (fClass : adapter V)
    (fCom fSub : option (adapter V)) (args : Args) (s : St) :
  sameRun (executeWithRecursion fClass fCom fSub args s)
          (firstDefined (fClass :: option_list fCom ++ option_list fSub) args s).
Proof.
  eapply sameRun_trans.
  { apply (executeWithRecursion_orElse fClass fCom fSub
             (firstDefined (option_list fSub))).
    intros s2. destruct fSub as [g|]; [|apply NotImplemented_sameRun].
    change (option_list (Some g)) with [g]. rewrite firstDefined_cons. unfold orElse.
    destruct (g args s2) as [[v|e] s3]; [apply sameRun_refl|].
    destruct (IsNotImplementedError e) eqn:He; [|apply sameRun_refl].
    split; [done|]. apply bool_decide_eq_true in He. split; [done|]. cbn. congruence. }
  destruct fCom as [f|]; apply sameRun_refl.
Qed.

(** X2: each of the five string getters returns what the first defined step
    of its chain returns, the steps being taken from the communicator down
    its parents, class step before override step, with the empty string
    turned into a NotFound error. *)
Theorem string_getters_firstDefined :
  resolvesNonEmpty (St := St) (Args := Args) GetVendor getVendor
  ∧ resolvesNonEmpty (St := St) (Args := Args) GetModel getModel
  ∧ resolvesNonEmpty (St := St) (Args := Args) GetModelSeries getModelSeries
  ∧ resolvesNonEmpty (St := St) (Args := Args) GetSerialNumber getSerialNumber
  ∧ resolvesNonEmpty (St := St) (Args := Args) GetOSVersion getOSVersion.
Proof.
  repeat apply conj;
    [ resolvesNonEmpty_tac (getVendor (St := St) (Args := Args))
    | resolvesNonEmpty_tac (getModel (St := St) (Args := Args))
    | resolvesNonEmpty_tac (getModelSeries (St := St) (Args := Args))
    | resolvesNonEmpty_tac (getSerialNumber (St := St) (Args := Args))
    | resolvesNonEmpty_tac (getOSVersion (St := St) (Args := Args)) ].
Qed.

Lemma resolveInterfaces_firstDefined (c : networkDeviceCommunicator St Args) args s :
  sameRun (resolveInterfaces c args s)
          (firstDefined (communicatorSteps getInterfaces c) args s).
Proof.
  revert s. induction c as [hd com cls|hd c' com cls IH]
    using networkDeviceCommunicator_chain_ind; intros s;
    cbn [resolveInterfaces communicatorSteps sub codeCommunicator deviceClass].
  - eapply sameRun_trans.
    { apply (executeWithRecursion_orElse _ _ None (firstDefined [])).
      intros s2. apply NotImplemented_sameRun. }
    destruct com as [code|]; apply sameRun_refl.
  - eapply sameRun_trans.
    { apply (executeWithRecursion_orElse _ _ (Some _)
               (firstDefined (communicatorSteps getInterfaces c'))).
      intros s2. apply IH. }
    destruct com as [code|]; apply sameRun_refl.
Qed.

(** X3: [GetInterfaces] at the head of a chain returns the interfaces of the
    first defined step of the chain, normalized; without the interfaces
    flag at the head it runs no step. Below the head it returns what the
    first defined step returns, as it is. *)
Theorem GetInterfaces_firstDefined (c : networkDeviceCommunicator St Args)
    (args : Args) (s : St) :
  Forall (λ p, isHead p = false) (parents c) →
  sameRun (GetInterfaces c args s)
    (if isHead c && negb (hasAvailableComponent (deviceClass c) interfacesComponent)
     then (Err (NewComponentNotFoundError
                  "no interfaces component available for this device"), s)
     else
       let r := firstDefined (communicatorSteps getInterfaces c) args s in
       if isHead c then (Result_map normalizeInterfaces r.1, r.2) else r).
Proof.
  intros Hparents.
  assert (Hresolve : sameRun
            (executeWithRecursion (getInterfaces (classFunctions (deviceClass c)))
               (getInterfaces <$> codeCommunicator c)
               (match sub c with Some c' => Some (GetInterfaces c') | None => None end)
               args s)
            (firstDefined (communicatorSteps getInterfaces c) args s)).
  { destruct c as [hd [c'|] com cls];
      cbn [communicatorSteps sub codeCommunicator deviceClass parents] in *.
    - apply Forall_cons in Hparents as [Hc' Hparents].
      eapply sameRun_trans.
      { apply (executeWithRecursion_orElse _ _ (Some _)
                 (firstDefined (communicatorSteps getInterfaces c'))).
        intros s2. rewrite GetInterfaces_below_head by done.
        apply resolveInterfaces_firstDefined. }
      destruct com as [code|]; apply sameRun_refl.
    - eapply sameRun_trans.
      { apply (executeWithRecursion_orElse _ _ None (firstDefined [])).
        intros s2. apply NotImplemented_sameRun. }
      destruct com as [code|]; apply sameRun_refl. }
  destruct c as [hd parent com cls]. cbn [GetInterfaces].
  destruct (isHead _ && negb _); [apply sameRun_refl|]. cbn zeta.
  cbn [sub codeCommunicator deviceClass] in Hresolve.
  destruct Hresolve as [Hs Ho].
  destruct (executeWithRecursion _ _ _ _ _) as [[res|err] s1],
           (firstDefined _ _ _) as [[res'|err'] s1']; cbn in *; try done;
    subst; by destruct (isHead _).
Qed.

End resolution_facts.

(** * The component getters and the aggregators *)

Section components_facts.
Import tholaerr device communicator components rules.
Context {St Args : Type}.
Context {float64 DiskComponentStorage HardwareHealthComponentFan
         HardwareHealthComponentPowerSupply SBCComponentAgent SBCComponentRealm : Type}.

Local Abbreviation getter := (adapterFunc (St := St) (Args := Args)).

Local Abbreviation functions :=
  (availableComponentFunctions St Args float64 DiskComponentStorage
     HardwareHealthComponentFan HardwareHealthComponentPowerSupply
     SBCComponentAgent SBCComponentRealm).

Local Abbreviation node :=
  (componentCommunicator St Args float64 DiskComponentStorage
     HardwareHealthComponentFan HardwareHealthComponentPowerSupply
     SBCComponentAgent SBCComponentRealm).

Lemma componentCommunicator_chain_ind (P : node → Prop) :
  (∀ com cls code, P (ComponentCommunicator com cls code None)) →
  (∀ com cls code c', P c' → P (ComponentCommunicator com cls code (Some c'))) →
  ∀ c, P c.
Proof.
  intros Hroot Hsub. fix IH 1. intros [com cls code [c'|]]; [apply Hsub, IH|apply Hroot].
Qed.

Lemma orElse_gateStep {V} (shut : bool) (msg : string) (tail : getter V) args s :
  orElse (gateStep shut msg) tail args s
  = if shut then (Err (NewComponentNotFoundError msg), s) else tail args s.
Proof. by destruct shut. Qed.

(** X4: a component getter returns what the first defined step of its chain
    returns, the steps being, from the communicator down its parents, the
    gate of the getter, the class step and the override step. *)
Theorem chainGetter_firstDefined {V} (gate : node → bool) (msg : string)
    (field : functions → getter V) (c : node) (args : Args) (s : St) :
  sameRun (chainGetter gate msg field c args s)
          (firstDefined (stepsOf gate msg field c) args s).
Proof.
  revert s. induction c as [com cls code|com cls code c' IH]
    using componentCommunicator_chain_ind; intros s.
  - cbn [chainGetter stepsOf subComponents classComponents codeComponents].
    rewrite firstDefined_cons, orElse_gateStep.
    destruct (gate _); [apply sameRun_refl|].
    eapply sameRun_trans.
    { apply (executeWithRecursion_orElse _ _ None (firstDefined [])).
      intros s2. apply NotImplemented_sameRun. }
    destruct code as [code|]; apply sameRun_refl.
  - cbn [chainGetter stepsOf subComponents classComponents codeComponents].
    rewrite firstDefined_cons, orElse_gateStep.
    destruct (gate _); [apply sameRun_refl|].
    eapply sameRun_trans.
    { apply (executeWithRecursion_orElse _ _ (Some _)
               (firstDefined (stepsOf gate msg field c'))).
      intros s2. apply IH. }
    destruct code as [code|]; apply sameRun_refl.
Qed.

(** The gates of a getter are open from [c] down its chain: it is the chain
    without gates. *)
Lemma chainGetter_open {V} (gate : node → bool) (msg msg' : string)
    (field : functions → getter V) (c : node) :
  gate c = false →
  Forall (λ p, gate p = false) (parentsOf c) →
  ∀ args s, chainGetter gate msg field c args s = chainGetter noGate msg' field c args s.
Proof.
  induction c as [com cls code|com cls code c' IH]
    using componentCommunicator_chain_ind; intros Hc Hparents args s.
  - cbn [chainGetter subComponents]. by rewrite Hc.
  - cbn [chainGetter subComponents classComponents codeComponents]. rewrite Hc.
    cbn [noGate]. cbn [parentsOf subComponents] in Hparents.
    apply Forall_cons in Hparents as [Hc' Hparents].
    apply executeWithRecursion_ext_sub. intros s2. by apply IH.
Qed.

(** X5: the getters that consult the component flag at the head only,
    [GetIfTable] and [GetMemoryComponentMemoryUsage], never look at a flag
    when they are called on a communicator that is not the head and has no
    head below it: they are the bare three-step chain there. *)
Theorem head_gated_getters_below_head (c : node) (args : Args) (s : St) :
  isHead (communicator c) = false →
  Forall (λ p, isHead (communicator p) = false) (parentsOf c) →
  GetIfTable c args s = chainGetter noGate "" getIfTable c args s
  ∧ GetMemoryComponentMemoryUsage c args s
    = chainGetter noGate "" getMemoryUsage c args s.
Proof.
  intros Hc Hparents. split; apply chainGetter_open.
  - unfold headGate. by rewrite Hc.
  - eapply Forall_impl; [exact Hparents|]. intros p Hp. unfold headGate. by rewrite Hp.
  - unfold headGate. by rewrite Hc.
  - eapply Forall_impl; [exact Hparents|]. intros p Hp. unfold headGate. by rewrite Hp.
Qed.

(** A getter that consults the flag of every communicator it reaches stops
    at a parent without the flag, when the class step returns
    NotImplemented and there is no override step. *)
Lemma classGate_parent_without_component {V} (k : component) (msg : string)
    (field : functions → getter V) (c parent : node) args s e1 s1 :
  hasComponent c k = true →
  codeComponents c = None →
  subComponents c = Some parent →
  hasComponent parent k = false →
  field (classComponents c) args s = (Err e1, s1) →
  IsNotImplementedError e1 = true →
  chainGetter (classGate k) msg field c args s
  = (Err (NewComponentNotFoundError msg), s1).
Proof.
  intros Hc Hcode Hsub Hparent Hclass He1.
  destruct c as [com cls code sub]. cbn in Hcode, Hsub, Hclass. subst code sub.
  cbn [chainGetter subComponents classComponents codeComponents].
  unfold classGate at 1. rewrite Hc. cbn [negb fmap option_fmap option_map].
  unfold executeWithRecursion. rewrite Hclass, He1. cbn [negb].
  destruct parent as [com' cls' code' sub'].
  cbn [chainGetter]. unfold classGate at 1. rewrite Hparent. done.
Qed.

(** X6: [GetCPUComponent] reports a hard failure when the chain of the load
    getter reaches a parent without the cpu flag: the component-not-found
    error of the parent is neither NotFound nor NotImplemented to the
    aggregator, which wraps it. *)
Theorem GetCPUComponent_parent_without_component (head c parent : node)
    (args : Args) (s : St) (e1 : error) (s1 : St) :
  hasComponent c cpuComponent = true →
  hasComponent head cpuComponent = true →
  codeComponents head = None →
  subComponents head = Some parent →
  hasComponent parent cpuComponent = false →
  getCPULoad (classComponents head) args s = (Err e1, s1) →
  IsNotImplementedError e1 = true →
  GetCPUComponent head c args s
  = (Err (errors.Wrap
            (NewComponentNotFoundError "no cpu component available for this device")
            "error occurred during get cpu load"), s1).
Proof.
  intros Hc Hhead Hcode Hsub Hparent Hclass He1.
  unfold GetCPUComponent. rewrite Hc. cbn [negb].
  unfold GetCPUComponentCPULoad.
  by rewrite (classGate_parent_without_component cpuComponent _ getCPULoad head parent
                args s e1 s1).
Qed.

Lemma field_gather {A C} (get : getter A) (msg : string) (set : A → C → C)
    (c : C) (empty : bool) (next : C * bool → St → Result C * St)
    (rest : list (getter unit)) args s :
  (∀ c' empty' s', endsLike (next (c', empty') s') (gather rest args s' empty')) →
  endsLike (field (get args s) msg set (c, empty) next)
           (gather (outcomeOf get :: rest) args s empty).
Proof.
  intros Hnext. unfold field, outcomeOf. cbn [gather].
  destruct (get args s) as [[v|e] s']; cbn [fst snd Result_map].
  - apply Hnext.
  - unfold tolerated.
    destruct (IsNotFoundError e), (IsNotImplementedError e); cbn [negb andb orb];
      try apply Hnext; by eexists.
Qed.

Lemma unlessEmpty_gather {C} (msg : string) (c : C) (empty : bool) (args : Args) (s : St) :
  endsLike (unlessEmpty msg (c, empty) s) (gather [] args s empty).
Proof. unfold unlessEmpty. cbn [gather snd fst]. destruct empty; by eexists. Qed.

Ltac componentRule_tac :=
  intros args s;
  match goal with |- context [hasComponent ?c ?k] => destruct (hasComponent c k) end;
  cbn [negb]; [|by eexists];
  repeat (apply field_gather; intros ? ? ?; cbv beta);
  apply unlessEmpty_gather.

(** X7: the aggregators of the cpu, server, disk and hardware health
    components follow one rule. Without the flag of the component on the
    communicator they return the component-not-found error and call nothing.
    With it they call the getters of their fields at the head, in order: the
    first error that is neither NotFound nor NotImplemented ends the
    aggregation, wrapped; when no getter returned a value the result is a
    NotFound error; else it is the component. *)
Theorem aggregators_componentRule (head c : node) :
  componentRule (GetCPUComponent head c) (hasComponent c cpuComponent)
    [outcomeOf (GetCPUComponentCPULoad head);
     outcomeOf (GetCPUComponentCPUTemperature head)]
  ∧ componentRule (GetServerComponent head c) (hasComponent c serverComponent)
      [outcomeOf (GetServerComponentProcs head);
       outcomeOf (GetServerComponentUsers head)]
  ∧ componentRule (GetDiskComponent head c) (hasComponent c diskComponent)
      [outcomeOf (GetDiskComponentStorages head)]
  ∧ componentRule (GetHardwareHealthComponent head c)
      (hasComponent c hardwareHealthComponent)
      [outcomeOf (GetHardwareHealthComponentEnvironmentMonitorState head);
       outcomeOf (GetHardwareHealthComponentFans head);
       outcomeOf (GetHardwareHealthComponentPowerSupply head)].
Proof.
  repeat apply conj.
  - unfold GetCPUComponent. componentRule_tac.
  - unfold GetServerComponent. componentRule_tac.
  - unfold GetDiskComponent. componentRule_tac.
  - unfold GetHardwareHealthComponent. componentRule_tac.
Qed.

(** X8: the aggregators of the ups and sbc components follow the same rule,
    over their eleven and nine getters. *)
Theorem ups_sbc_aggregators_componentRule (head c : node) :
  componentRule (GetUPSComponent head c) (hasComponent c upsComponent)
    [outcomeOf (GetUPSComponentAlarmLowVoltageDisconnect head);
     outcomeOf (GetUPSComponentBatteryAmperage head);
     outcomeOf (GetUPSComponentBatteryCapacity head);
     outcomeOf (GetUPSComponentBatteryCurrent head);
     outcomeOf (GetUPSComponentBatteryRemainingTime head);
     outcomeOf (GetUPSComponentBatteryTemperature head);
     outcomeOf (GetUPSComponentBatteryVoltage head);
     outcomeOf (GetUPSComponentCurrentLoad head);
     outcomeOf (GetUPSComponentMainsVoltageApplied head);
     outcomeOf (GetUPSComponentRectifierCurrent head);
     outcomeOf (GetUPSComponentSystemVoltage head)]
  ∧ componentRule (GetSBCComponent head c) (hasComponent c sbcComponent)
    [outcomeOf (GetSBCComponentAgents head);
     outcomeOf (GetSBCComponentRealms head);
     outcomeOf (GetSBCComponentGlobalCallPerSecond head);
     outcomeOf (GetSBCComponentGlobalConcurrentSessions head);
     outcomeOf (GetSBCComponentActiveLocalContacts head);
     outcomeOf (GetSBCComponentTranscodingCapacity head);
     outcomeOf (GetSBCComponentLicenseCapacity head);
     outcomeOf (GetSBCComponentSystemRedundancy head);
     outcomeOf (GetSBCComponentSystemHealthScore head)].
Proof.
  split.
  - unfold GetUPSComponent. componentRule_tac.
  - unfold GetSBCComponent. componentRule_tac.
Qed.

Lemma field_Ok {A C} (got : Result A * St) (msg : string) (set : A → C → C)
    (acc : C * bool) (next : C * bool → St → Result C * St) (c : C) (s' : St) :
  field got msg set acc next = (Ok c, s') →
  next (match got.1 with Ok value => (set value acc.1, false) | Err _ => acc end) got.2
  = (Ok c, s').
Proof.
  unfold field. destruct got as [[value|err] s]; [done|].
  by destruct (negb _ && negb _).
Qed.

Lemma unlessEmpty_Ok {C} (msg : string) (acc : C * bool) (s : St) (c : C) (s' : St) :
  unlessEmpty msg acc s = (Ok c, s') → acc = (c, false) ∧ s = s'.
Proof. unfold unlessEmpty. destruct acc as [c' []]; cbn; [done|]. by intros [= -> ->]. Qed.

(** X9: the fields of a component that an aggregator returns are what the
    getters returned, each getter being run in the state the one before it
    left: a field is unset where its getter failed. A server component that
    is returned has a field that is set; a cpu component may be returned
    with both slices nil, when a getter succeeded with the nil slice. *)
Theorem aggregators_fields (head c : node) (args : Args) (s : St) :
  (∀ server s',
     GetServerComponent head c args s = (Ok server, s') →
     let procs := GetServerComponentProcs head args s in
     let users := GetServerComponentUsers head args procs.2 in
     Procs server = pointerTo procs.1 ∧ Users server = pointerTo users.1
     ∧ s' = users.2 ∧ (is_Some (Procs server) ∨ is_Some (Users server)))
  ∧ (∀ cpu s',
       GetCPUComponent head c args s = (Ok cpu, s') →
       let load := GetCPUComponentCPULoad head args s in
       let temperature := GetCPUComponentCPUTemperature head args load.2 in
       Load cpu = sliceFrom load.1 ∧ Temperature cpu = sliceFrom temperature.1
       ∧ s' = temperature.2)
  ∧ (∀ s1 err s2,
       hasComponent c cpuComponent = true →
       GetCPUComponentCPULoad head args s = (Ok None, s1) →
       GetCPUComponentCPUTemperature head args s1 = (Err err, s2) →
       tolerated err = true →
       GetCPUComponent head c args s = (Ok {| Load := None; Temperature := None |}, s2)).
Proof.
  repeat apply conj.
  - intros server s' Hrun. unfold GetServerComponent in Hrun.
    destruct (negb _); [done|].
    apply field_Ok, field_Ok, unlessEmpty_Ok in Hrun as [Hacc <-]. cbn zeta.
    destruct (GetServerComponentProcs head args s) as [[procs|e1] s1]; cbn in *;
      destruct (GetServerComponentUsers head args s1) as [[users|e2] s2]; cbn in *;
      simplify_eq; cbn; eauto 6.
  - intros cpu s' Hrun. unfold GetCPUComponent in Hrun.
    destruct (negb _); [done|].
    apply field_Ok, field_Ok, unlessEmpty_Ok in Hrun as [Hacc <-]. cbn zeta.
    destruct (GetCPUComponentCPULoad head args s) as [[load|e1] s1]; cbn in *;
      destruct (GetCPUComponentCPUTemperature head args s1) as [[temperature|e2] s2];
      cbn in *; simplify_eq; cbn; eauto.
  - intros s1 err s2 Hc Hload Htemperature Herr. unfold GetCPUComponent.
    rewrite Hc, Hload. cbn [negb field]. rewrite Htemperature. cbn [field].
    unfold tolerated in Herr.
    destruct (IsNotFoundError err), (IsNotImplementedError err); done.
Qed.

(** X10: the hardware health aggregator speaks of the sbc component: with
    the flag set and no value from any getter its error is that of the sbc
    aggregator, and a failure of the power supply getter is wrapped in the
    text of the sbc call rate. *)
Theorem GetHardwareHealthComponent_sbc_texts (head c : node) (args : Args) (s : St) :
  hasComponent c hardwareHealthComponent = true →
  (∀ s',
     gather [outcomeOf (GetHardwareHealthComponentEnvironmentMonitorState head);
             outcomeOf (GetHardwareHealthComponentFans head);
             outcomeOf (GetHardwareHealthComponentPowerSupply head)] args s true
     = Gathered true s' →
     GetHardwareHealthComponent head c args s
     = (Err (NewNotFoundError "no sbc data available"), s'))
  ∧ (∀ empty s1 err s2,
       gather [outcomeOf (GetHardwareHealthComponentEnvironmentMonitorState head);
               outcomeOf (GetHardwareHealthComponentFans head)] args s true
       = Gathered empty s1 →
       GetHardwareHealthComponentPowerSupply head args s1 = (Err err, s2) →
       tolerated err = false →
       GetHardwareHealthComponent head c args s
       = (Err (errors.Wrap err
                 "error occurred during get sbc component sbc global call per second"),
          s2)).
Proof.
  intros Hc. unfold GetHardwareHealthComponent. rewrite Hc. cbn [negb gather].
  unfold outcomeOf, field, tolerated.
  split.
  - intros s'.
    destruct (GetHardwareHealthComponentEnvironmentMonitorState head args s)
      as [[state|e1] s1]; cbn [fst snd Result_map].
    + destruct (GetHardwareHealthComponentFans head args s1) as [[fans|e2] s2];
        cbn [fst snd Result_map].
      * destruct (GetHardwareHealthComponentPowerSupply head args s2) as [[supply|e3] s3];
          cbn [fst snd Result_map]; [done|].
        by destruct (IsNotFoundError e3), (IsNotImplementedError e3).
      * destruct (IsNotFoundError e2), (IsNotImplementedError e2); cbn; try done;
          destruct (GetHardwareHealthComponentPowerSupply head args s2)
            as [[supply|e3] s3]; cbn [fst snd Result_map]; try done;
          by destruct (IsNotFoundError e3), (IsNotImplementedError e3).
    + destruct (IsNotFoundError e1), (IsNotImplementedError e1); cbn; try done;
        (destruct (GetHardwareHealthComponentFans head args s1) as [[fans|e2] s2];
         cbn [fst snd Result_map];
         [|destruct (IsNotFoundError e2), (IsNotImplementedError e2); cbn; try done];
         destruct (GetHardwareHealthComponentPowerSupply head args s2)
           as [[supply|e3] s3]; cbn [fst snd Result_map]; try done;
         destruct (IsNotFoundError e3), (IsNotImplementedError e3); cbn;
         try done; by intros [= ->]).
  - intros empty s1 err s2.
    destruct (GetHardwareHealthComponentEnvironmentMonitorState head args s)
      as [[state|e1] s1']; cbn [fst snd Result_map];
      [|destruct (IsNotFoundError e1), (IsNotImplementedError e1); cbn; try done];
      (destruct (GetHardwareHealthComponentFans head args s1') as [[fans|e2] s2'];
       cbn [fst snd Result_map];
       [|destruct (IsNotFoundError e2), (IsNotImplementedError e2); cbn; try done];
       intros [= <- <-] -> Herr;
       by destruct (IsNotFoundError err), (IsNotImplementedError err)).
Qed.

End components_facts.

(** * The component names and the identification properties *)

Section identify_facts.
Import tholaerr device communicator components identify rules.
Local Open Scope list_scope.
Context {St Args : Type}.

Lemma availableNames_spec (toString : component → Result string)
    (components : list (component * bool)) (res : list string) (name : string) :
  name ∈ availableNames toString components res
  ↔ name ∈ res ∨ ∃ k, (k, true) ∈ components ∧ toString k = Ok name.
Proof.
  revert res. induction components as [|[k v] rest IH]; intros res; cbn [availableNames].
  - split; [by left|]. intros [?|(k & Hk & _)]; [done|]. by apply elem_of_nil in Hk.
  - destruct v; [destruct (toString k) as [name'|err] eqn:Hk|]; rewrite IH.
    + rewrite elem_of_app, list_elem_of_singleton. split.
      * intros [[?| ->]|(k' & Hin & Hk')]; [by left| |].
        -- right. exists k. split; [left|done].
        -- right. exists k'. split; [by right|done].
      * intros [?|(k' & Hin & Hk')]; [by left; left|].
        apply elem_of_cons in Hin as [Heq|Hin].
        -- injection Heq as ->. left; right. congruence.
        -- right. by exists k'.
    + split.
      * intros [?|(k' & Hin & Hk')]; [by left|]. right. exists k'. split; [by right|done].
      * intros [?|(k' & Hin & Hk')]; [by left|].
        apply elem_of_cons in Hin as [Heq|Hin]; [injection Heq as ->; congruence|].
        right. by exists k'.
    + split.
      * intros [?|(k' & Hin & Hk')]; [by left|]. right. exists k'. split; [by right|done].
      * intros [?|(k' & Hin & Hk')]; [by left|].
        apply elem_of_cons in Hin as [Heq|Hin]; [done|]. right. by exists k'.
Qed.

Lemma availableNames_length (toString : component → Result string)
    (components : list (component * bool)) (res : list string) :
  (List.length (availableNames toString components res)
   ≤ List.length res + List.length components)%nat.
Proof.
  revert res. induction components as [|[k v] rest IH]; intros res; cbn [availableNames].
  - simpl. lia.
  - destruct v; [destruct (toString k)|]; etrans; try apply IH;
      rewrite ?length_app; simpl; lia.
Qed.

(** X11: [GetAvailableComponents] returns the names of the components whose
    flag is set and whose name [toString] knows, and nothing else; a
    component whose flag is cleared or that has no name leaves no trace. *)
Theorem GetAvailableComponents_spec (toString : component → Result string)
    (components : gmap component bool) :
  (∀ name, name ∈ GetAvailableComponents toString components
           ↔ ∃ k, components !! k = Some true ∧ toString k = Ok name)
  ∧ (List.length (GetAvailableComponents toString components) ≤ size components)%nat.
Proof.
  unfold GetAvailableComponents. split.
  - intros name. rewrite availableNames_spec. split.
    + intros [Hin|(k & Hin & Hk)]; [by apply elem_of_nil in Hin|].
      exists k. by rewrite <- elem_of_map_to_list.
    + intros (k & Hin & Hk). right. exists k. by rewrite elem_of_map_to_list.
  - etrans; [apply availableNames_length|]. simpl.
    by rewrite <- (length_map_to_list components).
Qed.

Variable NewContextWithDeviceProperties : Args → Device → Args.

Local Abbreviation noEmptyString props :=
  (Vendor props ≠ Some "" ∧ Model props ≠ Some "" ∧ ModelSeries props ≠ Some ""
   ∧ SerialNumber props ≠ Some "" ∧ OSVersion props ≠ Some "").

Local Abbreviation identifies r :=
  (match r with
   | Ok props => noEmptyString props
   | Err err =>
     ∃ cause msg, err = errors.Wrap cause msg ∧ tolerated cause = false
   end).

Lemma string_getters_nonEmpty (c : networkDeviceCommunicator St Args) args s :
  (GetVendor c args s).1 ≠ Ok ""
  ∧ (GetModel c args s).1 ≠ Ok ""
  ∧ (GetModelSeries c args s).1 ≠ Ok ""
  ∧ (GetSerialNumber c args s).1 ≠ Ok ""
  ∧ (GetOSVersion c args s).1 ≠ Ok "".
Proof. destruct c as [hd [c'|] com cls]; repeat apply conj; apply nonEmpty_spec. Qed.

Lemma identified_identifies (got : Result string * St) (msg : string)
    (set : string → Device → Device) (dev : Device) (ctx : Args)
    (next : Device → Args → St → Result Properties * St) :
  got.1 ≠ Ok "" →
  noEmptyString (DeviceProperties dev) →
  (∀ value dev, value ≠ "" → noEmptyString (DeviceProperties dev) →
     noEmptyString (DeviceProperties (set value dev))) →
  (∀ dev ctx s, noEmptyString (DeviceProperties dev) → identifies (next dev ctx s).1) →
  identifies (identified NewContextWithDeviceProperties got msg set dev ctx next).1.
Proof.
  intros Hgot Hdev Hset Hnext. unfold identified.
  destruct got as [[value|err] s]; cbn [fst] in *.
  - apply Hnext, Hset; [congruence|done].
  - destruct (IsNotFoundError err) eqn:Hnf, (IsNotImplementedError err) eqn:Hni;
      cbn [negb andb]; try by apply Hnext.
    exists err, msg. split; [done|]. unfold tolerated. by rewrite Hnf, Hni.
Qed.


End identify_facts.

(** * More on the finishing pass of the interface listing *)

Section normalize_facts.
Import tholaerr device communicator.
Local Open Scope list_scope.

(** The product that replaces the sentinel is a multiple of 64 after the
    wrap-around, and the sentinel is odd. *)
Lemma uint64_million_not_MaxUint32 (highSpeed : Z) :
  uint64 (highSpeed * 1000000) ≠ MaxUint32.
Proof.
  unfold uint64, MaxUint32. intros H.
  pose proof (Z.div_mod (highSpeed * 1000000) (2 ^ 64)) as Hdiv.
  rewrite H in Hdiv. change (2 ^ 64)%Z with 18446744073709551616%Z in Hdiv.
  generalize dependent (highSpeed * 1000000 / 18446744073709551616)%Z.
  intros q Hdiv. lia.
Qed.

Lemma normalizeInterface_idempotent (interf : Interface) :
  normalizeInterface (normalizeInterface interf) = normalizeInterface interf.
Proof.
  destruct interf as [idx descr [speed|] [highSpeed|] sap]; try done.
  unfold normalizeInterface. cbn [IfSpeed IfHighSpeed].
  destruct (speed =? MaxUint32)%Z eqn:Hspeed; cbn [setIfSpeed IfSpeed IfHighSpeed];
    [|by rewrite Hspeed].
  destruct (Z.eqb_spec (uint64 (highSpeed * 1000000)) MaxUint32) as [Heq|]; [|done].
  by apply uint64_million_not_MaxUint32 in Heq.
Qed.

(** X13: [normalizeInterfaces] is idempotent, and after it no interface with
    a high-capacity counter reports the 32-bit sentinel as its speed. *)
Theorem normalizeInterfaces_idempotent (interfaces : list Interface) :
  normalizeInterfaces (normalizeInterfaces interfaces) = normalizeInterfaces interfaces
  ∧ Forall (λ interf, IfSpeed interf = Some MaxUint32 → IfHighSpeed interf = None)
           (normalizeInterfaces interfaces).
Proof.
  rewrite !normalizeInterfaces_fmap. split.
  - rewrite <- list_fmap_compose. apply list_fmap_ext. intros i interf _.
    apply normalizeInterface_idempotent.
  - apply Forall_fmap, Forall_forall. intros interf _. cbn.
    destruct interf as [idx descr [speed|] [highSpeed|] sap]; try done.
    unfold normalizeInterface. cbn [IfSpeed IfHighSpeed].
    destruct (Z.eqb_spec speed MaxUint32) as [->|Hne]; cbn.
    + intros [= Heq]. by apply uint64_million_not_MaxUint32 in Heq.
    + congruence.
Qed.

(** X14: [normalizeInterfaces] keeps the number and the order of the
    interfaces and writes to the speed only: every other field of every
    interface is as before, and an interface whose speed is not the sentinel,
    or that has no high-capacity counter, is as before altogether. *)
Theorem normalizeInterfaces_frame (interfaces : list Interface) :
  List.length (normalizeInterfaces interfaces) = List.length interfaces
  ∧ (λ interf, setIfSpeed interf None) <$> normalizeInterfaces interfaces
    = (λ interf, setIfSpeed interf None) <$> interfaces
  ∧ ∀ i interf, interfaces !! i = Some interf →
      IfSpeed interf ≠ Some MaxUint32 ∨ IfHighSpeed interf = None →
      normalizeInterfaces interfaces !! i = Some interf.
Proof.
  rewrite !normalizeInterfaces_fmap. repeat apply conj.
  - apply length_fmap.
  - rewrite <- list_fmap_compose. apply list_fmap_ext. intros i interf _. cbn.
    destruct interf as [idx descr [speed|] [highSpeed|] sap]; try done.
    unfold normalizeInterface. cbn [IfSpeed IfHighSpeed].
    by destruct (speed =? MaxUint32)%Z.
  - intros i interf Hi Hkeep. rewrite list_lookup_fmap, Hi. cbn. f_equal.
    destruct interf as [idx descr [speed|] [highSpeed|] sap]; try done.
    unfold normalizeInterface. cbn [IfSpeed IfHighSpeed] in *.
    destruct (Z.eqb_spec speed MaxUint32) as [->|Hne]; [|done].
    by destruct Hkeep.
Qed.

End normalize_facts.

(** * More on the merge of two trees *)

Section merge_more_facts.
Import tholaerr network reader.

Lemma merge_empty_r (d : deviceClassOIDs) : merge d ∅ = d.
Proof. unfold merge. cbn [mergeInto]. apply map_fold_empty. Qed.

Lemma merge_empty_l (overwrite : deviceClassOIDs) : merge ∅ overwrite = overwrite.
Proof.
  apply map_eq. intros k. rewrite merge_lookup, lookup_empty. unfold mergedAt.
  by destruct (overwrite !! k).
Qed.

Lemma merge_diag (d : deviceClassOIDs) : merge d d = d.
Proof.
  enough (H : ∀ reader,
             match reader with oidGroup d => merge d d = d | oidLeaf _ => True end).
  { apply (H (oidGroup d)). }
  intros reader. induction reader as [leaf|group IH] using oidReader_tree_ind; [done|].
  apply map_eq. intros k. rewrite merge_lookup. unfold mergedAt.
  destruct (group !! k) as [[leaf|sub]|] eqn:Hk; try done.
  do 2 f_equal. apply (IH k (oidGroup sub) Hk).
Qed.

Lemma merge_absorb (d overwrite : deviceClassOIDs) :
  merge (merge d overwrite) overwrite = merge d overwrite.
Proof.
  revert d.
  enough (H : ∀ reader,
             match reader with
             | oidGroup overwrite =>
               ∀ d, merge (merge d overwrite) overwrite = merge d overwrite
             | oidLeaf _ => True
             end).
  { apply (H (oidGroup overwrite)). }
  intros reader. induction reader as [leaf|group IH] using oidReader_tree_ind; [done|].
  intros d. apply map_eq. intros k. rewrite !merge_lookup. unfold mergedAt at 1 3.
  destruct (group !! k) as [[leaf|sub]|] eqn:Hk.
  - by destruct (d !! k) as [[?|?]|].
  - destruct (d !! k) as [[?|old]|]; cbn.
    + by rewrite merge_diag.
    + do 2 f_equal. apply (IH k (oidGroup sub) Hk).
    + by rewrite merge_diag.
  - by destruct (d !! k) as [[?|?]|].
Qed.

(** X15: the laws of [merge]. The empty tree is neutral on both sides, a
    tree merged with itself is itself, merging the same overlay a second
    time changes nothing, and the labels of the merged tree are those of the
    base and of the overlay. *)
Theorem merge_laws (d overwrite : deviceClassOIDs) :
  merge d ∅ = d
  ∧ merge ∅ overwrite = overwrite
  ∧ merge d d = d
  ∧ merge (merge d overwrite) overwrite = merge d overwrite
  ∧ dom (merge d overwrite) = dom d ∪ dom overwrite.
Proof.
  repeat apply conj.
  - apply merge_empty_r.
  - apply merge_empty_l.
  - apply merge_diag.
  - apply merge_absorb.
  - apply set_eq. intros k. rewrite elem_of_union, !elem_of_dom, merge_lookup.
    unfold mergedAt.
    destruct (d !! k) as [[?|?]|], (overwrite !! k) as [[?|?]|];
      split; intros H; try (by eauto); by destruct H as [[? [=]]|[? [=]]].
Qed.

(** X16: [merge] is not associative: with three levels, a leaf in the middle
    level hides a group of the base from a group of the top level when the
    two lower levels are merged first, and does not when the two upper
    levels are merged first. *)
Theorem merge_not_associative :
  ¬ ∀ a b c : deviceClassOIDs, merge (merge a b) c = merge a (merge b c).
Proof.
  intros H.
  pose (leaf := oidLeaf {| SNMPGetConfiguration_ := {| OID := ".1"; UseRawResult := false |};
                           operators := {| apply := λ _ v, Ok v |} |}).
  specialize (H {[ "k" := oidGroup {[ "x" := leaf ]} ]} {[ "k" := leaf ]}
                {[ "k" := oidGroup {[ "y" := leaf ]} ]}).
  apply (f_equal (λ m : deviceClassOIDs,
                    match m !! "k" with
                    | Some (oidGroup group) => bool_decide (is_Some (group !! "x"))
                    | _ => false
                    end)) in H.
  vm_compute in H. discriminate H.
Qed.

End merge_more_facts.

(** * More on the readers *)

Section reader_more_facts.
Import tholaerr network reader.
Local Open Scope list_scope.

Lemma readLabels_never_NotFound (readers : list (string * Result (gmap Z any)))
    (result : gmap Z (gmap string any)) (err : error) :
  readLabels readers result = Err err → IsNotFoundError err = false.
Proof.
  revert result. induction readers as [|[label [res|e]] rest IH]; intros result;
    cbn [readLabels]; [done|apply IH|].
  destruct (IsNotFoundError e) eqn:He; [apply IH|]. by intros [= <-].
Qed.

Lemma readLabels_rows_nonempty (readers : list (string * Result (gmap Z any)))
    (result result' : gmap Z (gmap string any)) :
  readLabels readers result = Ok result' →
  (∀ i row, result !! i = Some row → row ≠ ∅) →
  ∀ i row, result' !! i = Some row → row ≠ ∅.
Proof.
  revert result. induction readers as [|[label [res|e]] rest IH]; intros result;
    cbn [readLabels].
  - by intros [= <-].
  - intros Hread Hresult. apply (IH _ Hread). intros i row.
    rewrite addLabel_lookup. destruct (res !! i); [|apply Hresult].
    intros [= <-]. apply insert_non_empty.
  - destruct (IsNotFoundError e); [apply IH|done].
Qed.

Lemma readLabels_all_NotFound (readers : list (string * Result (gmap Z any)))
    (result : gmap Z (gmap string any)) :
  Forall (λ reader, ∃ err, reader.2 = Err err ∧ IsNotFoundError err = true) readers →
  readLabels readers result = Ok result.
Proof.
  induction 1 as [|[label r] rest (err & Hr & Herr) _ IH]; [done|].
  cbn in Hr. subst r. cbn [readLabels]. by rewrite Herr.
Qed.

(** X17: [getProperty] never returns a NotFound error and never returns an
    empty group: a label whose reader finds nothing is skipped, a row is
    made only for an index at which some label has a value, and every other
    failure of a reader is a failure of the whole read. *)
Theorem getProperty_never_NotFound (s : snmpGroupPropertyReader) (ctx : context) :
  match getProperty s ctx with
  | Ok groups => Forall (λ group, group ≠ ∅) groups
  | Err err => IsNotFoundError err = false
  end.
Proof.
  unfold getProperty.
  destruct (deviceClassOIDs_readOID (oids s) ctx) as [groups|err] eqn:Hread.
  - unfold deviceClassOIDs_readOID in Hread. cbn [readOID] in Hread.
    destruct (readLabels _ ∅) as [rows|] eqn:Hrows; [|done].
    injection Hread as <-.
    destruct (sortGroups_spec (size rows) rows [] eq_refl) as (pairs & Hsort & Hperm & _).
    { intros i j Hi. by apply elem_of_nil in Hi. }
    { constructor. }
    rewrite map_size_fmap. cbn in Hsort. rewrite Hsort.
    apply Forall_fmap, Forall_forall. intros [i row] Hin. cbn.
    rewrite Hperm in Hin. cbn in Hin. apply elem_of_map_to_list in Hin.
    eapply readLabels_rows_nonempty; [exact Hrows| |exact Hin].
    intros ? ?. by rewrite lookup_empty.
  - unfold deviceClassOIDs_readOID in Hread. cbn [readOID] in Hread.
    destruct (readLabels _ ∅) as [rows|e] eqn:Hrows; [done|].
    injection Hread as <-. apply readLabels_never_NotFound in Hrows.
    unfold IsNotFoundError in *. exact Hrows.
Qed.

(** X18: when the reader of every label finds nothing, and when there is no
    label at all, [getProperty] succeeds with no group. *)
Theorem getProperty_nothing_found (s : snmpGroupPropertyReader) (ctx : context) :
  (∀ label reader, oids s !! label = Some reader →
     ∃ err, readOID reader ctx = Err err ∧ IsNotFoundError err = true) →
  getProperty s ctx = Ok [].
Proof.
  intros Hall. unfold getProperty, deviceClassOIDs_readOID. cbn [readOID].
  rewrite readLabels_all_NotFound.
  - cbn. by rewrite fmap_empty.
  - apply Forall_forall. intros [label r] Hin. cbn.
    apply elem_of_map_to_list in Hin. rewrite lookup_fmap in Hin.
    destruct (oids s !! label) as [reader|] eqn:Hlabel; [|done].
    injection Hin as <-. by apply (Hall label).
Qed.

Lemma readResponses_app (d : deviceClassOID) ctx (l1 l2 : list SNMPResponse)
    (result : gmap Z any) :
  readResponses d ctx (l1 ++ l2) result
  = match readResponses d ctx l1 result with
    | Ok result' => readResponses d ctx l2 result'
    | Err err => Err err
    end.
Proof.
  revert result. induction l1 as [|response l1 IH]; intros result; [done|].
  cbn [app readResponses].
  destruct (GetValueBySNMPGetConfiguration _ _) as [res|]; [|done].
  case_bool_decide; [|apply IH].
  destruct (apply _ _ _); [|done]. destruct (strconv.Atoi _); [apply IH|done].
Qed.

Lemma readResponses_reads (d : deviceClassOID) ctx (response : SNMPResponse)
    (rest : list SNMPResponse) (result : gmap Z any) index v :
  rowReads d ctx response index v →
  readResponses d ctx (response :: rest) result
  = readResponses d ctx rest (<[index := anyValue v]> result).
Proof.
  intros (res & Hres & Hne & Happly & Hindex). cbn [readResponses].
  rewrite Hres, bool_decide_eq_true_2 by done. by rewrite Happly, Hindex.
Qed.

(** X19: of several walked responses with the same trailing index the leaf
    reader keeps the last: the value at an index is that of the last
    response that was read at it. *)
Theorem deviceClassOID_readOID_last_wins (d : deviceClassOID) (ctx : context)
    (client : SNMPClient) (before after : list SNMPResponse) (response : SNMPResponse)
    (index : Z) (v : value.Value) (result : gmap Z any) :
  snmpClient ctx = Some client →
  SNMPWalk client (OID (SNMPGetConfiguration_ d)) = Ok (before ++ response :: after) →
  rowReads d ctx response index v →
  Forall (λ later, ∀ v', ¬ rowReads d ctx later index v') after →
  deviceClassOID_readOID d ctx = Ok result →
  result !! index = Some (anyValue v).
Proof.
  intros Hclient Hwalk Hreads Hafter. unfold deviceClassOID_readOID.
  rewrite Hclient, Hwalk, readResponses_app.
  destruct (readResponses d ctx before ∅) as [result1|]; [|done].
  rewrite (readResponses_reads _ _ _ _ _ _ _ Hreads). intros Hrest.
  apply readResponses_Ok in Hrest as (_ & _ & Hkeeps & Hfrom).
  destruct (Hkeeps index) as [x Hx]; [by rewrite lookup_insert_eq|].
  destruct (Hfrom index x Hx) as [Hold|(later & v' & Hin & Hlater & _)].
  - rewrite lookup_insert_eq in Hold. congruence.
  - rewrite Forall_forall in Hafter. by destruct (Hafter later Hin v').
Qed.

End reader_more_facts.

(** * More on the attachment of the sub-interface counters *)

Section timos_more_facts.
Import tholaerr device network timos_sas.
Local Open Scope list_scope.

Variable getCounterFromSnmpGet : context → string → Result Z.

Lemma getInterfaceBySubIndex_from_first (n : nat) (subIndex : Z)
    (interfaces : list Interface) (i : nat) (interf : Interface) :
  interfaces !! i = Some interf →
  (∀ j x, (j < i)%nat → interfaces !! j = Some x →
     ∃ k, IfIndex x = Some k ∧ k ≠ subIndex) →
  (IfIndex interf = None →
     ∃ msg, getInterfaceBySubIndex_from n subIndex interfaces = Panics msg)
  ∧ (IfIndex interf = Some subIndex →
     getInterfaceBySubIndex_from n subIndex interfaces = Returns (Ok (n + i)%nat)).
Proof.
  revert n i. induction interfaces as [|x rest IH]; intros n i Hi Hbefore; [done|].
  destruct i as [|i]; cbn [getInterfaceBySubIndex_from].
  - injection Hi as ->. split; intros ->; [by eexists|].
    rewrite Z.eqb_refl. do 3 f_equal. lia.
  - destruct (Hbefore 0%nat x) as (k & -> & Hk); [lia|done|].
    destruct (Z.eqb_spec k subIndex) as [|_]; [done|].
    replace (n + S i)%nat with (S n + i)%nat by lia. apply IH; [done|].
    intros j y Hj Hy. apply (Hbefore (S j)); [lia|done].
Qed.

(** X20: [getInterfaceBySubIndex] looks at the interfaces in order and stops
    at the first whose index is the one sought or is a nil pointer: at the
    former it returns the position, at the latter it panics. A nil index
    behind the match is never looked at. *)
Theorem getInterfaceBySubIndex_first_decides (subIndex : Z)
    (interfaces : list Interface) (i : nat) (interf : Interface) :
  interfaces !! i = Some interf →
  (∀ j x, (j < i)%nat → interfaces !! j = Some x →
     ∃ k, IfIndex x = Some k ∧ k ≠ subIndex) →
  (IfIndex interf = None →
     ∃ msg, getInterfaceBySubIndex subIndex interfaces = Panics msg)
  ∧ (IfIndex interf = Some subIndex →
     getInterfaceBySubIndex subIndex interfaces = Returns (Ok i)).
Proof.
  intros Hi Hbefore. by apply (getInterfaceBySubIndex_from_first 0 _ _ _ _ Hi).
Qed.

Local Abbreviation withoutSAP := (λ interf : Interface, setSAP interf None).

Lemma sapRow_withoutSAP ctx (response : SNMPResponse) (interfaces res : list Interface) :
  sapRow getCounterFromSnmpGet ctx response interfaces = Returns (Ok res) →
  withoutSAP <$> res = withoutSAP <$> interfaces.
Proof.
  unfold sapRow. destruct (sapSuffix response !! 2%nat); [|done].
  destruct (sapSuffix response !! 3%nat); [|done].
  destruct (strconv.ParseUint _); [|done].
  destruct (getInterfaceBySubIndex _ _) as [[i|]|]; [|done|done].
  destruct (getCounterFromSnmpGet _ _); [|done].
  destruct (getCounterFromSnmpGet _ _); [|done].
  intros [= <-]. apply list_eq. intros j. rewrite !list_lookup_fmap.
  destruct (decide (i = j)) as [->|Hne].
  - rewrite list_lookup_alter_eq. by destruct (interfaces !! j).
  - by rewrite list_lookup_alter_ne.
Qed.

Lemma sapRows_withoutSAP ctx (rows : list SNMPResponse) (interfaces res : list Interface) :
  sapRows getCounterFromSnmpGet ctx rows interfaces = Returns (Ok res) →
  withoutSAP <$> res = withoutSAP <$> interfaces.
Proof.
  revert interfaces. induction rows as [|response rows IH]; intros interfaces;
    cbn [sapRows]; [by intros [= <-]|].
  destruct (sapRow _ _ _ _) as [[interfaces'|]|] eqn:Hrow; [|done|done].
  intros Hrows. rewrite (IH _ Hrows). by apply (sapRow_withoutSAP ctx response).
Qed.

(** X21: [GetInterfaces] of the Nokia SAS-T communicator returns the
    interfaces of its parent, as many and in the same order, and changes
    nothing of them but the sub-interface counters. *)
Theorem GetInterfaces_changes_SAP_only (c : timosSASCommunicator) (ctx : context)
    (interfaces res : list Interface) :
  sub_GetInterfaces c ctx = Ok interfaces →
  GetInterfaces getCounterFromSnmpGet c ctx = Returns (Ok res) →
  List.length res = List.length interfaces
  ∧ withoutSAP <$> res = withoutSAP <$> interfaces.
Proof.
  intros Hsub. unfold GetInterfaces. rewrite Hsub.
  destruct (snmpClient ctx) as [client|]; [|done].
  destruct (SNMPWalk client sapDescriptionsOID) as [rows|]; [|done].
  intros Hrows%sapRows_withoutSAP. split; [|done].
  by rewrite <- (length_fmap withoutSAP res), Hrows, length_fmap.
Qed.

Local Abbreviation tooShort :=
  (λ response : SNMPResponse, (List.length (sapSuffix response) < 4)%nat).

Lemma sapRow_tooShort ctx (response : SNMPResponse) (interfaces : list Interface) :
  tooShort response →
  ∃ msg, sapRow getCounterFromSnmpGet ctx response interfaces = Panics msg.
Proof.
  intros Hshort. cbn beta in Hshort. unfold sapRow.
  destruct (sapSuffix response !! 2%nat); [|by eexists].
  rewrite (lookup_ge_None_2 _ 3%nat) by lia. by eexists.
Qed.

Lemma sapRows_tooShort ctx (rows : list SNMPResponse) (interfaces res : list Interface) :
  Exists tooShort rows →
  sapRows getCounterFromSnmpGet ctx rows interfaces ≠ Returns (Ok res).
Proof.
  intros Hshort. revert interfaces.
  induction Hshort as [response rows Hshort|response rows _ IH]; intros interfaces;
    cbn [sapRows].
  - destruct (sapRow_tooShort ctx response interfaces Hshort) as [msg ->]. done.
  - destruct (sapRow _ _ _ _) as [[interfaces'|]|]; [apply IH|done|done].
Qed.

(** X22: a row of the secondary table whose path has fewer than three
    segments behind the path of the table makes [GetInterfaces] panic when
    it is the first row, and keeps it from returning interfaces wherever it
    stands. *)
Theorem GetInterfaces_short_row (c : timosSASCommunicator) (ctx : context)
    (interfaces : list Interface) (client : SNMPClient) (rows : list SNMPResponse) :
  sub_GetInterfaces c ctx = Ok interfaces →
  snmpClient ctx = Some client →
  SNMPWalk client sapDescriptionsOID = Ok rows →
  Exists tooShort rows →
  (∀ res, GetInterfaces getCounterFromSnmpGet c ctx ≠ Returns (Ok res))
  ∧ (∀ response, head rows = Some response → tooShort response →
       ∃ msg, GetInterfaces getCounterFromSnmpGet c ctx = Panics msg).
Proof.
  intros Hsub Hclient Hwalk Hshort. unfold GetInterfaces.
  rewrite Hsub, Hclient, Hwalk. split.
  - intros res. by apply sapRows_tooShort.
  - intros response Hhead Hresponse. destruct rows as [|? rows]; [done|].
    injection Hhead as ->. cbn [sapRows].
    destruct (sapRow_tooShort ctx response interfaces Hresponse) as [msg ->].
    by exists msg.
Qed.

Lemma rowCorrelates_functional ctx (interfaces : list Interface) (response : SNMPResponse)
    i sap i' sap' :
  rowCorrelates getCounterFromSnmpGet ctx interfaces response i sap →
  rowCorrelates getCounterFromSnmpGet ctx interfaces response i' sap' →
  i = i' ∧ sap = sap'.
Proof.
  intros (svc & physIndex & subID & subIndex & inbound & outbound
          & Hsuffix & _ & Hparse & Hsearch & Hin & Hout & ->)
         (svc' & physIndex' & subID' & subIndex' & inbound' & outbound'
          & Hsuffix' & _ & Hparse' & Hsearch' & Hin' & Hout' & ->).
  rewrite Hsuffix in Hsuffix'. injection Hsuffix' as <- <- <-.
  split; congruence.
Qed.

Lemma rowCorrelates_sapRow ctx (interfaces : list Interface) (response : SNMPResponse)
    i sap :
  rowCorrelates getCounterFromSnmpGet ctx interfaces response i sap →
  sapRow getCounterFromSnmpGet ctx response interfaces
  = Returns (Ok (alter (λ interf, setSAP interf (Some sap)) i interfaces)).
Proof.
  intros (svc & physIndex & subID & subIndex & inbound & outbound
          & Hsuffix & _ & Hparse & Hsearch & Hin & Hout & ->).
  unfold sapRow. rewrite Hsuffix. cbn [lookup list_lookup default].
  rewrite Hparse, Hsearch. cbv beta iota zeta. unfold id. by rewrite Hin, Hout.
Qed.

Lemma sapRows_app ctx (rows1 rows2 : list SNMPResponse) (interfaces : list Interface) :
  sapRows getCounterFromSnmpGet ctx (rows1 ++ rows2) interfaces
  = match sapRows getCounterFromSnmpGet ctx rows1 interfaces with
    | Returns (Ok interfaces') => sapRows getCounterFromSnmpGet ctx rows2 interfaces'
    | stop => stop
    end.
Proof.
  revert interfaces. induction rows1 as [|response rows1 IH]; intros interfaces; [done|].
  cbn [app sapRows]. by destruct (sapRow _ _ _ _) as [[interfaces'|]|].
Qed.

Lemma withoutSAP_IfIndex (l1 l2 : list Interface) :
  withoutSAP <$> l1 = withoutSAP <$> l2 → IfIndex <$> l1 = IfIndex <$> l2.
Proof.
  intros Heq. apply (f_equal (fmap IfIndex)) in Heq.
  by rewrite <- !list_fmap_compose in Heq.
Qed.

Lemma sapRows_keeps ctx (rows : list SNMPResponse) (interfaces res : list Interface)
    (i : nat) :
  Forall wellFormedRow rows →
  Forall (λ interf, is_Some (IfIndex interf)) interfaces →
  Forall (λ later, ∀ sap,
            ¬ rowCorrelates getCounterFromSnmpGet ctx interfaces later i sap) rows →
  sapRows getCounterFromSnmpGet ctx rows interfaces = Returns (Ok res) →
  res !! i = interfaces !! i.
Proof.
  intros Hrows. revert interfaces.
  induction Hrows as [|response rows Hresponse _ IH]; intros interfaces Hindex Hnone;
    cbn [sapRows]; [by intros [= <-]|].
  apply Forall_cons in Hnone as [Hnot Hnone].
  destruct (sapRow_spec getCounterFromSnmpGet ctx response interfaces Hresponse Hindex)
    as [(j & sap & Hcorrelates & ->)|(_ & err & ->)]; [|done].
  assert (IfIndex <$> alter (λ interf, setSAP interf (Some sap)) j interfaces
          = IfIndex <$> interfaces) as Hsame by apply alter_setSAP_IfIndex.
  intros Hrest. rewrite (IH _ (hasIfIndex_IfIndex _ _ (eq_sym Hsame) Hindex)); [| |done].
  - apply list_lookup_alter_ne. intros ->. by apply (Hnot sap).
  - eapply Forall_impl; [exact Hnone|]. intros later Hlater sap' Hcorrelates'.
    apply (Hlater sap'). by apply (rowCorrelates_IfIndex _ _ _ _ _ _ _ Hsame).
Qed.

(** X23: when several rows of the secondary table correlate with one
    interface, [GetInterfaces] leaves it with the counters of the last of
    them. *)
Theorem GetInterfaces_last_row_wins (c : timosSASCommunicator) (ctx : context)
    (interfaces res : list Interface) (client : SNMPClient)
    (before after : list SNMPResponse) (response : SNMPResponse)
    (i : nat) (sap : SAPInterface) :
  sub_GetInterfaces c ctx = Ok interfaces →
  snmpClient ctx = Some client →
  SNMPWalk client sapDescriptionsOID = Ok (before ++ response :: after) →
  Forall (λ interf, is_Some (IfIndex interf)) interfaces →
  Forall wellFormedRow after →
  rowCorrelates getCounterFromSnmpGet ctx interfaces response i sap →
  Forall (λ later, ∀ sap',
            ¬ rowCorrelates getCounterFromSnmpGet ctx interfaces later i sap') after →
  GetInterfaces getCounterFromSnmpGet c ctx = Returns (Ok res) →
  ∃ interf, interfaces !! i = Some interf ∧ res !! i = Some (setSAP interf (Some sap)).
Proof.
  intros Hsub Hclient Hwalk Hindex Hafter Hcorrelates Hlast. unfold GetInterfaces.
  rewrite Hsub, Hclient, Hwalk, sapRows_app.
  destruct (sapRows _ ctx before interfaces) as [[interfaces1|]|] eqn:Hbefore;
    [|done|done].
  apply sapRows_withoutSAP in Hbefore as Hframe.
  apply withoutSAP_IfIndex in Hframe as Hsame.
  cbn [sapRows].
  rewrite (rowCorrelates_sapRow ctx interfaces1 response i sap)
    by by apply (rowCorrelates_IfIndex _ _ interfaces).
  intros Hrest.
  assert (IfIndex <$> alter (λ interf, setSAP interf (Some sap)) i interfaces1
          = IfIndex <$> interfaces) as Hsame2.
  { by rewrite alter_setSAP_IfIndex. }
  apply (sapRows_keeps ctx after _ res i Hafter) in Hrest.
  2:{ by apply (hasIfIndex_IfIndex interfaces). }
  2:{ eapply Forall_impl; [exact Hlast|]. intros later Hlater sap' Hcorrelates'.
      apply (Hlater sap'). by apply (rowCorrelates_IfIndex _ _ _ _ _ _ _ Hsame2). }
  rewrite Hrest, list_lookup_alter_eq.
  apply (f_equal (λ l, l !! i)) in Hframe. rewrite !list_lookup_fmap in Hframe.
  destruct (interfaces1 !! i) as [interf1|], (interfaces !! i) as [interf|] eqn:Hi;
    cbn in Hframe; try done.
  - exists interf. split; [done|]. cbn. f_equal. injection Hframe as Hframe.
    destruct interf1, interf. cbn in *. by simplify_eq.
  - destruct Hcorrelates as (? & ? & ? & subIndex & ? & ? & _ & _ & _ & Hsearch & _).
    destruct (getInterfaceBySubIndex_spec subIndex interfaces Hindex)
      as [(j & interf & Hj & Hlookup & _)|(err & Herr & _)]; [|congruence].
    rewrite Hsearch in Hj. injection Hj as ->. congruence.
Qed.

End timos_more_facts.

(** * The properties above on the instances *)

Section component_examples_facts.
Import tholaerr device network communicator components identify rules reader examples
  component_examples.
Local Open Scope list_scope.

Lemma GetInterfaces_firstDefined_witness :
  Forall (λ p, isHead p = false) (parents iosCommunicator)
  ∧ sameRun (GetInterfaces iosCommunicator tt [])
      (Ok (normalizeInterfaces [fastInterface; slowInterface]),
       ["ios.interfaces"; "generic.interfaces"]).
Proof.
  assert (Forall (λ p, isHead p = false) (parents iosCommunicator)) as Hparents
    by (repeat constructor).
  split; [exact Hparents|].
  exact (GetInterfaces_firstDefined iosCommunicator tt [] Hparents).
Defined.

Lemma head_gated_getters_below_head_witness :
  isHead (communicator genericComponents) = false
  ∧ hasComponent genericComponents memoryComponent = false
  ∧ GetMemoryComponentMemoryUsage genericComponents tt []
    = chainGetter noGate "" getMemoryUsage genericComponents tt [].
Proof.
  split; [reflexivity|]. split; [reflexivity|].
  apply (head_gated_getters_below_head genericComponents tt []);
    [reflexivity|constructor].
Defined.

Lemma GetCPUComponent_parent_without_component_witness :
  hasComponent iosComponents cpuComponent = true
  ∧ hasComponent genericComponents cpuComponent = false
  ∧ GetCPUComponent iosComponents iosComponents tt []
    = (Err (errors.Wrap
              (NewComponentNotFoundError "no cpu component available for this device")
              "error occurred during get cpu load"), ["ios.cpuLoad"]).
Proof.
  split; [reflexivity|]. split; [reflexivity|].
  apply (GetCPUComponent_parent_without_component iosComponents iosComponents
           genericComponents tt [] notImplemented ["ios.cpuLoad"]); reflexivity.
Defined.

Lemma aggregators_fields_witness :
  hasComponent hostComponents cpuComponent = true
  ∧ GetCPUComponentCPULoad hostComponents tt [] = (Ok None, ["host.cpuLoad"])
  ∧ GetCPUComponent hostComponents hostComponents tt []
    = (Ok {| Load := None; Temperature := None |},
       ["host.cpuLoad"; "host.cpuTemperature"]).
Proof.
  split; [reflexivity|]. split; [reflexivity|].
  apply (proj2 (proj2 (aggregators_fields hostComponents hostComponents tt []))
           ["host.cpuLoad"]
           (NewNotImplementedError "no detection information available")
           ["host.cpuLoad"; "host.cpuTemperature"]); reflexivity.
Defined.

Lemma GetHardwareHealthComponent_sbc_texts_witness :
  hasComponent iosComponents hardwareHealthComponent = true
  ∧ GetHardwareHealthComponent iosComponents iosComponents tt []
    = (Err (NewNotFoundError "no sbc data available"),
       ["ios.environmentMonitorState"; "generic.environmentMonitorState";
        "ios.fans"; "generic.fans"; "ios.powerSupply"; "generic.powerSupply"]).
Proof.
  split; [reflexivity|].
  apply (proj1 (GetHardwareHealthComponent_sbc_texts iosComponents iosComponents tt []
                  eq_refl)).
  vm_compute. reflexivity.
Defined.

Lemma normalizeInterfaces_frame_witness :
  IfSpeed slowInterface ≠ Some MaxUint32
  ∧ normalizeInterfaces [fastInterface; slowInterface] !! 1%nat = Some slowInterface.
Proof.
  assert (IfSpeed slowInterface ≠ Some MaxUint32) as Hspeed by discriminate.
  split; [exact Hspeed|].
  apply (proj2 (proj2 (normalizeInterfaces_frame [fastInterface; slowInterface]))
           1%nat slowInterface); [reflexivity|left; exact Hspeed].
Defined.

Lemma getProperty_nothing_found_witness :
  getProperty {| oids := {[ "speed" := oidLeaf absentColumn ]} |} ctx = Ok [].
Proof.
  apply (getProperty_nothing_found {| oids := {[ "speed" := oidLeaf absentColumn ]} |} ctx).
  intros label reader Hlabel. cbn [oids] in Hlabel.
  apply lookup_singleton_Some in Hlabel as [_ <-].
  exists (NewNotFoundError "no such object"). split; reflexivity.
Defined.

Lemma deviceClassOID_readOID_last_wins_witness :
  rowReads (leaf ".1.3.6.1.2.1.1.5") twiceCtx (response ".1.3.6.1.2.1.1.5.1" "new")
    1%Z "new"
  ∧ deviceClassOID_readOID (leaf ".1.3.6.1.2.1.1.5") twiceCtx
    = Ok {[ 1%Z := anyValue "new" ]}
  ∧ ({[ 1%Z := anyValue "new" ]} : gmap Z any) !! 1%Z = Some (anyValue "new").
Proof.
  assert (rowReads (leaf ".1.3.6.1.2.1.1.5") twiceCtx
            (response ".1.3.6.1.2.1.1.5.1" "new") 1%Z "new") as Hreads.
  { exists "new". repeat split. discriminate. }
  assert (deviceClassOID_readOID (leaf ".1.3.6.1.2.1.1.5") twiceCtx
          = Ok {[ 1%Z := anyValue "new" ]}) as Hread by (vm_compute; reflexivity).
  split; [exact Hreads|]. split; [exact Hread|].
  exact (deviceClassOID_readOID_last_wins (leaf ".1.3.6.1.2.1.1.5") twiceCtx
           {| SNMPWalk := λ _,
                Ok [response ".1.3.6.1.2.1.1.5.1" "old";
                    response ".1.3.6.1.2.1.1.5.1" "new"] |}
           [response ".1.3.6.1.2.1.1.5.1" "old"] []
           (response ".1.3.6.1.2.1.1.5.1" "new") 1%Z "new" {[ 1%Z := anyValue "new" ]}
           eq_refl eq_refl Hreads (Forall_nil_2 _) Hread).
Defined.

Lemma getInterfaceBySubIndex_first_decides_witness :
  [slowInterface; sapInterface; unindexedInterface] !! 1%nat = Some sapInterface
  ∧ timos_sas.getInterfaceBySubIndex 73
      [slowInterface; sapInterface; unindexedInterface]
    = timos_sas.Returns (Ok 1%nat).
Proof.
  assert (∀ j x, (j < 1)%nat →
            [slowInterface; sapInterface; unindexedInterface] !! j = Some x →
            ∃ k, IfIndex x = Some k ∧ k ≠ 73%Z) as Hbefore.
  { intros [|j] x Hj Hx; [|lia]. injection Hx as <-. exists 2%Z.
    split; [reflexivity|discriminate]. }
  split; [reflexivity|].
  apply (proj2 (getInterfaceBySubIndex_first_decides 73
                  [slowInterface; sapInterface; unindexedInterface] 1%nat sapInterface
                  eq_refl Hbefore)).
  reflexivity.
Defined.

Lemma GetInterfaces_changes_SAP_only_witness :
  timos_sas.GetInterfaces counters (sasWith [slowInterface; sapInterface]) sapCtx
  = timos_sas.Returns
      (Ok [slowInterface;
           setSAP sapInterface (Some {| Inbound := Some 11%Z; Outbound := Some 22%Z |})])
  ∧ (λ interf, setSAP interf None)
      <$> [slowInterface;
           setSAP sapInterface (Some {| Inbound := Some 11%Z; Outbound := Some 22%Z |})]
    = (λ interf, setSAP interf None) <$> [slowInterface; sapInterface].
Proof.
  assert (timos_sas.GetInterfaces counters (sasWith [slowInterface; sapInterface]) sapCtx
          = timos_sas.Returns
              (Ok [slowInterface;
                   setSAP sapInterface
                     (Some {| Inbound := Some 11%Z; Outbound := Some 22%Z |})])) as Hrun
    by (vm_compute; reflexivity).
  split; [exact Hrun|].
  exact (proj2 (GetInterfaces_changes_SAP_only counters
                  (sasWith [slowInterface; sapInterface]) sapCtx
                  [slowInterface; sapInterface] _ eq_refl Hrun)).
Defined.

Lemma GetInterfaces_short_row_witness :
  (List.length (timos_sas.sapSuffix
                  (response (timos_sas.sapDescriptionsOID ++ ".7.3") "customer")) < 4)%nat
  ∧ ∃ msg, timos_sas.GetInterfaces counters (sasWith [sapInterface]) shortSapCtx
           = timos_sas.Panics msg.
Proof.
  assert (List.length (timos_sas.sapSuffix
            (response (timos_sas.sapDescriptionsOID ++ ".7.3") "customer")) < 4)%nat
    as Hshort by (vm_compute; lia).
  split; [exact Hshort|].
  apply (proj2 (GetInterfaces_short_row counters (sasWith [sapInterface]) shortSapCtx
                  [sapInterface]
                  {| SNMPWalk := λ _,
                       Ok [response (timos_sas.sapDescriptionsOID ++ ".7.3") "customer"] |}
                  [response (timos_sas.sapDescriptionsOID ++ ".7.3") "customer"]
                  eq_refl eq_refl eq_refl
                  (Exists_cons_hd
                     (λ response, (List.length (timos_sas.sapSuffix response) < 4)%nat)
                     _ _ Hshort))
           (response (timos_sas.sapDescriptionsOID ++ ".7.3") "customer") eq_refl Hshort).
Defined.

Lemma GetInterfaces_last_row_wins_witness :
  timos_sas.GetInterfaces twoCounters (sasWith [slowInterface; sapInterface]) twoSapCtx
  = timos_sas.Returns
      (Ok [slowInterface;
           setSAP sapInterface (Some {| Inbound := Some 33%Z; Outbound := Some 44%Z |})])
  ∧ ∃ interf,
      [slowInterface; sapInterface] !! 1%nat = Some interf
      ∧ [slowInterface;
         setSAP sapInterface (Some {| Inbound := Some 33%Z; Outbound := Some 44%Z |})]
        !! 1%nat
        = Some (setSAP interf (Some {| Inbound := Some 33%Z; Outbound := Some 44%Z |})).
Proof.
  assert (timos_sas.GetInterfaces twoCounters (sasWith [slowInterface; sapInterface])
            twoSapCtx
          = timos_sas.Returns
              (Ok [slowInterface;
                   setSAP sapInterface
                     (Some {| Inbound := Some 33%Z; Outbound := Some 44%Z |})])) as Hrun
    by (vm_compute; reflexivity).
  assert (timos_sas.rowCorrelates twoCounters twoSapCtx [slowInterface; sapInterface]
            (response (timos_sas.sapDescriptionsOID ++ ".200.7.3") "backup") 1%nat
            {| Inbound := Some 33%Z; Outbound := Some 44%Z |}) as Hcorrelates.
  { exists "200", "7", "3", 73%Z, 33%Z, 44%Z. repeat split; vm_compute; reflexivity. }
  assert (Forall (λ interf : Interface, is_Some (IfIndex interf))
            [slowInterface; sapInterface]) as Hindex.
  { repeat constructor; eexists; reflexivity. }
  split; [exact Hrun|].
  exact (GetInterfaces_last_row_wins twoCounters (sasWith [slowInterface; sapInterface])
           twoSapCtx [slowInterface; sapInterface] _
           {| SNMPWalk := λ _,
                Ok [response (timos_sas.sapDescriptionsOID ++ ".100.7.3") "customer";
                    response (timos_sas.sapDescriptionsOID ++ ".200.7.3") "backup"] |}
           [response (timos_sas.sapDescriptionsOID ++ ".100.7.3") "customer"] []
           (response (timos_sas.sapDescriptionsOID ++ ".200.7.3") "backup") 1%nat
           {| Inbound := Some 33%Z; Outbound := Some 44%Z |}
           eq_refl eq_refl eq_refl Hindex (Forall_nil_2 _) Hcorrelates (Forall_nil_2 _)
           Hrun).
Defined.

End component_examples_facts.

(** * The shape of what a reader returns *)

Section shape_facts.
Import tholaerr network reader shapes.
Local Open Scope list_scope.

Lemma readLabels_from (readers : list (string * Result (gmap Z any)))
    (result result' : gmap Z (gmap string any)) :
  readLabels readers result = Ok result' →
  ∀ i row label x, result' !! i = Some row → row !! label = Some x →
    (∃ row0, result !! i = Some row0 ∧ row0 !! label = Some x)
    ∨ ∃ res, (label, Ok res) ∈ readers ∧ res !! i = Some x.
Proof.
  revert result. induction readers as [|[label' [res|e]] rest IH]; intros result;
    cbn [readLabels].
  - intros [= <-] i row label x Hrow Hx. left. eauto.
  - intros Hread i row label x Hrow Hx.
    destruct (IH _ Hread i row label x Hrow Hx) as [(row0 & Hrow0 & Hx0)|(res' & Hin & Hx')].
    + rewrite addLabel_lookup in Hrow0. destruct (res !! i) as [v|] eqn:Hv.
      * injection Hrow0 as <-. destruct (decide (label' = label)) as [->|Hne].
        -- rewrite lookup_insert_eq in Hx0. injection Hx0 as ->.
           right. exists res. split; [left|done].
        -- rewrite lookup_insert_ne in Hx0 by done.
           destruct (result !! i) as [row1|] eqn:Hrow1; cbn in Hx0; [|done].
           left. eauto.
      * left. eauto.
    + right. exists res'. split; [by right|done].
  - destruct (IsNotFoundError e); [|done]. intros Hread i row label x Hrow Hx.
    destruct (IH _ Hread i row label x Hrow Hx) as [?|(res' & Hin & Hx')]; [by left|].
    right. exists res'. split; [by right|done].
Qed.

(** X24: what a reader returns has the shape of the reader, at every
    index: a leaf gives normalized values, a group gives maps that are not
    empty and hold, under labels of the group only, values of the shape of
    the readers under these labels. *)
Theorem readOID_shaped (reader : oidReader) (ctx : context) :
  match readOID reader ctx with
  | Ok res => ∀ i v, res !! i = Some v → shaped reader v
  | Err _ => True
  end.
Proof.
  induction reader as [leaf|d IH] using oidReader_tree_ind.
  - cbn [readOID]. unfold deviceClassOID_readOID.
    destruct (snmpClient ctx) as [client|]; [|done].
    destruct (SNMPWalk client _) as [snmpResponse|err]; [|by destruct (IsNotFoundError err)].
    destruct (readResponses leaf ctx snmpResponse ∅) as [res|] eqn:Hres; [|done].
    intros i v Hv. apply readResponses_Ok in Hres as (_ & _ & _ & Hfrom).
    destruct (Hfrom i v Hv) as [Hempty|(response & v' & _ & _ & ->)]; [|done].
    by rewrite lookup_empty in Hempty.
  - cbn [readOID].
    destruct (readLabels _ ∅) as [rows|] eqn:Hrows; [|done]. cbn [Result_map].
    intros i v. rewrite lookup_fmap.
    destruct (rows !! i) as [row|] eqn:Hrow; [|done]. intros [= <-]. cbn [shaped]. split.
    + eapply readLabels_rows_nonempty; [exact Hrows| |exact Hrow].
      intros ? ?. by rewrite lookup_empty.
    + intros label x Hx.
      destruct (readLabels_from _ _ _ Hrows i row label x Hrow Hx)
        as [(row0 & Hrow0 & _)|(res & Hin & Hres)]; [by rewrite lookup_empty in Hrow0|].
      apply elem_of_map_to_list in Hin. rewrite lookup_fmap in Hin.
      destruct (d !! label) as [reader|] eqn:Hlabel; [|done]. injection Hin as Hread.
      exists (shaped reader). split; [by rewrite lookup_fmap, Hlabel|].
      specialize (IH label reader Hlabel). rewrite Hread in IH. by apply (IH i).
Qed.

End shape_facts.
